(** * Apex content strategist: the LLM-response recovery layer

    Shallow embedding of [src/agents/title_agent.py] and
    [src/agents/content_agent.py]: the extraction of a JSON payload from the
    raw LLM text, the textual repair [_clean_json_string], the strict parse
    [json.loads], and the fallback synthesis of titles and content. *)

From Stdlib Require Import String Ascii.
From Stdlib Require Import List ZArith NArith Lia Bool.
Import ListNotations.

Set Warnings "-register-all".

(** ** Python strings

    A Python [str] is a sequence of Unicode code points; a code point is
    modelled as an [N] and a string as a list of them.  The library methods
    the agents call are written out below with their CPython behaviour.

    Single characters are written by code point: 34 double quote, 43 plus,
    44 comma, 45 minus, 46 dot, 58 colon, 91 and 93 the square brackets,
    92 backslash, 95 underscore, 96 backtick, 123 and 125 the braces. *)

Module Py.

Definition char := N.
Definition str := list char.

(** [lit "abc"] is the Python literal ['abc'] (ASCII literals only). *)
Definition lit (s : string) : str :=
  map N_of_ascii (list_ascii_of_string s).

(** The double-quote character, U+0022. *)
Definition dq : char := 34%N.
(** The newline character, U+000A. *)
Definition nl : char := 10%N.

(** [a == b] *)
Fixpoint str_eqb (a b : str) : bool :=
  match a, b with
  | [], [] => true
  | x :: a', y :: b' => (x =? y)%N && str_eqb a' b'
  | _, _ => false
  end.

(** [str.isspace] on one code point ([_PyUnicode_IsWhitespace]); the regular
    expression class [\s] of a [str] pattern tests the same set. *)
Definition isspace (c : char) : bool :=
  ((9 <=? c) && (c <=? 13) || (28 <=? c) && (c <=? 32)
   || (c =? 133) || (c =? 160) || (c =? 5760)
   || (8192 <=? c) && (c <=? 8202)
   || (c =? 8232) || (c =? 8233) || (c =? 8239) || (c =? 8287)
   || (c =? 12288))%N.

Fixpoint lstrip (s : str) : str :=
  match s with
  | c :: s' => if isspace c then lstrip s' else s
  | [] => []
  end.

Definition rstrip (s : str) : str := rev (lstrip (rev s)).

(** [s.strip()] *)
Definition strip (s : str) : str := rstrip (lstrip s).

(** The ASCII digits. *)
Definition is_digit (c : char) : bool := ((48 <=? c) && (c <=? 57))%N.

(** The longest prefix of [s] whose characters all satisfy [p], and the
    rest. *)
Fixpoint span (p : char -> bool) (s : str) : str * str :=
  match s with
  | c :: s' =>
      if p c then let (a, b) := span p s' in (c :: a, b) else ([], s)
  | [] => ([], [])
  end.

(** [s.startswith(p)] *)
Fixpoint startswith (p s : str) : bool :=
  match p, s with
  | [], _ => true
  | a :: p', b :: s' => (a =? b)%N && startswith p' s'
  | _ :: _, [] => false
  end.

(** The text after a leading [c], if [s] starts with [c]. *)
Definition eat (c : char) (s : str) : option str :=
  match s with
  | x :: r => if (x =? c)%N then Some r else None
  | [] => None
  end.

(** [s.endswith(p)] *)
Definition endswith (p s : str) : bool := startswith (rev p) (rev s).

(** [sub in s] *)
Fixpoint contains (sub s : str) : bool :=
  startswith sub s ||
  match s with
  | [] => false
  | _ :: s' => contains sub s'
  end.

(** [s.find(sub)]: the lowest index where [sub] occurs, [-1] if none.
    [find_from] carries the index of the head of the remaining text. *)
Fixpoint find_from (sub s : str) (i : Z) : Z :=
  if startswith sub s then i
  else match s with
       | [] => (-1)%Z
       | _ :: s' => find_from sub s' (i + 1)
       end.

Definition find (sub s : str) : Z := find_from sub s 0.

(** [s.rfind(sub)]: the highest index where [sub] occurs, [-1] if none. *)
Fixpoint rfind_from (sub s : str) (i : Z) : Z :=
  match s with
  | [] => if startswith sub [] then i else (-1)%Z
  | _ :: s' =>
      let r := rfind_from sub s' (i + 1) in
      if (r =? -1)%Z then (if startswith sub s then i else (-1)%Z) else r
  end.

Definition rfind (sub s : str) : Z := rfind_from sub s 0.

(** Slices [s[i:j]] with Python's treatment of negative and out-of-range
    bounds; [None] is an omitted bound. *)
Definition norm_index (len i : Z) : Z :=
  if (i <? 0)%Z then Z.max 0 (i + len) else Z.min i len.

Definition slice (i j : option Z) (s : str) : str :=
  let len := Z.of_nat (length s) in
  let a := match i with None => 0%Z | Some i => norm_index len i end in
  let b := match j with None => len | Some j => norm_index len j end in
  firstn (Z.to_nat (b - a)) (skipn (Z.to_nat a) s).

(** [s.replace(old, new)] for a non-empty [old]: the non-overlapping
    occurrences of [old] are replaced from left to right.  [skip] counts the
    characters of an occurrence already replaced that are still to be passed
    over. *)
Fixpoint replace_aux (old new : str) (skip : nat) (s : str) : str :=
  match s with
  | [] => []
  | c :: s' =>
      match skip with
      | S k => replace_aux old new k s'
      | O =>
          if startswith old s
          then new ++ replace_aux old new (length old - 1) s'
          else c :: replace_aux old new 0 s'
      end
  end.

Definition replace (old new s : str) : str := replace_aux old new 0 s.

(** [s.split(sep)] and [s.split(sep, maxsplit)] for a non-empty [sep] (an
    empty separator raises [ValueError] in Python; the agents never pass
    one).  The result is never empty. *)
Definition cons_head (c : char) (l : list str) : list str :=
  match l with
  | p :: ps => (c :: p) :: ps
  | [] => [[c]]
  end.

Fixpoint split_aux (sep : str) (maxsplit : option nat) (skip : nat) (s : str)
  : list str :=
  match s with
  | [] => [[]]
  | c :: s' =>
      match skip with
      | S k => split_aux sep maxsplit k s'
      | O =>
          match maxsplit with
          | Some O => [s]
          | _ =>
              if startswith sep s
              then [] :: split_aux sep (option_map Nat.pred maxsplit)
                           (length sep - 1) s'
              else cons_head c (split_aux sep maxsplit 0 s')
          end
      end
  end.

Definition split (sep s : str) : list str := split_aux sep None 0 s.
Definition split_max (sep : str) (n : nat) (s : str) : list str :=
  split_aux sep (Some n) 0 s.

(** [s.split()] with no separator: the maximal runs of non-whitespace. *)
Fixpoint split_ws_aux (cur : str) (s : str) : list str :=
  match s with
  | [] => match cur with [] => [] | _ => [rev cur] end
  | c :: s' =>
      if isspace c
      then match cur with
           | [] => split_ws_aux [] s'
           | _ => rev cur :: split_ws_aux [] s'
           end
      else split_ws_aux (c :: cur) s'
  end.

Definition split_ws (s : str) : list str := split_ws_aux [] s.

(** [s.splitlines()]: line boundaries are LF, CR, CR LF, VT, FF, FS, GS, RS,
    NEL, LS and PS; a final boundary does not open an empty last line. *)
Definition is_linebreak (c : char) : bool :=
  ((10 <=? c) && (c <=? 13) || (28 <=? c) && (c <=? 30)
   || (c =? 133) || (c =? 8232) || (c =? 8233))%N.

Fixpoint splitlines_aux (after_cr : bool) (cur : str) (s : str) : list str :=
  match s with
  | [] => match cur with [] => [] | _ => [rev cur] end
  | c :: s' =>
      if after_cr && (c =? 10)%N then splitlines_aux false cur s'
      else if is_linebreak c
           then rev cur :: splitlines_aux (c =? 13)%N [] s'
           else splitlines_aux false (c :: cur) s'
  end.

Definition splitlines (s : str) : list str := splitlines_aux false [] s.

(** [sep.join(parts)] *)
Fixpoint join (sep : str) (parts : list str) : str :=
  match parts with
  | [] => []
  | [p] => p
  | p :: ps => p ++ sep ++ join sep ps
  end.

End Py.

Import Py.

(** ** Exceptions

    Python code that may raise is a computation in the error monad
    [result]; [try]/[except] is a match on the outcome. *)

Inductive exn : Type :=
| JSONDecodeError
| ValueError
| IndexError
| RecursionError
| LLMError (msg : str).

Inductive result (A : Type) : Type :=
| Ok (a : A)
| Raise (e : exn).

Arguments Ok {A} a.
Arguments Raise {A} e.

Definition bind {A B : Type} (m : result A) (k : A -> result B) : result B :=
  match m with
  | Ok a => k a
  | Raise e => Raise e
  end.

Notation "x <- m ;; k" := (bind m (fun x => k))
  (at level 61, m at next level, right associativity).

(** [l[i]] for a non-negative [i]: [IndexError] when out of range. *)
Definition index {A : Type} (l : list A) (i : nat) : result A :=
  match nth_error l i with
  | Some a => Ok a
  | None => Raise IndexError
  end.

(** ** The interpreter

    Three facts about the running interpreter decide where [json.loads]
    and [int] give up and what [int] reads as a digit: how many nested
    containers the decoder may still enter before [RecursionError] (what is
    left of [sys.getrecursionlimit()] at the call), the limit on the digits
    of a decimal integer literal ([sys.get_int_max_str_digits()]; 0 when
    there is none), and the zero digits of the decimal-digit blocks of the
    Unicode database (each block is ten consecutive code points). *)

Record runtime : Type := mk_runtime {
  recursion_limit : nat;
  int_max_str_digits : nat;
  decimal_zeros : list N
}.

(** The test [PyLong_FromString] makes on the number of digits of a
    decimal literal: a count above 640 is compared with the limit, when one
    is set; [ValueError] follows. *)
Definition too_many_digits (rt : runtime) (digits : nat) : bool :=
  (640 <? digits)%nat && (0 <? int_max_str_digits rt)%nat
  && (int_max_str_digits rt <? digits)%nat.

(** [Py_UNICODE_TODECIMAL] on a character outside ASCII. *)
Fixpoint decimal_of (zeros : list N) (c : char) : option N :=
  match zeros with
  | [] => None
  | z :: zs =>
      if ((z <=? c) && (c <? z + 10))%N then Some (c - z)%N
      else decimal_of zs c
  end.

(** ** The regular expression of [_clean_json_string]

    The pattern of the [re.sub] call is, in order: group 1, one of the
    characters U+007B (opening brace) and U+002C (comma) followed by any
    whitespace; group 2, an identifier (a letter or underscore, then
    letters, digits and underscores); any whitespace; a colon.  The
    replacement is group 1, the identifier between double quotes, and a
    colon. *)

Module Re.

(** [[a-zA-Z_]] *)
Definition is_ident_start (c : char) : bool :=
  ((97 <=? c) && (c <=? 122) || (65 <=? c) && (c <=? 90) || (c =? 95))%N.

(** [[a-zA-Z0-9_]] *)
Definition is_ident_char (c : char) : bool :=
  is_ident_start c || is_digit c.

(** [[{,]] *)
Definition is_open_or_comma (c : char) : bool := ((c =? 123) || (c =? 44))%N.

(** A match of the pattern at the head of [s]: the replacement text and the
    number of characters matched after the first.  The starred classes are
    greedy runs ([span]); each is followed by a class disjoint from it
    (whitespace by an identifier start or a colon, identifier characters by
    whitespace or a colon), so the greedy choice is the only one that can
    succeed and backtracking never finds another match. *)
Definition match_key (s : str) : option (str * nat) :=
  match s with
  | d :: s1 =>
      if is_open_or_comma d then
        let (ws1, s2) := span isspace s1 in
        match s2 with
        | c :: s3 =>
            if is_ident_start c then
              let (id, s4) := span is_ident_char s3 in
              let (ws2, s5) := span isspace s4 in
              match eat 58%N s5 with
              | Some _ =>
                  Some (d :: ws1 ++ dq :: c :: id ++ [dq; 58%N],
                        S (length ws1 + S (length id) + length ws2))
              | None => None
              end
            else None
        | [] => None
        end
      else None
  | [] => None
  end.

(** [re.sub]: the leftmost match is replaced and the scan resumes after it;
    [skip] counts the characters of that match still to be passed over. *)
Fixpoint sub_keys_aux (skip : nat) (s : str) : str :=
  match s with
  | [] => []
  | c :: s' =>
      match skip with
      | S k => sub_keys_aux k s'
      | O =>
          match match_key s with
          | Some (r, n) => r ++ sub_keys_aux n s'
          | None => c :: sub_keys_aux 0 s'
          end
      end
  end.

Definition sub_keys (s : str) : str := sub_keys_aux 0 s.

End Re.

(** ** Python values and [json.loads]

    The values [json.loads] builds: [None], booleans, integers, floats,
    strings, lists and dicts.  A float is kept as the text of its literal
    (its binary value plays no part below); a dict is an association list in
    insertion order without duplicate keys. *)

Module Json.

Inductive jvalue : Type :=
| JNull
| JBool (b : bool)
| JInt (n : Z)
| JFloat (lexeme : str)
| JStr (s : str)
| JArr (l : list jvalue)
| JObj (d : list (str * jvalue)).

Definition dict := list (str * jvalue).

(** [d[k] = v] *)
Fixpoint dict_set (k : str) (v : jvalue) (d : dict) : dict :=
  match d with
  | [] => [(k, v)]
  | (k', v') :: d' =>
      if str_eqb k k' then (k, v) :: d' else (k', v') :: dict_set k v d'
  end.

(** [d.get(k)] *)
Fixpoint dict_get (k : str) (d : dict) : option jvalue :=
  match d with
  | [] => None
  | (k', v) :: d' => if str_eqb k k' then Some v else dict_get k d'
  end.

(** [k in d] *)
Definition dict_has (k : str) (d : dict) : bool :=
  match dict_get k d with Some _ => true | None => false end.

(** [dict(pairs)]: a later binding of a key replaces the earlier value. *)
Definition dict_of_pairs (pairs : list (str * jvalue)) : dict :=
  fold_left (fun d kv => dict_set (fst kv) (snd kv) d) pairs [].

(** The outcome of a scanning function: a value and the unread text, an
    exception ([JSONDecodeError] for a text that is not JSON,
    [RecursionError] and [ValueError] at the limits of the interpreter), or
    the fuel of the model used up. *)
Inductive pres (A : Type) : Type :=
| POk (a : A) (rest : str)
| PErr (e : exn)
| PFuel.

Arguments POk {A} a rest.
Arguments PErr {A} e.
Arguments PFuel {A}.

(** JSON whitespace: space, tab, line feed, carriage return. *)
Definition is_ws (c : char) : bool :=
  ((c =? 32) || (c =? 9) || (c =? 10) || (c =? 13))%N.

Fixpoint skip_ws (s : str) : str :=
  match s with
  | c :: s' => if is_ws c then skip_ws s' else s
  | [] => []
  end.

Definition hex_val (c : char) : option N :=
  (if (48 <=? c) && (c <=? 57) then Some (c - 48)
   else if (97 <=? c) && (c <=? 102) then Some (c - 87)
   else if (65 <=? c) && (c <=? 70) then Some (c - 55)
   else None)%N.

(** The four hexadecimal digits of a [\uXXXX] escape. *)
Definition hex4 (s : str) : option (N * str) :=
  match s with
  | a :: b :: c :: d :: r =>
      match hex_val a, hex_val b, hex_val c, hex_val d with
      | Some x, Some y, Some z, Some w =>
          Some (((x * 16 + y) * 16 + z) * 16 + w, r)%N
      | _, _, _, _ => None
      end
  | _ => None
  end.

Definition is_high_surrogate (u : N) : bool :=
  ((55296 <=? u) && (u <=? 56319))%N.
Definition is_low_surrogate (u : N) : bool :=
  ((56320 <=? u) && (u <=? 57343))%N.
Definition join_surrogates (hi lo : N) : N :=
  (65536 + ((hi - 55296) * 1024 + (lo - 56320)))%N.

(** The one-character escapes after a backslash. *)
Definition unescape (c : char) : option char :=
  (if c =? 34 then Some 34
   else if c =? 92 then Some 92
   else if c =? 47 then Some 47
   else if c =? 98 then Some 8
   else if c =? 102 then Some 12
   else if c =? 110 then Some 10
   else if c =? 114 then Some 13
   else if c =? 116 then Some 9
   else None)%N.

(** The text after a leading backslash and [u]. *)
Definition eat_escape_u (s : str) : option str :=
  match eat 92%N s with
  | Some r => eat 117%N r
  | None => None
  end.

(** [scanstring] in strict mode, after the opening quote; [acc] is the
    decoded text so far, reversed. *)
Fixpoint scanstring (fuel : nat) (acc : str) (s : str) : pres str :=
  match fuel with
  | O => PFuel
  | S f =>
      match s with
      | [] => PErr JSONDecodeError
      | c :: s' =>
          if (c =? 34)%N then POk (rev acc) s'
          else if (c =? 92)%N then
            match s' with
            | [] => PErr JSONDecodeError
            | e :: s'' =>
                if (e =? 117)%N then
                  match hex4 s'' with
                  | None => PErr JSONDecodeError
                  | Some (u, s3) =>
                      if is_high_surrogate u then
                        match eat_escape_u s3 with
                        | Some s4 =>
                            match hex4 s4 with
                            | None => PErr JSONDecodeError
                            | Some (u2, s5) =>
                                if is_low_surrogate u2
                                then scanstring f
                                       (join_surrogates u u2 :: acc) s5
                                else scanstring f (u :: acc) s3
                            end
                        | None => scanstring f (u :: acc) s3
                        end
                      else scanstring f (u :: acc) s3
                  end
                else
                  match unescape e with
                  | Some x => scanstring f (x :: acc) s''
                  | None => PErr JSONDecodeError
                  end
            end
          else if (c <=? 31)%N then PErr JSONDecodeError
          else scanstring f (c :: acc) s'
      end
  end.

Definition digit_val (c : char) : Z := Z.of_N (c - 48)%N.

Definition digits_val (ds : str) : Z :=
  fold_left (fun a c => (a * 10 + digit_val c)%Z) ds 0%Z.

(** The integer part of a number: [0], or a non-zero digit and more
    digits. *)
Definition scan_int (s : str) : option (str * str) :=
  match s with
  | c :: r =>
      if (c =? 48)%N then Some ([c], r)
      else if is_digit c
           then let (ds, r') := span is_digit r in Some (c :: ds, r')
           else None
  | [] => None
  end.

(** The optional fraction: a dot and at least one digit. *)
Definition scan_frac (s : str) : str * str :=
  match eat 46%N s with
  | Some (d :: r) =>
      if is_digit d
      then let (ds, r') := span is_digit r in (46%N :: d :: ds, r')
      else ([], s)
  | _ => ([], s)
  end.

(** The optional exponent: [e] or [E], an optional sign, at least one
    digit; without a digit nothing is consumed. *)
Definition scan_exp (s : str) : str * str :=
  match s with
  | e :: r =>
      if ((e =? 101) || (e =? 69))%N then
        let (sign, r1) :=
          match r with
          | c :: r' => if ((c =? 45) || (c =? 43))%N then ([c], r') else ([], r)
          | [] => ([], r)
          end in
        let (ds, r2) := span is_digit r1 in
        match ds with
        | [] => ([], s)
        | _ => (e :: sign ++ ds, r2)
        end
      else ([], s)
  | [] => ([], s)
  end.

(** [_match_number]: an [int] when there is neither fraction nor exponent,
    a [float] otherwise.  The [int] is built by [PyLong_FromString], which
    refuses a literal with too many digits; a [float] has no such limit. *)
Definition match_number (rt : runtime) (s : str) : pres jvalue :=
  let (neg, s1) :=
    match eat 45%N s with
    | Some r => (true, r)
    | None => (false, s)
    end in
  match scan_int s1 with
  | None => PErr JSONDecodeError
  | Some (ip, s2) =>
      let (fp, s3) := scan_frac s2 in
      let (ep, s4) := scan_exp s3 in
      match fp, ep with
      | [], [] =>
          if too_many_digits rt (length ip) then PErr ValueError
          else POk (JInt (if neg then - digits_val ip else digits_val ip)%Z) s4
      | _, _ =>
          POk (JFloat ((if neg then [45%N] else []) ++ ip ++ fp ++ ep)) s4
      end
  end.

(** [scan_once] with the object and array scanners.  [parse_elems] reads
    the elements of a non-empty array and the closing bracket,
    [parse_members] the members of a non-empty object and the closing
    brace.  [depth] is the number of nested containers that may still be
    entered: the scanner enters a recursive call at every opening brace and
    bracket, before it looks at what follows, and [RecursionError] is
    raised when none is left.  [fuel] only makes the recursion structural. *)
Fixpoint parse_value (fuel : nat) (rt : runtime) (depth : nat) (s : str)
  {struct fuel} : pres jvalue :=
  match fuel with
  | O => PFuel
  | S f =>
      match s with
      | [] => PErr JSONDecodeError
      | c :: s' =>
          if (c =? 34)%N then
            match scanstring f [] s' with
            | POk x r => POk (JStr x) r
            | PErr e => PErr e
            | PFuel => PFuel
            end
          else if (c =? 123)%N then
            match depth with
            | O => PErr RecursionError
            | S d =>
                match eat 125%N (skip_ws s') with
                | Some r => POk (JObj []) r
                | None =>
                    match parse_members f rt d (skip_ws s') with
                    | POk m r => POk (JObj (dict_of_pairs m)) r
                    | PErr e => PErr e
                    | PFuel => PFuel
                    end
                end
            end
          else if (c =? 91)%N then
            match depth with
            | O => PErr RecursionError
            | S d =>
                match eat 93%N (skip_ws s') with
                | Some r => POk (JArr []) r
                | None =>
                    match parse_elems f rt d (skip_ws s') with
                    | POk l r => POk (JArr l) r
                    | PErr e => PErr e
                    | PFuel => PFuel
                    end
                end
            end
          else if startswith (lit "null") s then POk JNull (skipn 4 s)
          else if startswith (lit "true") s then POk (JBool true) (skipn 4 s)
          else if startswith (lit "false") s then POk (JBool false) (skipn 5 s)
          else if startswith (lit "NaN") s
               then POk (JFloat (lit "NaN")) (skipn 3 s)
          else if startswith (lit "Infinity") s
               then POk (JFloat (lit "Infinity")) (skipn 8 s)
          else if startswith (lit "-Infinity") s
               then POk (JFloat (lit "-Infinity")) (skipn 9 s)
          else match_number rt s
      end
  end

with parse_elems (fuel : nat) (rt : runtime) (depth : nat) (s : str)
  {struct fuel} : pres (list jvalue) :=
  match fuel with
  | O => PFuel
  | S f =>
      match parse_value f rt depth s with
      | POk v r =>
          match eat 93%N (skip_ws r), eat 44%N (skip_ws r) with
          | Some r', _ => POk [v] r'
          | None, Some r' =>
              match parse_elems f rt depth (skip_ws r') with
              | POk l r'' => POk (v :: l) r''
              | PErr e => PErr e
              | PFuel => PFuel
              end
          | None, None => PErr JSONDecodeError
          end
      | PErr e => PErr e
      | PFuel => PFuel
      end
  end

with parse_members (fuel : nat) (rt : runtime) (depth : nat) (s : str)
  {struct fuel} : pres (list (str * jvalue)) :=
  match fuel with
  | O => PFuel
  | S f =>
      match eat 34%N s with
      | Some s1 =>
          match scanstring f [] s1 with
          | POk k r =>
              match eat 58%N (skip_ws r) with
              | Some r1 =>
                  match parse_value f rt depth (skip_ws r1) with
                  | POk v r2 =>
                      match eat 125%N (skip_ws r2), eat 44%N (skip_ws r2) with
                      | Some r3, _ => POk [(k, v)] r3
                      | None, Some r3 =>
                          match parse_members f rt depth (skip_ws r3) with
                          | POk m r4 => POk ((k, v) :: m) r4
                          | PErr e => PErr e
                          | PFuel => PFuel
                          end
                      | None, None => PErr JSONDecodeError
                      end
                  | PErr e => PErr e
                  | PFuel => PFuel
                  end
              | None => PErr JSONDecodeError
              end
          | PErr e => PErr e
          | PFuel => PFuel
          end
      | None => PErr JSONDecodeError
      end
  end.

(** The decoder on a text: one value after optional whitespace.  The fuel
    is always enough ([decode_within_budget]). *)
Definition decode (rt : runtime) (s : str) : pres jvalue :=
  parse_value (2 * length s + 2) rt (recursion_limit rt) (skip_ws s).

(** [json.loads(s)] for a [str]: a leading byte-order mark is refused, the
    document is one value between optional whitespace, and anything left
    over is [Extra data].  A text that is not JSON raises
    [JSONDecodeError]; containers nested deeper than the interpreter
    allows raise [RecursionError], and an integer literal with more digits
    than it allows raises [ValueError], each at the place where the scan
    meets it. *)
Definition json_loads (rt : runtime) (s : str) : result jvalue :=
  if startswith [65279%N] s then Raise JSONDecodeError
  else
    match decode rt s with
    | POk v r =>
        match skip_ws r with
        | [] => Ok v
        | _ => Raise JSONDecodeError
        end
    | PErr e => Raise e
    | PFuel => Raise RecursionError
    end.

(** [isinstance(v, list)] and [isinstance(v, dict)] *)
Definition is_list (v : jvalue) : bool :=
  match v with JArr _ => true | _ => false end.
Definition is_dict (v : jvalue) : bool :=
  match v with JObj _ => true | _ => false end.

End Json.

Import Json.

(** ** The LLM collaborator

    [PromptTemplate.format] fills a fixed template; the prompt is kept as
    the name of its template with the values bound to its variables.  The
    model behind [self.llm.invoke] is a black box from prompts to response
    texts that may raise. *)

Record prompt : Type := mk_prompt {
  template : string;
  variables : list (string * jvalue)
}.

Definition llm_client := prompt -> result str.

(** The texts Python gives to exceptions, which the analysis and
    optimization operations put into their error records: [str(e)] for an
    exception of the code above, for the [JSONDecodeError] that [json.loads]
    raises on a text, and for the [TypeError] that a value provokes. *)
Record messages : Type := mk_messages {
  exn_text : exn -> str;
  decode_text : str -> str;
  type_text : jvalue -> str
}.

Definition k_error : str := lit "error".
Definition k_raw_response : str := lit "raw_response".
Definition k_analysis : str := lit "analysis".

(** The record [{"error": ..., "raw_response": ...}]. *)
Definition error_record (error raw_response : str) : dict :=
  [(k_error, JStr error); (k_raw_response, JStr raw_response)].

(** ** Code shared by the two agents *)

(** The fence marker the responses are tested for. *)
Definition fence : str := lit "```json".

(** The extraction step each operation performs on [response.content],
    for the delimiter pair [op], [cl] of the expected payload: brackets in
    [generate_titles], braces in [generate_content]. *)
Definition extract_payload (op cl : char) (raw_llm_response_content : str)
  : str :=
  let content_str := strip raw_llm_response_content in
  if startswith fence content_str then
    let content_str := slice (Some 7%Z) None content_str in
    let content_str :=
      if endswith (lit "```") content_str
      then slice None (Some (-3)%Z) content_str
      else content_str in
    strip content_str
  else if negb (startswith [op] content_str && endswith [cl] content_str) then
    let start_idx := find [op] content_str in
    let end_idx := (rfind [cl] content_str + 1)%Z in
    if negb (start_idx =? -1)%Z && negb (end_idx =? -1)%Z
    then slice (Some start_idx) (Some end_idx) content_str
    else content_str
  else content_str.

(** [_clean_json_string], the same in both agents. *)
Definition _clean_json_string (json_str : str) : str :=
  let json_str :=
    replace (lit ",}") (lit "}") (replace (lit ",]") (lit "]") json_str) in
  Re.sub_keys json_str.

(** [int(s)] in base ten on a [str].

    [_PyUnicode_TransformDecimalAndSpaceToASCII] first rewrites the text:
    an ASCII character is kept, any other whitespace becomes a space, any
    other decimal digit becomes the ASCII digit of its value, and at the
    first character that is neither the text ends with a question mark. *)
Fixpoint to_ascii_decimal (rt : runtime) (s : str) : str :=
  match s with
  | [] => []
  | c :: s' =>
      if (c <? 127)%N then c :: to_ascii_decimal rt s'
      else if isspace c then 32%N :: to_ascii_decimal rt s'
      else match decimal_of (decimal_zeros rt) c with
           | Some d => (48 + d)%N :: to_ascii_decimal rt s'
           | None => [63%N]
           end
  end.

(** [Py_ISSPACE], the whitespace [PyLong_FromString] passes over at both
    ends: tab to carriage return, and space. *)
Definition is_c_space (c : char) : bool :=
  ((9 <=? c) && (c <=? 13) || (c =? 32))%N.

Fixpoint c_lstrip (s : str) : str :=
  match s with
  | c :: s' => if is_c_space c then c_lstrip s' else s
  | [] => []
  end.

Definition c_strip (s : str) : str := rev (c_lstrip (rev (c_lstrip s))).

(** The digits of the literal, which single underscores may separate: the
    value and the number of digits. *)
Fixpoint int_digits (after_digit : bool) (acc : Z) (n : nat) (s : str)
  : option (Z * nat) :=
  match s with
  | [] => if after_digit then Some (acc, n) else None
  | c :: s' =>
      if is_digit c then int_digits true (acc * 10 + digit_val c)%Z (S n) s'
      else if (c =? 95)%N && after_digit then int_digits false acc n s'
      else None
  end.

(** [PyLong_FromString]: whitespace, an optional sign, the digits,
    whitespace; a literal with too many digits and everything else is a
    [ValueError]. *)
Definition py_int (rt : runtime) (s : str) : result Z :=
  let t := c_strip (to_ascii_decimal rt s) in
  let (neg, ds) :=
    match eat 45%N t, eat 43%N t with
    | Some r, _ => (true, r)
    | None, Some r => (false, r)
    | None, None => (false, t)
    end in
  match int_digits false 0%Z 0 ds with
  | Some (n, digits) =>
      if too_many_digits rt digits then Raise ValueError
      else Ok (if neg then (- n)%Z else n)
  | None => Raise ValueError
  end.

(** A dict is truthy when it is not empty. *)
Definition dict_truthy (d : dict) : bool :=
  match d with [] => false | _ => true end.

(** ** [TitleAgent] *)

Module TitleAgent.

Definition title_prompt (topic target_audience content_format tone : str)
  : prompt :=
  mk_prompt "title_prompt_template"
    [("topic", JStr topic); ("target_audience", JStr target_audience);
     ("content_format", JStr content_format); ("tone", JStr tone)]%string.

Definition k_title : str := lit "title".
Definition k_seo_score : str := lit "seo_score".
Definition k_reasoning : str := lit "reasoning".

(** The markers of the line scan: a key between double quotes and a
    colon. *)
Definition marker (key : str) : str := dq :: key ++ [dq; 58%N].

Definition complete (d : dict) : bool :=
  dict_has k_title d && dict_has k_seo_score d && dict_has k_reasoning d.

(** The state of the first loop: [titles] and [current_title_data]. *)
Definition scan_state : Type := (list dict * dict)%type.

(** One iteration of the first loop of [_parse_fallback_titles]. *)
Definition scan_line (rt : runtime) (st : scan_state) (line : str)
  : result scan_state :=
  let (titles, current_title_data) := st in
  let line_strip := strip line in
  if contains (marker k_title) line_strip then
    let titles :=
      if dict_truthy current_title_data && complete current_title_data
      then titles ++ [current_title_data]
      else titles in
    let current_title_data : dict := [] in
    match (after <- index (split (marker k_title) line_strip) 1 ;;
           head <- index (split (lit ",") after) 0 ;;
           Ok (strip (replace [dq] [] head))) with
    | Ok t => Ok (titles, dict_set k_title (JStr t) current_title_data)
    | Raise IndexError => Ok (titles, current_title_data)
    | Raise e => Raise e
    end
  else if contains (marker k_seo_score) line_strip
          && dict_truthy current_title_data then
    match (after <- index (split (marker k_seo_score) line_strip) 1 ;;
           head <- index (split (lit ",") after) 0 ;;
           py_int rt (strip head)) with
    | Ok n => Ok (titles, dict_set k_seo_score (JInt n) current_title_data)
    | Raise IndexError | Raise ValueError =>
        Ok (titles, dict_set k_seo_score (JInt 7) current_title_data)
    | Raise e => Raise e
    end
  else if contains (marker k_reasoning) line_strip
          && dict_truthy current_title_data then
    match (after <- index (split (marker k_reasoning) line_strip) 1 ;;
           Ok (strip (replace (lit "}") [] (replace [dq] [] after)))) with
    | Ok r => Ok (titles, dict_set k_reasoning (JStr r) current_title_data)
    | Raise IndexError => Ok (titles, current_title_data)
    | Raise e => Raise e
    end
  else Ok (titles, current_title_data).

Fixpoint scan_lines (rt : runtime) (st : scan_state) (lines : list str)
  : result scan_state :=
  match lines with
  | [] => Ok st
  | line :: rest => st' <- scan_line rt st line ;; scan_lines rt st' rest
  end.

(** One iteration of the second, simpler loop. *)
Definition simple_line (titles : list dict) (line : str) : list dict :=
  if startswith (lit "Title:") (strip line)
     || startswith (marker k_title) (strip line) then
    let title_text :=
      replace (lit ",") []
        (replace [dq] [] (strip (last (split_max (lit ":") 1 line) []))) in
    if (10 <? length title_text) && (length title_text <? 100) then
      titles ++
      [[(k_title, JStr title_text); (k_seo_score, JInt 7);
        (k_reasoning, JStr (lit "Fallback parsed title with good potential"))]]
    else titles
  else titles.

Definition _parse_fallback_titles (rt : runtime) (content : str)
  : result (list dict) :=
  st <- scan_lines rt ([], []) (split [nl] content) ;;
  let (titles, current_title_data) := st in
  let titles :=
    if dict_truthy current_title_data && complete current_title_data
    then titles ++ [current_title_data]
    else titles in
  let titles :=
    match titles with
    | [] => fold_left simple_line (splitlines content) titles
    | _ => titles
    end in
  Ok (firstn 5 titles).

Definition _get_default_titles (topic : str) : list dict :=
  [ [(k_title, JStr (lit "The Ultimate Guide to " ++ topic));
     (k_seo_score, JInt 8);
     (k_reasoning,
      JStr (lit "Ultimate guides perform well in search results (default fallback)"))];
    [(k_title, JStr (lit "5 Proven Strategies for " ++ topic ++ lit " Success"));
     (k_seo_score, JInt 7);
     (k_reasoning,
      JStr (lit "Number-based titles attract clicks (default fallback)"))] ].

(** A list of dicts as the Python list it is. *)
Definition as_list (ds : list dict) : jvalue := JArr (map JObj ds).

Definition generate_titles (rt : runtime) (llm : llm_client)
  (topic target_audience content_format tone : str) : result jvalue :=
  let attempt : result jvalue :=
    raw_llm_response_content <-
      llm (title_prompt topic target_audience content_format tone) ;;
    let content_str := extract_payload 91%N 93%N raw_llm_response_content in
    let cleaned_json_str := _clean_json_string content_str in
    match json_loads rt cleaned_json_str with
    | Ok parsed_output =>
        if is_list parsed_output then Ok parsed_output
        else Ok (as_list (_get_default_titles topic))
    | Raise JSONDecodeError =>
        fallback_titles <-
          _parse_fallback_titles rt raw_llm_response_content ;;
        match fallback_titles with
        | _ :: _ => Ok (as_list fallback_titles)
        | [] => Ok (as_list (_get_default_titles topic))
        end
    | Raise e => Raise e
    end in
  match attempt with
  | Ok v => Ok v
  | Raise _ => Ok (as_list (_get_default_titles topic))
  end.

Definition analysis_prompt (title_to_analyze first_word : str) : prompt :=
  mk_prompt "analysis_prompt_str"
    [("title_to_analyze", JStr title_to_analyze);
     ("first_word", JStr first_word)]%string.

(** [analyze_title_performance].  The prompt is an f-string built before
    the [try]: it takes the first word of a non-empty title, so an
    [IndexError] there reaches the caller. *)
Definition analyze_title_performance (rt : runtime) (msg : messages)
  (llm : llm_client) (title_to_analyze : str) : result jvalue :=
  first_word <-
    match title_to_analyze with
    | [] => Ok (lit "example")
    | _ => index (split_ws title_to_analyze) 0
    end ;;
  Ok (match llm (analysis_prompt title_to_analyze first_word) with
      | Raise e => JObj (error_record (exn_text msg e) [])
      | Ok raw_llm_response_content =>
          let content_str :=
            extract_payload 123%N 125%N raw_llm_response_content in
          let cleaned_json_str := _clean_json_string content_str in
          match json_loads rt cleaned_json_str with
          | Ok parsed_output => JObj [(k_analysis, parsed_output)]
          | Raise JSONDecodeError =>
              JObj (error_record
                      (lit "JSONDecodeError: "
                       ++ decode_text msg cleaned_json_str)
                      raw_llm_response_content)
          | Raise e =>
              JObj (error_record (exn_text msg e) raw_llm_response_content)
          end
      end).

End TitleAgent.

(** ** [ContentAgent] *)

Module ContentAgent.

Record template_info : Type := mk_template {
  max_length : Z;
  style : str;
  elements : str
}.

Definition content_templates : list (str * template_info) :=
  [ (lit "LinkedIn Post",
     mk_template 500 (lit "Professional, thought-provoking, industry-focused")
       (lit "Hook, insights, call-to-action, hashtags"));
    (lit "Instagram Post",
     mk_template 300 (lit "Visual, engaging, lifestyle-oriented")
       (lit "Captivating caption, emojis, hashtags, story elements"));
    (lit "Newsletter",
     mk_template 5000 (lit "Informative, valuable, personal")
       (lit "Subject line, intro, main content, conclusion, CTA"));
    (lit "Blog Post",
     mk_template 3000 (lit "SEO-optimized, comprehensive, authoritative")
       (lit "Title, introduction, headers, conclusion, meta description"));
    (lit "Twitter Thread",
     mk_template 280 (lit "Concise, engaging, thread-worthy")
       (lit "Hook tweet, supporting tweets, conclusion tweet")) ].

Fixpoint templates_get (k : str) (t : list (str * template_info))
  : option template_info :=
  match t with
  | [] => None
  | (k', v) :: t' => if str_eqb k k' then Some v else templates_get k t'
  end.

Definition blog_post : template_info :=
  mk_template 3000 (lit "SEO-optimized, comprehensive, authoritative")
    (lit "Title, introduction, headers, conclusion, meta description").

Definition content_prompt (title topic target_audience content_format tone
                           key_points_str : str) (info : template_info)
  : prompt :=
  mk_prompt "content_prompt_template"
    [("title", JStr title); ("topic", JStr topic);
     ("target_audience", JStr target_audience);
     ("content_format", JStr content_format); ("tone", JStr tone);
     ("key_points", JStr key_points_str);
     ("template_info[max_length]", JInt (max_length info));
     ("template_info[style]", JStr (style info));
     ("template_info[elements]", JStr (elements info))]%string.

Definition k_content : str := lit "content".
Definition k_hashtags : str := lit "hashtags".
Definition k_engagement_score : str := lit "engagement_score".
Definition k_platform_optimization : str := lit "platform_optimization".
Definition k_cta : str := lit "cta".
Definition k_estimated_reach : str := lit "estimated_reach".

Definition _extract_hashtags (content : str) : list str :=
  let words := split_ws content in
  let hashtags := filter (startswith (lit "#")) words in
  firstn 10 hashtags.

Definition _get_default_content (title topic content_format : str) : dict :=
  [ (k_content,
     JStr (lit "Exploring " ++ topic ++ lit ": " ++ title ++ [nl; nl]
           ++ lit "This is an engaging piece about " ++ topic
           ++ lit " that provides valuable insights for our audience. Stay tuned for more updates!"));
    (k_hashtags,
     JArr [JStr (lit "#content"); JStr (lit "#strategy");
           JStr (lit "#marketing")]);
    (k_engagement_score, JInt 6);
    (k_platform_optimization,
     JStr (lit "Basic optimization for " ++ content_format
           ++ lit " (default fallback content)."));
    (k_cta, JStr (lit "What are your thoughts on this topic?"));
    (k_estimated_reach,
     JStr (lit "Moderate reach potential (default fallback content).")) ].

(** The record returned when the response does not decode. *)
Definition parse_failure_content (raw_llm_response_content content_format : str)
  : dict :=
  [ (k_content, JStr raw_llm_response_content);
    (k_hashtags,
     JArr (map JStr (_extract_hashtags raw_llm_response_content)));
    (k_engagement_score, JInt 5);
    (k_platform_optimization,
     JStr (lit "Failed to parse structured output for " ++ content_format
           ++ lit ". Raw LLM output provided."));
    (k_cta, JStr (lit "Review content manually."));
    (k_estimated_reach, JStr (lit "Unknown (parsing error)")) ].

(** The prompt [generate_content] sends: the template of the format
    (that of a blog post for an unknown format) and the key points joined,
    or [None specified] when there are none. *)
Definition build_prompt (title topic target_audience content_format tone : str)
  (key_points : option (list str)) : prompt :=
  let info :=
    match templates_get content_format content_templates with
    | Some t => t
    | None => blog_post
    end in
  let key_points_str :=
    match key_points with
    | Some ((_ :: _) as kp) => join (lit ", ") kp
    | _ => lit "None specified"
    end in
  content_prompt title topic target_audience content_format tone
    key_points_str info.

Definition generate_content (rt : runtime) (llm : llm_client)
  (title topic target_audience content_format tone : str)
  (key_points : option (list str)) : result jvalue :=
  let attempt : result jvalue :=
    raw_llm_response_content <-
      llm (build_prompt title topic target_audience content_format tone
             key_points) ;;
    let content_str := extract_payload 123%N 125%N raw_llm_response_content in
    let cleaned_json_str := _clean_json_string content_str in
    match json_loads rt cleaned_json_str with
    | Ok parsed_output => Ok parsed_output
    | Raise JSONDecodeError =>
        Ok (JObj (parse_failure_content raw_llm_response_content
                    content_format))
    | Raise e => Raise e
    end in
  match attempt with
  | Ok v => Ok v
  | Raise _ => Ok (JObj (_get_default_content title topic content_format))
  end.

Definition k_original_length : str := lit "original_length".

Definition optimization_prompt (content platform : str) : prompt :=
  mk_prompt "optimization_prompt_str"
    [("content", JStr content); ("platform", JStr platform);
     ("len(content)", JInt (Z.of_nat (length content)))]%string.

(** [k in v] for a string [k]: a key of a dict, an element of a list (by
    [==], which only another string can satisfy), a substring of a string;
    [None] stands for the [TypeError] of the other values. *)
Definition py_in (k : str) (v : jvalue) : option bool :=
  match v with
  | JObj d => Some (dict_has k d)
  | JArr l =>
      Some (existsb (fun e => match e with
                              | JStr x => str_eqb k x
                              | _ => false
                              end) l)
  | JStr x => Some (contains k x)
  | _ => None
  end.

(** [v[k] = x] for a string [k]: only a dict supports it; [None] stands
    for the [TypeError] of the other values. *)
Definition py_setitem (k : str) (x v : jvalue) : option jvalue :=
  match v with
  | JObj d => Some (JObj (dict_set k x d))
  | _ => None
  end.

(** [optimize_for_platform] *)
Definition optimize_for_platform (rt : runtime) (msg : messages)
  (llm : llm_client) (content platform : str) : jvalue :=
  match llm (optimization_prompt content platform) with
  | Raise e => JObj (error_record (exn_text msg e) [])
  | Ok raw_llm_response_content =>
      let content_str :=
        extract_payload 123%N 125%N raw_llm_response_content in
      let cleaned_json_str := _clean_json_string content_str in
      match json_loads rt cleaned_json_str with
      | Ok parsed_output =>
          match py_in k_original_length parsed_output with
          | Some true => parsed_output
          | Some false =>
              match py_setitem k_original_length
                      (JInt (Z.of_nat (length content))) parsed_output with
              | Some parsed_output' => parsed_output'
              | None =>
                  JObj (error_record (type_text msg parsed_output)
                          raw_llm_response_content)
              end
          | None =>
              JObj (error_record (type_text msg parsed_output)
                      raw_llm_response_content)
          end
      | Raise JSONDecodeError =>
          JObj (error_record
                  (lit "JSONDecodeError: " ++ decode_text msg cleaned_json_str)
                  raw_llm_response_content)
      | Raise e =>
          JObj (error_record (exn_text msg e) raw_llm_response_content)
      end
  end.

Definition content_analysis_prompt (content_to_analyze : str) : prompt :=
  mk_prompt "analysis_prompt_str"
    [("content_to_analyze", JStr content_to_analyze)]%string.

(** [analyze_content_performance] *)
Definition analyze_content_performance (rt : runtime) (msg : messages)
  (llm : llm_client) (content_to_analyze : str) : jvalue :=
  match llm (content_analysis_prompt content_to_analyze) with
  | Raise e => JObj (error_record (exn_text msg e) [])
  | Ok raw_llm_response_content =>
      let content_str :=
        extract_payload 123%N 125%N raw_llm_response_content in
      let cleaned_json_str := _clean_json_string content_str in
      match json_loads rt cleaned_json_str with
      | Ok parsed_output => JObj [(k_analysis, parsed_output)]
      | Raise JSONDecodeError =>
          JObj (error_record
                  (lit "JSONDecodeError: " ++ decode_text msg cleaned_json_str)
                  raw_llm_response_content)
      | Raise e =>
          JObj (error_record (exn_text msg e) raw_llm_response_content)
      end
  end.

End ContentAgent.

(** ** The caller in [app.py] *)

Module App.

(** The key points of the form, as [render_content_generation] passes
    them to [generate_content]: the pieces between commas, stripped; no
    list for an empty text. *)
Definition key_points_list (key_points : str) : list str :=
  match key_points with
  | [] => []
  | _ => map strip (split (lit ",") key_points)
  end.

End App.

(** * The vocabulary of the properties *)

Import TitleAgent ContentAgent.

(** ** Extraction *)

(** The branch of [extract_payload] taken when the trimmed text does not
    start with the fence: the span from the first [op] to the last [cl]. *)
Definition select_span (op cl : char) (content_str : str) : str :=
  if negb (startswith [op] content_str && endswith [cl] content_str) then
    let start_idx := find [op] content_str in
    let end_idx := (rfind [cl] content_str + 1)%Z in
    if negb (start_idx =? -1)%Z && negb (end_idx =? -1)%Z
    then slice (Some start_idx) (Some end_idx) content_str
    else content_str
  else content_str.

(** ** Repair *)

(** Where the repair step can act: a comma right before a closing bracket
    or brace, or a match of the key pattern. *)
Definition trig (t : str) : bool :=
  startswith (lit ",]") t || startswith (lit ",}") t
  || match Re.match_key t with Some _ => true | None => false end.

(** No position inside [c] starts such a place when [c] is followed by
    [k]. *)
Definition quiet_in (c k : str) : Prop :=
  forall pre t, c = pre ++ t -> t <> [] -> trig (t ++ k) = false.

(** A measure the repair step can only raise: the double quotes of a text
    less its commas.  Removing a comma raises it by one, quoting a key by
    two. *)
Definition weight (c : char) : Z :=
  if (c =? 34)%N then 1%Z else if (c =? 44)%N then (-1)%Z else 0%Z.

Fixpoint surplus (s : str) : Z :=
  match s with
  | [] => 0%Z
  | c :: s' => (weight c + surplus s')%Z
  end.

(** Some place of [s] is one where the repair step acts. *)
Definition has_trig (s : str) : Prop :=
  exists pre t, s = pre ++ t /\ trig t = true.

(** The states of a scan that tracks string literals. *)
Inductive lex_state : Type := Outside | Inside | Escaped.

(** No place where the repair acts starts inside a string literal: no
    comma right before a closing bracket or brace, and no match of the key
    pattern.  A backslash and the character it escapes are passed over. *)
Fixpoint literals_quiet (st : lex_state) (s : str) : bool :=
  match s with
  | [] => true
  | c :: s' =>
      match st with
      | Outside => literals_quiet (if (c =? 34)%N then Inside else Outside) s'
      | Inside =>
          if (c =? 34)%N then literals_quiet Outside s'
          else if (c =? 92)%N then literals_quiet Escaped s'
          else negb (trig s) && literals_quiet Inside s'
      | Escaped => literals_quiet Inside s'
      end
  end.

(** A run of JSON whitespace. *)
Definition all_ws (w : str) : Prop := Forall (fun x => is_ws x = true) w.

(** A character that neither opens a string literal nor can start a place
    of repair. *)
Definition plain_char (x : char) : Prop :=
  x <> 34%N /\ Re.is_open_or_comma x = false.

(** The characters of a number. *)
Definition num_char (x : char) : Prop :=
  is_digit x = true \/ x = 45%N \/ x = 43%N \/ x = 46%N \/ x = 101%N
  \/ x = 69%N.

(** The head of the text of a value: a character that is neither
    whitespace, nor the start of an identifier, nor a closing delimiter; or
    the text is one word. *)
Definition val_head (c : str) : Prop :=
  (exists x t, c = x :: t /\ isspace x = false /\
               Re.is_ident_start x = false /\ x <> 93%N /\ x <> 125%N)
  \/ (c <> [] /\ Forall (fun x => Re.is_ident_char x = true) c).

(** The text of a value: its head, and no place of repair inside it
    whatever follows. *)
Definition good (c : str) : Prop := val_head c /\ forall k, quiet_in c k.

(** The text of the elements of an array with its closing bracket: a
    value, whitespace, and a comma or the bracket. *)
Definition good_elems (e : str) : Prop :=
  (exists c w d rest, e = c ++ w ++ d :: rest /\ val_head c /\ all_ws w /\
                      (d = 44%N \/ d = 93%N))
  /\ forall k, quiet_in e k.

(** The text of the members of an object with its closing brace: it
    starts with the quote of a key. *)
Definition good_members (e : str) : Prop :=
  (exists t, e = 34%N :: t) /\ forall k, quiet_in e k.

(** What each scanner guarantees on success, for a text in whose string
    literals no place of repair starts. *)
Definition value_ok (f : nat) : Prop :=
  forall rt d s v r,
    parse_value f rt d s = POk v r -> literals_quiet Outside s = true ->
    exists c, s = c ++ r /\ good c /\ literals_quiet Outside r = true.

Definition elems_ok (f : nat) : Prop :=
  forall rt d s l r,
    parse_elems f rt d s = POk l r -> literals_quiet Outside s = true ->
    exists e, s = e ++ r /\ good_elems e /\ literals_quiet Outside r = true.

Definition members_ok (f : nat) : Prop :=
  forall rt d s m r,
    parse_members f rt d s = POk m r -> literals_quiet Outside s = true ->
    exists e, s = e ++ r /\ good_members e /\ literals_quiet Outside r = true.

(** ** The fuel of the model *)

(** A scanner outcome within budget: the fuel is not used up, and there is
    progress on success. *)
Definition within_budget {A : Type} (s : str) (p : pres A) : Prop :=
  match p with
  | POk _ r => (length r < length s)%nat
  | PErr _ => True
  | PFuel => False
  end.

(** What the scanners raise: [JSONDecodeError], [RecursionError] at an
    opening brace or bracket, [ValueError] at an integer literal. *)
Definition decode_error (e : exn) : Prop :=
  e = JSONDecodeError \/ e = RecursionError \/ e = ValueError.

(** The fuel each scanner needs for a text. *)
Definition value_budget (f : nat) : Prop :=
  forall rt d s,
    (2 * length s < f)%nat -> within_budget s (parse_value f rt d s).

Definition elems_budget (f : nat) : Prop :=
  forall rt d s,
    (2 * length s + 1 < f)%nat -> within_budget s (parse_elems f rt d s).

Definition members_budget (f : nat) : Prop :=
  forall rt d s,
    (2 * length s + 1 < f)%nat -> within_budget s (parse_members f rt d s).

(** ** The fallback line scan *)

(** The text before the first occurrence of [sep] (all of [s] when there
    is none) and the text after it (nothing when there is none). *)
Fixpoint before (sep s : str) : str :=
  if startswith sep s then []
  else match s with
       | [] => []
       | c :: s' => c :: before sep s'
       end.

Fixpoint after (sep s : str) : str :=
  if startswith sep s then skipn (length sep) s
  else match s with
       | [] => []
       | _ :: s' => after sep s'
       end.

(** [s] with every double quote removed. *)
Definition unquote (s : str) : str := filter (fun c => negb (c =? 34)%N) s.

(** Records that all have the three fields. *)
Definition all_complete (titles : list dict) : Prop :=
  Forall (fun d => complete d = true) titles.

(** The title C10 describes: the text between the marker and the first
    following comma, without double quotes and stripped. *)
Definition title_up_to_comma (line : str) : str :=
  strip (unquote (before (lit ",") (after (marker k_title) (strip line)))).

(** ** Scores and hashtags *)

(** A score field that is an integer between 1 and 10. *)
Definition score_in_range (key : str) (d : dict) : bool :=
  match dict_get key d with
  | Some (JInt n) => (1 <=? n)%Z && (n <=? 10)%Z
  | _ => false
  end.

(** A list of records whose [seo_score] is in range. *)
Definition titles_in_range (v : jvalue) : bool :=
  match v with
  | JArr l =>
      forallb (fun e => match e with
                        | JObj d => score_in_range k_seo_score d
                        | _ => false
                        end) l
  | _ => false
  end.

(** A record whose [engagement_score] is in range and whose [hashtags] are
    a list of at most ten. *)
Definition content_in_range (v : jvalue) : bool :=
  match v with
  | JObj d =>
      score_in_range k_engagement_score d
      && match dict_get k_hashtags d with
         | Some (JArr h) => (length h <=? 10)%nat
         | _ => false
         end
  | _ => false
  end.

(** ** Inputs of the scenarios *)

(** The defaults of CPython 3.11: the recursion limit of 1000, here all
    left to the decoder, at most 4300 digits in a decimal literal, and the
    decimal digits of Unicode 14 outside ASCII. *)
Definition cpython : runtime :=
  mk_runtime 1000 4300
    [1632; 1776; 1984; 2406; 2534; 2662; 2790; 2918; 3046; 3174; 3302; 3430;
     3558; 3664; 3792; 3872; 4160; 4240; 6112; 6160; 6470; 6608; 6784; 6800;
     6992; 7088; 7232; 7248; 42528; 43216; 43264; 43472; 43504; 43600; 44016;
     65296; 66720; 68912; 69734; 69872; 69942; 70096; 70384; 70736; 70864;
     71248; 71360; 71472; 71904; 72016; 72784; 73040; 73120; 92768; 92864;
     93008; 120782; 120792; 120802; 120812; 120822; 123200; 123632; 125264;
     130032]%N.

(** A string literal between double quotes. *)
Definition quoted (x : string) : str := dq :: lit x ++ [dq].

(** A client that answers every prompt with [raw], and one that always
    raises. *)
Definition answers (raw : str) : llm_client := fun _ => Ok raw.
Definition fails (e : exn) : llm_client := fun _ => Raise e.

(** An interpreter near its limits: room for two nested containers, and
    the smallest limit on digits that can be set, 640. *)
Definition tight : runtime := mk_runtime 2 640 (decimal_zeros cpython).

(** The hashtags of the fixed default content record. *)
Definition three_hashtags : jvalue :=
  JArr [JStr (lit "#content"); JStr (lit "#strategy"); JStr (lit "#marketing")].

(** The text of scenario 2 and what the repair makes of it. *)
Definition scenario2 : str := lit "{title: 'X', seo_score: 7,}".

Definition scenario2_repaired : str :=
  lit "{" ++ quoted "title" ++ lit ": 'X', " ++ quoted "seo_score"
  ++ lit ": 7}".

(** A JSON array of one string that ends with a comma and a bracket. *)
Definition comma_bracket_json : str := lit "[" ++ quoted "a,]" ++ lit "]".

(** A JSON object with nested values, and with a comma and braces inside
    a string. *)
Definition sample_json : str :=
  lit " {" ++ quoted "title" ++ lit " : " ++ quoted "Hello, world {1}"
  ++ lit ", " ++ quoted "tags" ++ lit ": [1 , true, null, -2.5e3, {}]} ".

(** The text of a title object with the given score, and its value. *)
Definition title_json (score : string) : str :=
  lit "{" ++ quoted "title" ++ lit ": " ++ quoted "T" ++ lit ", "
  ++ quoted "seo_score" ++ lit ": " ++ lit score ++ lit ", "
  ++ quoted "reasoning" ++ lit ": " ++ quoted "r" ++ lit "}".

Definition title_of (score : Z) : jvalue :=
  JObj [(k_title, JStr (lit "T")); (k_seo_score, JInt score);
        (k_reasoning, JStr (lit "r"))].

(** Six title objects in one array. *)
Definition six_titles : str :=
  lit "[" ++ join (lit ", ") (repeat (title_json "5") 6) ++ lit "]".

(** A line that holds the title marker twice before its first comma. *)
Definition two_markers : str :=
  quoted "title" ++ lit ": A " ++ quoted "title" ++ lit ": B, C".

(** ** Further vocabulary *)

(** [x] occurs in [s] as a contiguous part. *)
Definition infix (x s : str) : Prop := exists pre post, s = pre ++ x ++ post.

(** A text on which the extraction step has nothing left to do: it starts
    with [op] and ends with [cl], or it holds no [op] and does not start
    with the fence marker. *)
Definition settled (op cl : char) (s : str) : Prop :=
  startswith [op] s && endswith [cl] s = true
  \/ (startswith fence s = false /\ ~ In op s).

(** The value bound to a variable of a prompt. *)
Fixpoint prompt_var (name : string) (vars : list (string * jvalue))
  : option jvalue :=
  match vars with
  | [] => None
  | (n, v) :: vars' =>
      if String.eqb name n then Some v else prompt_var name vars'
  end.

(** A text without the character [c]. *)
Definition without (c : char) (s : str) : Prop := ~ In c s.

(** A record of the title fallback with its three fields typed: a title
    without double quote or comma, an integer score, a reasoning without
    double quote. *)
Definition typed_record (d : dict) : Prop :=
  exists t n r,
    dict_get k_title d = Some (JStr t) /\ without 34%N t /\ without 44%N t
    /\ dict_get k_seo_score d = Some (JInt n)
    /\ dict_get k_reasoning d = Some (JStr r) /\ without 34%N r.

(** A record under construction: the fields it has are typed. *)
Definition typed_partial (d : dict) : Prop :=
  (forall v, dict_get k_title d = Some v ->
             exists t, v = JStr t /\ without 34%N t /\ without 44%N t)
  /\ (forall v, dict_get k_seo_score d = Some v -> exists n, v = JInt n)
  /\ (forall v, dict_get k_reasoning d = Some v ->
                exists r, v = JStr r /\ without 34%N r).

(** Error texts for the examples: every message is empty. *)
Definition no_messages : messages :=
  mk_messages (fun _ => []) (fun _ => []) (fun _ => []).

(** A response with an optimized content and no [original_length]. *)
Definition optimized_json : str :=
  lit "Done: {" ++ quoted "optimized_content" ++ lit ": " ++ quoted "hi"
  ++ lit "}".

(** Records that are all typed. *)
Definition all_typed (titles : list dict) : Prop := Forall typed_record titles.

(** A record of the second loop of the title fallback. *)
Definition simple_record (d : dict) : Prop :=
  exists t,
    d = [(k_title, JStr t); (k_seo_score, JInt 7);
         (k_reasoning, JStr (lit "Fallback parsed title with good potential"))]
    /\ (10 < length t < 100)%nat.

(** * Properties *)

#[local] Arguments N.eqb : simpl never.
#[local] Arguments N.leb : simpl never.

(** ** Facts about the string methods *)

Section StringFacts.

Lemma lstrip_app_nonspace (l m : str) (c : char) :
  isspace c = false -> lstrip (l ++ c :: m) = lstrip l ++ c :: m.
Proof.
  intros Hc. induction l as [|a l IH]; simpl.
  - now rewrite Hc.
  - destruct (isspace a); [exact IH | reflexivity].
Qed.

Lemma lstrip_fixed (s : str) : lstrip (lstrip s) = lstrip s.
Proof.
  induction s as [|a s IH]; simpl; [reflexivity|].
  destruct (isspace a) eqn:E; [exact IH | simpl; now rewrite E].
Qed.

Lemma lstrip_head (c : char) (s : str) :
  isspace c = false -> lstrip (c :: s) = c :: s.
Proof. intros H; simpl; now rewrite H. Qed.

(** What [lstrip] leaves is empty or starts with a non-space. *)
Lemma lstrip_cases (s : str) :
  lstrip s = [] \/ exists c t, lstrip s = c :: t /\ isspace c = false.
Proof.
  induction s as [|a s IH]; simpl; [now left|].
  destruct (isspace a) eqn:E; [exact IH | right; eauto].
Qed.

Lemma rstrip_head (c : char) (s : str) :
  isspace c = false -> rstrip (c :: s) = c :: rstrip s.
Proof.
  intros H. unfold rstrip. simpl.
  rewrite (lstrip_app_nonspace (rev s) [] c H).
  now rewrite rev_app_distr.
Qed.

Lemma lstrip_strip (s : str) : lstrip (strip s) = strip s.
Proof.
  unfold strip. destruct (lstrip_cases s) as [-> | (c & t & -> & Hc)].
  - reflexivity.
  - rewrite (rstrip_head c t Hc). now apply lstrip_head.
Qed.

Lemma rstrip_fixed (s : str) : rstrip (rstrip s) = rstrip s.
Proof.
  unfold rstrip. now rewrite rev_involutive, lstrip_fixed.
Qed.

(** [strip] is idempotent. *)
Lemma strip_strip (s : str) : strip (strip s) = strip s.
Proof.
  unfold strip at 1. rewrite lstrip_strip. unfold strip.
  apply rstrip_fixed.
Qed.

(** A text that starts and ends with a non-space is its own [strip]. *)
Lemma strip_delimited (a b : char) (m x : str) :
  isspace a = false -> isspace b = false ->
  a :: m = x ++ [b] -> strip (a :: m) = a :: m.
Proof.
  intros Ha Hb E. unfold strip. rewrite (lstrip_head a m Ha).
  unfold rstrip. rewrite E, rev_app_distr. simpl.
  rewrite Hb. simpl. now rewrite rev_involutive.
Qed.

Lemma startswith_one (c : char) (s : str) :
  startswith [c] s = true <-> exists t, s = c :: t.
Proof.
  destruct s as [|a t]; simpl.
  - split; [discriminate | intros (? & ?); discriminate].
  - rewrite andb_true_r, N.eqb_eq. split.
    + intros ->; eauto.
    + now intros (? & [= -> _]).
Qed.

Lemma endswith_one_app (c : char) (x : str) : endswith [c] (x ++ [c]) = true.
Proof.
  unfold endswith. rewrite rev_app_distr. simpl. now rewrite N.eqb_refl.
Qed.

(** [find] of a one-character string: absent, or the length of the part
    before its first occurrence. *)
Lemma find_from_one (c : char) (s : str) (i : Z) :
  (find_from [c] s i = -1 /\ ~ In c s)%Z \/
  exists pre post, s = pre ++ c :: post /\ ~ In c pre /\
                   find_from [c] s i = (i + Z.of_nat (length pre))%Z.
Proof.
  revert i. induction s as [|a s IH]; intros i.
  - left. simpl. tauto.
  - cbn [find_from startswith]. rewrite andb_true_r.
    destruct (N.eqb_spec c a) as [->|Hne].
    + right. exists [], s. simpl. repeat split; [tauto | lia].
    + destruct (IH (i + 1)%Z) as [[H1 H2] | (pre & post & -> & Hn & Hf)].
      * left. split; [exact H1|]. simpl. intros [?|?]; congruence.
      * right. exists (a :: pre), post. simpl. repeat split.
        -- intros [?|?]; congruence.
        -- rewrite Hf. lia.
Qed.

(** [rfind] of a one-character string: absent, or the length of the part
    before its last occurrence. *)
Lemma rfind_from_one (c : char) (s : str) (i : Z) :
  (0 <= i)%Z ->
  (rfind_from [c] s i = -1)%Z \/
  exists pre post, s = pre ++ c :: post /\
                   rfind_from [c] s i = (i + Z.of_nat (length pre))%Z.
Proof.
  revert i. induction s as [|a s IH]; intros i Hi.
  - left. reflexivity.
  - cbn [rfind_from startswith]. rewrite andb_true_r.
    destruct (IH (i + 1)%Z ltac:(lia)) as [-> | (pre & post & -> & Hf)].
    + simpl. destruct (N.eqb_spec c a) as [->|Hne].
      * right. exists [], s. simpl. split; [reflexivity | lia].
      * now left.
    + right. exists (a :: pre), post. rewrite Hf.
      destruct (Z.eqb_spec (i + 1 + Z.of_nat (length pre)) (-1)); [lia|].
      simpl. split; [reflexivity | lia].
Qed.

(** A slice between two non-negative bounds inside the text. *)
Lemma slice_nonneg (a b : nat) (s : str) :
  (a <= length s)%nat -> (b <= length s)%nat ->
  slice (Some (Z.of_nat a)) (Some (Z.of_nat b)) s = firstn (b - a) (skipn a s).
Proof.
  intros Ha Hb. unfold slice, norm_index.
  destruct (Z.ltb_spec (Z.of_nat a) 0) as [?|_]; [lia|].
  destruct (Z.ltb_spec (Z.of_nat b) 0) as [?|_]; [lia|].
  f_equal; [|f_equal]; lia.
Qed.

End StringFacts.

(** ** The extraction step *)

Section Extraction.

Variables op cl : char.

Lemma extract_payload_unfenced (raw : str) :
  startswith fence (strip raw) = false ->
  extract_payload op cl raw = select_span op cl (strip raw).
Proof. intros H. unfold extract_payload. now rewrite H. Qed.

(** The three shapes of a selected span: the text itself, nothing, or a
    text from [op] to [cl]. *)
Lemma select_span_cases (s : str) :
  select_span op cl s = s \/ select_span op cl s = [] \/
  exists m x, select_span op cl s = op :: m /\ op :: m = x ++ [cl].
Proof.
  unfold select_span.
  destruct (startswith [op] s && endswith [cl] s); simpl; [now left|].
  unfold find, rfind.
  destruct (find_from_one op s 0) as [[-> _] | (pre & post & E1 & _ & ->)];
    [now left|].
  rewrite Z.add_0_l.
  destruct (Z.eqb_spec (Z.of_nat (length pre)) (-1)) as [?|_]; [lia|].
  assert (Hlen : length s = (length pre + S (length post))%nat)
    by (rewrite E1, length_app; reflexivity).
  destruct (rfind_from_one cl s 0 ltac:(lia)) as [-> | (pre2 & post2 & E2 & ->)].
  - right; left. change (-1 + 1)%Z with (Z.of_nat 0). cbn [negb andb Z.eqb].
    rewrite slice_nonneg by lia. reflexivity.
  - assert (Hlen2 : length s = (length pre2 + S (length post2))%nat)
      by (rewrite E2, length_app; reflexivity).
    replace (0 + Z.of_nat (length pre2) + 1)%Z
      with (Z.of_nat (S (length pre2))) by lia.
    destruct (Z.eqb_spec (Z.of_nat (S (length pre2))) (-1)) as [?|_]; [lia|].
    cbn [negb andb]. rewrite slice_nonneg by lia.
    destruct (Nat.le_gt_cases (length pre) (length pre2)) as [Hle|Hgt].
    + right; right.
      exists (firstn (length pre2 - length pre) post),
             (skipn (length pre) pre2).
      assert (Ho : firstn (S (length pre2) - length pre) (skipn (length pre) s)
                   = op :: firstn (length pre2 - length pre) post).
      { rewrite E1 at 1. rewrite skipn_app, skipn_all, Nat.sub_diag.
        replace (S (length pre2) - length pre)%nat
          with (S (length pre2 - length pre)) by lia.
        reflexivity. }
      split; [exact Ho|]. rewrite <- Ho.
      rewrite E2 at 1. rewrite skipn_app.
      replace (length pre - length pre2)%nat with 0%nat by lia.
      simpl skipn at 2. rewrite firstn_app, length_skipn.
      replace (S (length pre2) - length pre - (length pre2 - length pre))%nat
        with 1%nat by lia.
      rewrite firstn_all2 by (rewrite length_skipn; lia).
      reflexivity.
    + right; left.
      replace (S (length pre2) - length pre)%nat with 0%nat by lia.
      reflexivity.
Qed.

(** With an opening delimiter and no closing one, the selected span is
    empty. *)
Lemma select_span_unclosed (s : str) :
  In op s -> ~ In cl s -> select_span op cl s = [].
Proof.
  intros Hop Hcl. unfold select_span.
  replace (endswith [cl] s) with false.
  - rewrite andb_false_r. cbn [negb]. unfold find, rfind.
    destruct (find_from_one op s 0) as [[_ H] | (pre & post & E & _ & ->)];
      [contradiction|].
    destruct (rfind_from_one cl s 0 ltac:(lia))
      as [-> | (pre2 & post2 & E2 & _)].
    + rewrite Z.add_0_l.
      destruct (Z.eqb_spec (Z.of_nat (length pre)) (-1)) as [?|_]; [lia|].
      change (-1 + 1)%Z with (Z.of_nat 0). cbn [negb andb Z.eqb].
      rewrite slice_nonneg; [reflexivity | | lia].
      rewrite E, length_app. lia.
    + exfalso. apply Hcl. rewrite E2. apply in_or_app. right. now left.
  - symmetry. apply not_true_is_false. intros H. apply Hcl.
    unfold endswith in H. apply startswith_one in H as [t Ht].
    apply in_rev. rewrite Ht. now left.
Qed.

Lemma extract_payload_unclosed (raw : str) :
  startswith fence (strip raw) = false ->
  In op (strip raw) -> ~ In cl (strip raw) ->
  extract_payload op cl raw = [].
Proof.
  intros Hf Hop Hcl. rewrite extract_payload_unfenced by exact Hf.
  now apply select_span_unclosed.
Qed.

Hypothesis op_not_space : isspace op = false.
Hypothesis cl_not_space : isspace cl = false.
Hypothesis op_not_backtick : op <> 96%N.

Lemma extract_payload_nil : extract_payload op cl [] = [].
Proof.
  unfold extract_payload. simpl. reflexivity.
Qed.

Lemma extract_payload_delimited (m x : str) :
  op :: m = x ++ [cl] -> extract_payload op cl (op :: m) = op :: m.
Proof.
  intros E. unfold extract_payload.
  rewrite (strip_delimited op cl m x op_not_space cl_not_space E).
  replace (startswith fence (op :: m)) with false.
  - replace (startswith [op] (op :: m)) with true
      by (simpl; now rewrite N.eqb_refl).
    rewrite E at 1. now rewrite endswith_one_app.
  - change (startswith fence (op :: m))
      with ((96 =? op)%N && startswith (lit "``json") m).
    destruct (N.eqb_spec 96 op); [congruence | reflexivity].
Qed.

(** Without a fence, the extraction step reproduces its own output. *)
Lemma extract_payload_unfenced_idem (raw : str) :
  startswith fence (strip raw) = false ->
  extract_payload op cl (extract_payload op cl raw) = extract_payload op cl raw.
Proof.
  intros Hf. rewrite (extract_payload_unfenced raw Hf).
  destruct (select_span_cases (strip raw)) as [E | [E | (m & x & E & Ex)]];
    rewrite E.
  - rewrite extract_payload_unfenced by (now rewrite strip_strip).
    now rewrite strip_strip.
  - apply extract_payload_nil.
  - now apply extract_payload_delimited with x.
Qed.

End Extraction.

(** ** The repair step *)

Ltac char_lia :=
  unfold Re.is_ident_char, Re.is_ident_start, is_digit,
    Re.is_open_or_comma, isspace, is_ws, hex_val, unescape in *;
  repeat match goal with
    | H : context [if ?b then _ else _] |- _ =>
        let E := fresh "E" in destruct b eqn:E
    | H : Some _ = Some _ |- _ => injection H as H
    | H : None = Some _ |- _ => discriminate H
    | H : Some _ = None |- _ => discriminate H
    | |- ?b = false => apply not_true_is_false; intro
    end;
  repeat rewrite ?orb_true_iff, ?andb_true_iff, ?orb_false_iff,
    ?andb_false_iff, ?negb_true_iff, ?negb_false_iff,
    ?N.leb_le, ?N.leb_gt, ?N.eqb_eq, ?N.eqb_neq in *;
  lia.

Section RepairFacts.

Lemma trig_head (x : char) (t : str) :
  Re.is_open_or_comma x = false -> trig (x :: t) = false.
Proof.
  intros H. unfold trig, Re.match_key. rewrite H.
  change (startswith (lit ",]") (x :: t))
    with ((44 =? x)%N && startswith (lit "]") t).
  change (startswith (lit ",}") (x :: t))
    with ((44 =? x)%N && startswith (lit "}") t).
  replace (44 =? x)%N with false; [reflexivity|].
  symmetry. char_lia.
Qed.

Lemma quiet_in_nil (k : str) : quiet_in [] k.
Proof.
  intros pre t E Ht. symmetry in E. apply app_eq_nil in E. tauto.
Qed.

Lemma quiet_in_app (a b k : str) :
  quiet_in a (b ++ k) -> quiet_in b k -> quiet_in (a ++ b) k.
Proof.
  intros Ha Hb pre t E Ht.
  apply app_eq_app in E as [l [[E1 E2] | [E1 E2]]]; subst.
  - destruct l as [|x l].
    + simpl. apply (Hb [] b eq_refl Ht).
    + rewrite <- app_assoc. apply (Ha pre (x :: l) eq_refl). discriminate.
  - apply (Hb l t eq_refl Ht).
Qed.

Lemma quiet_in_cons (x : char) (c k : str) :
  trig (x :: c ++ k) = false -> quiet_in c k -> quiet_in (x :: c) k.
Proof.
  intros Hx Hc pre t E Ht. destruct pre as [|y pre]; simpl in E.
  - subst t. exact Hx.
  - injection E as _ E. apply (Hc pre t E Ht).
Qed.

Lemma quiet_in_plain (c k : str) :
  Forall (fun x => Re.is_open_or_comma x = false) c -> quiet_in c k.
Proof.
  intros H pre t E Ht. destruct t as [|x t]; [congruence|].
  subst c. apply Forall_app in H as [_ H]. inversion H; subst.
  now apply trig_head.
Qed.

Lemma replace_aux_quiet (old new s : str) :
  (forall pre t, s = pre ++ t -> startswith old t = false) ->
  replace_aux old new 0 s = s.
Proof.
  induction s as [|c s IH]; intros H; [reflexivity|].
  cbn [replace_aux]. rewrite (H [] (c :: s) eq_refl). f_equal.
  apply IH. intros pre t E. apply (H (c :: pre) t). now rewrite E.
Qed.

Lemma sub_keys_aux_quiet (s : str) :
  (forall pre t, s = pre ++ t -> Re.match_key t = None) ->
  Re.sub_keys_aux 0 s = s.
Proof.
  induction s as [|c s IH]; intros H; [reflexivity|].
  cbn [Re.sub_keys_aux]. rewrite (H [] (c :: s) eq_refl). f_equal.
  apply IH. intros pre t E. apply (H (c :: pre) t). now rewrite E.
Qed.

Lemma trig_false (t : str) :
  trig t = false ->
  startswith (lit ",]") t = false /\ startswith (lit ",}") t = false /\
  Re.match_key t = None.
Proof.
  unfold trig. intros H.
  apply orb_false_elim in H as [H H3]. apply orb_false_elim in H as [H1 H2].
  repeat split; try assumption.
  destruct (Re.match_key t); [discriminate | reflexivity].
Qed.

(** A text without such a place is left as it is. *)
Lemma clean_quiet (s : str) : quiet_in s [] -> _clean_json_string s = s.
Proof.
  intros H.
  assert (H' : forall pre t, s = pre ++ t -> trig t = false).
  { intros pre t E. destruct t as [|x t]; [reflexivity|].
    rewrite <- (app_nil_r (x :: t)). apply (H pre); [exact E | discriminate]. }
  unfold _clean_json_string, replace, Re.sub_keys.
  rewrite (replace_aux_quiet (lit ",]") (lit "]") s)
    by (intros pre t E; now apply trig_false, (H' pre)).
  rewrite (replace_aux_quiet (lit ",}") (lit "}") s)
    by (intros pre t E; now apply trig_false, (H' pre)).
  apply sub_keys_aux_quiet. intros pre t E. now apply trig_false, (H' pre).
Qed.

End RepairFacts.

Section ScannerFacts.

Lemma eat_Some (c : char) (s r : str) : eat c s = Some r -> s = c :: r.
Proof.
  destruct s as [|x s]; simpl; [discriminate|].
  destruct (N.eqb_spec x c); [now intros [= ->]; subst | discriminate].
Qed.

Lemma eat_None_cons (c x : char) (s : str) :
  eat c (x :: s) = None -> x <> c.
Proof. simpl. destruct (N.eqb_spec x c); [discriminate | trivial]. Qed.

Lemma startswith_split (p s : str) :
  startswith p s = true -> s = p ++ skipn (length p) s.
Proof.
  revert s. induction p as [|a p IH]; intros s H; [reflexivity|].
  destruct s as [|b s]; [discriminate|]. simpl in H.
  apply andb_true_iff in H as [H1 H2]. apply N.eqb_eq in H1. subst b.
  simpl. f_equal. now apply IH.
Qed.

Lemma startswith_length (p s : str) :
  startswith p s = true -> (length p <= length s)%nat.
Proof.
  intros H. apply startswith_split in H.
  rewrite H at 1. rewrite length_app. lia.
Qed.

Lemma span_split (p : char -> bool) (s a b : str) :
  span p s = (a, b) -> s = a ++ b /\ Forall (fun x => p x = true) a.
Proof.
  revert a b. induction s as [|c s IH]; intros a b H; simpl in H.
  - injection H as <- <-. now split.
  - destruct (p c) eqn:Hc.
    + destruct (span p s) as [a' b'] eqn:E. injection H as <- <-.
      destruct (IH a' b' eq_refl) as [-> HF]. split; [reflexivity|].
      now constructor.
    + injection H as <- <-. now split.
Qed.

(** A greedy run stops where the class stops. *)
Lemma span_app_stop (p : char -> bool) (a b : str) :
  Forall (fun x => p x = true) a ->
  match b with [] => True | x :: _ => p x = false end ->
  span p (a ++ b) = (a, b).
Proof.
  intros Ha Hb. induction Ha as [|x a Hx _ IH]; simpl.
  - destruct b as [|x b]; simpl; [reflexivity | now rewrite Hb].
  - now rewrite Hx, IH.
Qed.

Lemma skip_ws_split (s : str) : exists w, s = w ++ skip_ws s /\ all_ws w.
Proof.
  induction s as [|c s (w & E & Hw)]; simpl.
  - exists []. split; [reflexivity | constructor].
  - destruct (is_ws c) eqn:Hc.
    + exists (c :: w). split; [simpl; now f_equal | now constructor].
    + exists []. split; [reflexivity | constructor].
Qed.

Lemma all_ws_space (w : str) :
  all_ws w -> Forall (fun x => isspace x = true) w.
Proof.
  apply Forall_impl. intros x H.
  apply not_false_is_true. intros F. revert H F. clear. intros. char_lia.
Qed.

Lemma all_ws_plain (w : str) :
  all_ws w -> Forall (fun x => Re.is_open_or_comma x = false) w.
Proof. apply Forall_impl. intros x H. char_lia. Qed.

Lemma all_ws_unquoted (w : str) :
  all_ws w -> Forall (fun x => x <> 34%N) w.
Proof. apply Forall_impl. intros x H. char_lia. Qed.

Lemma quiet_in_ws (w k : str) : all_ws w -> quiet_in w k.
Proof. intros H. now apply quiet_in_plain, all_ws_plain. Qed.

Lemma literals_quiet_unquoted (c r : str) :
  Forall (fun x => x <> 34%N) c ->
  literals_quiet Outside (c ++ r) = literals_quiet Outside r.
Proof.
  induction 1 as [|x c Hx _ IH]; [reflexivity|].
  simpl. destruct (N.eqb_spec x 34); [contradiction | exact IH].
Qed.

Lemma literals_quiet_skip_ws (s : str) :
  literals_quiet Outside s = true -> literals_quiet Outside (skip_ws s) = true.
Proof.
  destruct (skip_ws_split s) as (w & E & Hw). rewrite E at 1.
  now rewrite literals_quiet_unquoted by now apply all_ws_unquoted.
Qed.

(** The key pattern fails where the text after the delimiter and the
    whitespace starts with neither whitespace nor an identifier. *)
Lemma match_key_blocked (d x : char) (w r : str) :
  Forall (fun c => isspace c = true) w ->
  isspace x = false -> Re.is_ident_start x = false ->
  Re.match_key (d :: w ++ x :: r) = None.
Proof.
  intros Hw Hx Hi. unfold Re.match_key.
  destruct (Re.is_open_or_comma d); [|reflexivity].
  rewrite span_app_stop by assumption. now rewrite Hi.
Qed.

(** The key pattern fails on a word that is not followed by a colon. *)
Lemma match_key_word (d e : char) (w c w1 r : str) :
  Forall (fun x => isspace x = true) w ->
  c <> [] -> Forall (fun x => Re.is_ident_char x = true) c ->
  Forall (fun x => isspace x = true) w1 ->
  isspace e = false -> Re.is_ident_char e = false -> e <> 58%N ->
  Re.match_key (d :: w ++ c ++ w1 ++ e :: r) = None.
Proof.
  intros Hw Hne Hc Hw1 He Hei He58. unfold Re.match_key.
  destruct (Re.is_open_or_comma d); [|reflexivity].
  destruct c as [|x c]; [congruence|]. inversion Hc as [|? ? Hx Hc']; subst.
  rewrite span_app_stop; [|assumption | simpl; clear - Hx; char_lia].
  cbn [app]. destruct (Re.is_ident_start x); [|reflexivity].
  rewrite span_app_stop; [|assumption|].
  - rewrite span_app_stop by assumption.
    simpl. destruct (N.eqb_spec e 58); [contradiction | reflexivity].
  - destruct Hw1 as [|y w1 Hy _]; simpl; [assumption|].
    clear - Hy. char_lia.
Qed.

End ScannerFacts.

(** ** What a successful parse says about the text *)

Section ParsedText.

Lemma plain_unquoted (c : str) :
  Forall plain_char c -> Forall (fun x => x <> 34%N) c.
Proof. apply Forall_impl. now intros x [H _]. Qed.

Lemma plain_quiet (c k : str) : Forall plain_char c -> quiet_in c k.
Proof.
  intros H. apply quiet_in_plain. revert H. apply Forall_impl.
  now intros x [_ H].
Qed.

Lemma trig_blocked (d x : char) (w r : str) :
  all_ws w -> isspace x = false -> Re.is_ident_start x = false ->
  (d = 44%N -> x <> 93%N /\ x <> 125%N) ->
  trig (d :: w ++ x :: r) = false.
Proof.
  intros Hw Hx Hi Hd. unfold trig.
  rewrite match_key_blocked by (try apply all_ws_space; assumption).
  change (startswith (lit ",]") (d :: w ++ x :: r))
    with ((44 =? d)%N && startswith (lit "]") (w ++ x :: r)).
  change (startswith (lit ",}") (d :: w ++ x :: r))
    with ((44 =? d)%N && startswith (lit "}") (w ++ x :: r)).
  destruct (N.eqb_spec 44 d) as [<-|_]; [|reflexivity].
  destruct (Hd eq_refl) as [H1 H2].
  destruct Hw as [|y w Hy _]; simpl.
  - destruct (N.eqb_spec 93 x); [congruence|].
    destruct (N.eqb_spec 125 x); [congruence | reflexivity].
  - replace (93 =? y)%N with false by (symmetry; clear - Hy; char_lia).
    replace (125 =? y)%N with false by (symmetry; clear - Hy; char_lia).
    reflexivity.
Qed.

(** A delimiter before a value is not a place the repair acts on. *)
Lemma trig_delim_value (d e : char) (w c w1 r : str) :
  all_ws w -> val_head c -> all_ws w1 ->
  e = 44%N \/ e = 93%N \/ e = 125%N ->
  trig (d :: w ++ c ++ w1 ++ e :: r) = false.
Proof.
  intros Hw [(x & t & -> & Hx & Hi & H1 & H2) | [Hne Hc]] Hw1 He.
  - cbn [app]. apply trig_blocked; auto.
  - unfold trig. rewrite match_key_word;
      try (apply all_ws_space; assumption); try assumption;
      try (clear - He; char_lia).
    change (startswith (lit ",]") (d :: w ++ c ++ w1 ++ e :: r))
      with ((44 =? d)%N && startswith (lit "]") (w ++ c ++ w1 ++ e :: r)).
    change (startswith (lit ",}") (d :: w ++ c ++ w1 ++ e :: r))
      with ((44 =? d)%N && startswith (lit "}") (w ++ c ++ w1 ++ e :: r)).
    destruct (44 =? d)%N; [|reflexivity].
    destruct Hw as [|y w Hy _]; simpl.
    + destruct c as [|x c]; [congruence|]. inversion Hc; subst. simpl.
      replace (93 =? x)%N with false by (symmetry; char_lia).
      replace (125 =? x)%N with false by (symmetry; char_lia).
      reflexivity.
    + replace (93 =? y)%N with false by (symmetry; clear - Hy; char_lia).
      replace (125 =? y)%N with false by (symmetry; clear - Hy; char_lia).
      reflexivity.
Qed.

Lemma literals_quiet_inside_plain (x : char) (s : str) :
  x <> 34%N -> x <> 92%N -> Re.is_open_or_comma x = false ->
  literals_quiet Inside (x :: s) = literals_quiet Inside s.
Proof.
  intros H1 H2 H3. cbn [literals_quiet].
  destruct (N.eqb_spec x 34); [contradiction|].
  destruct (N.eqb_spec x 92); [contradiction|].
  now rewrite (trig_head x s H3).
Qed.

(** A greedy run in front of a character outside the class stops at that
    character at the latest. *)
Lemma span_upto (p : char -> bool) (q : char) (t r : str) :
  p q = false ->
  span p (t ++ q :: r) = (fst (span p t), snd (span p t) ++ q :: r).
Proof.
  intros Hq. induction t as [|x t IH]; cbn [app span].
  - now rewrite Hq.
  - destruct (p x); [|reflexivity].
    rewrite IH. now destruct (span p t).
Qed.

(** Whether the repair acts at a place before a double quote does not
    depend on what follows the quote: no place of repair holds a quote. *)
Lemma trig_upto_quote (t r1 r2 : str) :
  trig (t ++ 34%N :: r1) = trig (t ++ 34%N :: r2).
Proof.
  destruct t as [|x t]; [reflexivity|]. unfold trig. f_equal; [f_equal|].
  - destruct t as [|y t]; reflexivity.
  - destruct t as [|y t]; reflexivity.
  - cbn [app]. unfold Re.match_key.
    destruct (Re.is_open_or_comma x); [|reflexivity].
    rewrite !(span_upto isspace 34%N) by reflexivity.
    destruct (span isspace t) as [ws1 s2]. cbn [fst snd].
    destruct s2 as [|c s3]; [reflexivity|]. cbn [app].
    destruct (Re.is_ident_start c); [|reflexivity].
    rewrite !(span_upto Re.is_ident_char 34%N) by reflexivity.
    destruct (span Re.is_ident_char s3) as [id s4]. cbn [fst snd].
    rewrite !(span_upto isspace 34%N) by reflexivity.
    destruct (span isspace s4) as [ws2 s5]. cbn [fst snd].
    destruct s5 as [|y s5]; [reflexivity|]. cbn [app eat].
    now destruct (y =? 58)%N.
Qed.

(** The body of a string literal in which no place of repair starts,
    whatever follows the literal. *)
Lemma quiet_body (body r k : str) :
  quiet_in body (34%N :: r) -> quiet_in body (34%N :: k).
Proof.
  intros H pre t E Ht. rewrite (trig_upto_quote t k r). now apply (H pre).
Qed.

Lemma hex_val_plain (x : char) (v : N) :
  hex_val x = Some v ->
  x <> 34%N /\ x <> 92%N /\ Re.is_open_or_comma x = false.
Proof. intros H. repeat split; char_lia. Qed.

Lemma hex4_text (s r : str) (u : N) :
  hex4 s = Some (u, r) ->
  exists h, s = h ++ r /\
            Forall (fun x => Re.is_open_or_comma x = false) h /\
            literals_quiet Inside s = literals_quiet Inside r.
Proof.
  unfold hex4. destruct s as [|a [|b [|c [|d s]]]]; try discriminate.
  destruct (hex_val a) eqn:Ea; [|discriminate].
  destruct (hex_val b) eqn:Eb; [|discriminate].
  destruct (hex_val c) eqn:Ec; [|discriminate].
  destruct (hex_val d) eqn:Ed; [|discriminate].
  intros [= _ <-].
  apply hex_val_plain in Ea as (? & ? & ?), Eb as (? & ? & ?),
      Ec as (? & ? & ?), Ed as (? & ? & ?).
  exists [a; b; c; d]. split; [reflexivity|]. split.
  - repeat constructor; assumption.
  - now rewrite !literals_quiet_inside_plain.
Qed.

Lemma eat_escape_u_Some (s r : str) :
  eat_escape_u s = Some r -> s = 92%N :: 117%N :: r.
Proof.
  unfold eat_escape_u. destruct (eat 92%N s) eqn:E; [|discriminate].
  intros H. apply eat_Some in E, H. now subst.
Qed.

(** A string literal the parser accepts, in a text in whose literals no
    place of repair starts. *)
Lemma scanstring_text (f : nat) :
  forall acc s x r,
    scanstring f acc s = POk x r -> literals_quiet Inside s = true ->
    exists body, s = body ++ 34%N :: r /\
                 quiet_in body (34%N :: r) /\
                 literals_quiet Outside r = true.
Proof.
  induction f as [|f IH]; intros acc s x r H Q; [discriminate|].
  destruct s as [|c s']; [discriminate|]. cbn [scanstring] in H.
  destruct (N.eqb_spec c 34) as [->|Hq].
  { injection H as _ <-. exists [].
    repeat split; [apply quiet_in_nil | exact Q]. }
  destruct (N.eqb_spec c 92) as [->|Hb].
  - destruct s' as [|e s'']; [discriminate|].
    change (literals_quiet Inside (92%N :: e :: s''))
      with (literals_quiet Inside s'') in Q.
    destruct (N.eqb_spec e 117) as [->|Hu].
    + destruct (hex4 s'') as [[u s3]|] eqn:Eh; [|discriminate].
      apply hex4_text in Eh as (h & -> & Hh & Qh). rewrite Qh in Q.
      assert (Step : forall a b,
                 scanstring f a s3 = POk b r ->
                 exists body, 92%N :: 117%N :: h ++ s3 = body ++ 34%N :: r /\
                   quiet_in body (34%N :: r) /\
                   literals_quiet Outside r = true).
      { intros a b Hs. destruct (IH _ _ _ _ Hs Q) as (body & -> & Hb' & Qr).
        exists ((92%N :: 117%N :: h) ++ body). split; [|split].
        - cbn [app]. now rewrite <- app_assoc.
        - apply quiet_in_app; [|exact Hb'].
          apply quiet_in_plain. now repeat constructor.
        - exact Qr. }
      destruct (is_high_surrogate u); [|now apply Step in H].
      destruct (eat_escape_u s3) as [s4|] eqn:Ee; [|now apply Step in H].
      destruct (hex4 s4) as [[u2 s5]|] eqn:Eh2; [|discriminate].
      destruct (is_low_surrogate u2); [|now apply Step in H].
      apply eat_escape_u_Some in Ee. subst s3.
      apply hex4_text in Eh2 as (h2 & -> & Hh2 & Qh2).
      change (literals_quiet Inside (92%N :: 117%N :: h2 ++ s5))
        with (literals_quiet Inside (h2 ++ s5)) in Q.
      rewrite Qh2 in Q.
      destruct (IH _ _ _ _ H Q) as (body & -> & Hb' & Qr).
      exists ((92%N :: 117%N :: h ++ 92%N :: 117%N :: h2) ++ body).
      split; [|split].
      * repeat (progress (cbn [app]; rewrite <- ?app_assoc)). reflexivity.
      * apply quiet_in_app; [|exact Hb'].
        apply quiet_in_plain. repeat constructor.
        apply Forall_app. split; [exact Hh|]. now repeat constructor.
      * exact Qr.
    + destruct (unescape e) as [y|] eqn:Eu; [|discriminate].
      destruct (IH _ _ _ _ H Q) as (body & -> & Hb' & Qr).
      exists ([92%N; e] ++ body). split; [reflexivity|]. split; [|exact Qr].
      apply quiet_in_app; [|exact Hb'].
      apply quiet_in_plain. constructor; [reflexivity|].
      constructor; [|constructor]. clear - Eu. char_lia.
  - destruct (c <=? 31)%N; [discriminate|].
    cbn [literals_quiet] in Q.
    destruct (N.eqb_spec c 34) as [?|_]; [contradiction|].
    destruct (N.eqb_spec c 92) as [?|_]; [contradiction|].
    apply andb_true_iff in Q as [Qc Q]. apply negb_true_iff in Qc.
    destruct (IH _ _ _ _ H Q) as (body & -> & Hb' & Qr).
    exists (c :: body). repeat split; [|exact Qr].
    now apply quiet_in_cons.
Qed.

End ParsedText.

Section ParsedValues.

#[local] Arguments startswith : simpl never.
#[local] Arguments skipn : simpl never.

Lemma num_char_plain (c : str) : Forall num_char c -> Forall plain_char c.
Proof.
  apply Forall_impl. intros x H. unfold num_char in H.
  split; [|apply not_true_is_false; intro]; char_lia.
Qed.

Lemma digits_num (c : str) :
  Forall (fun x => is_digit x = true) c -> Forall num_char c.
Proof. apply Forall_impl. intros x H. now left. Qed.

Lemma scan_int_text (s ip r : str) :
  scan_int s = Some (ip, r) ->
  s = ip ++ r /\ Forall num_char ip /\
  exists x t, ip = x :: t /\ is_digit x = true.
Proof.
  unfold scan_int. destruct s as [|c s]; [discriminate|].
  destruct (N.eqb_spec c 48) as [->|_].
  - intros [= <- <-]. repeat split; [repeat constructor | now eauto].
  - destruct (is_digit c) eqn:Hd; [|discriminate].
    destruct (span is_digit s) as [ds r'] eqn:E.
    apply span_split in E as [-> Hds]. intros [= <- <-].
    repeat split; [|now eauto].
    constructor; [now left | now apply digits_num].
Qed.

Lemma scan_frac_text (s fp r : str) :
  scan_frac s = (fp, r) -> s = fp ++ r /\ Forall num_char fp.
Proof.
  unfold scan_frac. destruct (eat 46%N s) as [[|d r0]|] eqn:E;
    try (intros [= <- <-]; now split).
  apply eat_Some in E. subst s.
  destruct (is_digit d) eqn:Hd; [|intros [= <- <-]; now split].
  destruct (span is_digit r0) as [ds r'] eqn:Es.
  apply span_split in Es as [-> Hds]. intros [= <- <-].
  split; [reflexivity|].
  constructor; [unfold num_char; tauto|].
  constructor; [now left | now apply digits_num].
Qed.

Lemma scan_exp_text (s ep r : str) :
  scan_exp s = (ep, r) -> s = ep ++ r /\ Forall num_char ep.
Proof.
  unfold scan_exp. destruct s as [|e s]; [intros [= <- <-]; now split|].
  destruct ((e =? 101)%N || (e =? 69)%N) eqn:He;
    [|intros [= <- <-]; now split].
  assert (Hsign : exists sign r1, s = sign ++ r1 /\ Forall num_char sign /\
            (match s with
             | c :: r' =>
                 if ((c =? 45)%N || (c =? 43)%N) then ([c], r') else ([], s)
             | [] => ([], s)
             end) = (sign, r1)).
  { destruct s as [|c r']; [exists [], []; now repeat split|].
    destruct ((c =? 45)%N || (c =? 43)%N) eqn:Hc.
    - exists [c], r'. repeat split. constructor; [|constructor].
      unfold num_char. clear - Hc. char_lia.
    - exists [], (c :: r'). now repeat split. }
  destruct Hsign as (sign & r1 & Es & Hs & ->).
  destruct (span is_digit r1) as [ds r2] eqn:Ed.
  apply span_split in Ed as [-> Hds].
  destruct ds as [|d ds]; intros [= <- <-]; [now split|].
  split; [rewrite Es; cbn [app]; now rewrite <- app_assoc|].
  constructor; [unfold num_char; clear - He; char_lia|].
  apply Forall_app. split; [exact Hs | now apply digits_num].
Qed.

(** A number the parser accepts is a run of sign, digit, dot and exponent
    characters that starts with a minus sign or a digit. *)
Lemma match_number_text (rt : runtime) (s r : str) (v : jvalue) :
  match_number rt s = POk v r ->
  exists x t, s = (x :: t) ++ r /\ Forall num_char (x :: t) /\
              (x = 45%N \/ is_digit x = true).
Proof.
  unfold match_number.
  assert (Hneg : exists sg s1, s = sg ++ s1 /\
            (match eat 45%N s with
             | Some r => (true, r) | None => (false, s) end)
            = (match sg with [] => false | _ => true end, s1) /\
            (sg = [] \/ sg = [45%N])).
  { destruct (eat 45%N s) eqn:E.
    - apply eat_Some in E. subst. exists [45%N], s0. repeat split. now right.
    - exists [], s. repeat split. now left. }
  destruct Hneg as (sg & s1 & -> & -> & Hsg).
  destruct (scan_int s1) as [[ip s2]|] eqn:Ei; [|now destruct sg].
  apply scan_int_text in Ei as (-> & Hip & d & t & -> & Hd).
  destruct (scan_frac s2) as [fp s3] eqn:Ef.
  apply scan_frac_text in Ef as [-> Hfp].
  destruct (scan_exp s3) as [ep s4] eqn:Ee.
  apply scan_exp_text in Ee as [-> Hep].
  intros H.
  assert (r = s4).
  { destruct fp, ep; try (destruct sg; now injection H).
    destruct (too_many_digits rt (length (d :: t))); [discriminate H|].
    destruct sg; now injection H. }
  subst s4.
  assert (Hall : Forall num_char ((d :: t) ++ fp ++ ep))
    by (repeat (apply Forall_app; split); assumption).
  destruct Hsg as [-> | ->].
  - exists d, (t ++ fp ++ ep). split; [|split].
    + cbn [app]. now rewrite <- !app_assoc.
    + exact Hall.
    + now right.
  - exists 45%N, ((d :: t) ++ fp ++ ep). split; [|split].
    + cbn [app]. now rewrite <- !app_assoc.
    + constructor; [unfold num_char; tauto | exact Hall].
    + now left.
Qed.

Lemma good_head (x : char) (t : str) :
  isspace x = false -> Re.is_ident_start x = false -> x <> 93%N ->
  x <> 125%N -> (forall k, quiet_in (x :: t) k) -> good (x :: t).
Proof. intros. split; [left; exists x, t; auto | assumption]. Qed.

Lemma good_word (c : str) :
  c <> [] -> Forall (fun x => Re.is_ident_char x = true) c ->
  Forall plain_char c -> good c.
Proof.
  intros H1 H2 H3. split; [now right|]. intros k. now apply plain_quiet.
Qed.

Lemma literals_quiet_plain (c r : str) :
  Forall plain_char c -> literals_quiet Outside (c ++ r) = true ->
  literals_quiet Outside r = true.
Proof.
  intros H. now rewrite literals_quiet_unquoted by now apply plain_unquoted.
Qed.

(** A keyword at the head of the text. *)
Lemma keyword_text (kw s : str) :
  startswith kw s = true -> literals_quiet Outside s = true ->
  Forall plain_char kw -> val_head kw ->
  exists c, s = c ++ skipn (length kw) s /\ good c /\
            literals_quiet Outside (skipn (length kw) s) = true.
Proof.
  intros H Q Hp Hv. apply startswith_split in H. exists kw.
  split; [exact H|]. split.
  - split; [exact Hv|]. intros k. now apply plain_quiet.
  - rewrite H in Q. now apply literals_quiet_plain in Q.
Qed.

End ParsedValues.

Section ParseSound.

#[local] Arguments startswith : simpl never.
#[local] Arguments skipn : simpl never.

Ltac app_eq :=
  repeat (progress (cbn [app]; rewrite <- ?app_assoc)); reflexivity.

Lemma after_ws (s : str) :
  literals_quiet Outside s = true ->
  exists w, s = w ++ skip_ws s /\ all_ws w /\
            literals_quiet Outside (skip_ws s) = true.
Proof.
  intros Q. destruct (skip_ws_split s) as (w & E & Hw).
  exists w. repeat split; try assumption. now apply literals_quiet_skip_ws.
Qed.

Lemma quiet_string (body r k : str) :
  quiet_in body (34%N :: r) -> quiet_in (34%N :: body ++ [34%N]) k.
Proof.
  intros H. apply quiet_in_cons; [now apply trig_head|].
  apply quiet_in_app; [now apply (quiet_body body r)|].
  apply quiet_in_plain. now repeat constructor.
Qed.

Lemma value_step (f : nat) : elems_ok f -> members_ok f -> value_ok (S f).
Proof.
  intros He Hm rt d s v r H Q. destruct s as [|c s']; [discriminate|].
  cbn [parse_value] in H.
  destruct (N.eqb_spec c 34) as [->|H34].
  { destruct (scanstring f [] s') as [x r0| |] eqn:Es; try discriminate.
    injection H as _ <-.
    change (literals_quiet Inside s' = true) in Q.
    destruct (scanstring_text f _ _ _ _ Es Q) as (body & -> & Hb & Qr).
    exists (34%N :: body ++ [34%N]). split; [app_eq|]. split; [|exact Qr].
    apply good_head; try reflexivity; try discriminate.
    intros k. now apply (quiet_string body r0). }
  destruct (N.eqb_spec c 123) as [->|H123].
  { destruct d as [|d]; [discriminate|].
    change (literals_quiet Outside s' = true) in Q.
    destruct (after_ws s' Q) as (w & E & Hw & Qw).
    destruct (eat 125%N (skip_ws s')) as [r0|] eqn:E125.
    - injection H as _ <-. apply eat_Some in E125. rewrite E125 in E, Qw.
      exists (123%N :: w ++ [125%N]). split; [rewrite E at 1; app_eq|].
      split; [|exact Qw].
      apply good_head; try reflexivity; try discriminate.
      intros k. apply quiet_in_cons.
      + rewrite <- app_assoc. apply trig_blocked; try reflexivity;
          [assumption | discriminate].
      + apply quiet_in_app; [now apply quiet_in_ws|].
        apply quiet_in_plain. now repeat constructor.
    - destruct (parse_members f rt d (skip_ws s')) as [m r0| |] eqn:Em;
        try discriminate.
      injection H as _ <-.
      destruct (Hm _ _ _ _ _ Em Qw) as (e & Ee & [[t ->] Hq] & Qr).
      exists (123%N :: w ++ 34%N :: t).
      split; [rewrite E at 1; rewrite Ee; app_eq|]. split; [|exact Qr].
      apply good_head; try reflexivity; try discriminate.
      intros k. apply quiet_in_cons.
      + rewrite <- app_assoc. apply trig_blocked; try reflexivity;
          [assumption | discriminate].
      + apply quiet_in_app; [now apply quiet_in_ws | apply Hq]. }
  destruct (N.eqb_spec c 91) as [->|H91].
  { destruct d as [|d]; [discriminate|].
    change (literals_quiet Outside s' = true) in Q.
    destruct (after_ws s' Q) as (w & E & Hw & Qw).
    destruct (eat 93%N (skip_ws s')) as [r0|] eqn:E93.
    - injection H as _ <-. apply eat_Some in E93. rewrite E93 in E, Qw.
      exists (91%N :: w ++ [93%N]). split; [rewrite E at 1; app_eq|].
      split; [|exact Qw].
      apply good_head; try reflexivity; try discriminate.
      intros k. apply quiet_in_plain. constructor; [reflexivity|].
      apply Forall_app. split; [now apply all_ws_plain|].
      now repeat constructor.
    - destruct (parse_elems f rt d (skip_ws s')) as [l r0| |] eqn:El;
        try discriminate.
      injection H as _ <-.
      destruct (He _ _ _ _ _ El Qw) as (e & Ee & [_ Hq] & Qr).
      exists (91%N :: w ++ e).
      split; [rewrite E at 1; rewrite Ee; app_eq|]. split; [|exact Qr].
      apply good_head; try reflexivity; try discriminate.
      intros k. apply quiet_in_cons; [now apply trig_head|].
      apply quiet_in_app; [now apply quiet_in_ws | apply Hq]. }
  assert (Hkw : forall kw,
             startswith kw (c :: s') = true -> Forall plain_char kw ->
             val_head kw ->
             exists t, c :: s' = t ++ skipn (length kw) (c :: s') /\ good t /\
                       literals_quiet Outside (skipn (length kw) (c :: s')) = true)
    by (intros kw Hs Hp Hv; now apply keyword_text).
  assert (Hplain : forall kw : string,
             forallb (fun x => negb (x =? 34)%N && negb (Re.is_open_or_comma x))
               (lit kw) = true -> Forall plain_char (lit kw)).
  { intros kw Hkw'. apply Forall_forall. intros x Hx.
    rewrite forallb_forall in Hkw'. specialize (Hkw' x Hx).
    apply andb_true_iff in Hkw' as [A B]. split.
    - now apply N.eqb_neq, negb_true_iff.
    - now apply negb_true_iff. }
  assert (Hword : forall kw : string,
             lit kw <> [] ->
             forallb Re.is_ident_char (lit kw) = true -> val_head (lit kw)).
  { intros kw Hne Hall. right. split; [exact Hne|].
    apply Forall_forall. now apply forallb_forall. }
  destruct (startswith (lit "null") (c :: s')) eqn:K1.
  { injection H as _ <-. apply (Hkw _ K1); [now apply Hplain|].
    now apply Hword. }
  destruct (startswith (lit "true") (c :: s')) eqn:K2.
  { injection H as _ <-. apply (Hkw _ K2); [now apply Hplain|].
    now apply Hword. }
  destruct (startswith (lit "false") (c :: s')) eqn:K3.
  { injection H as _ <-. apply (Hkw _ K3); [now apply Hplain|].
    now apply Hword. }
  destruct (startswith (lit "NaN") (c :: s')) eqn:K4.
  { injection H as _ <-. apply (Hkw _ K4); [now apply Hplain|].
    now apply Hword. }
  destruct (startswith (lit "Infinity") (c :: s')) eqn:K5.
  { injection H as _ <-. apply (Hkw _ K5); [now apply Hplain|].
    now apply Hword. }
  destruct (startswith (lit "-Infinity") (c :: s')) eqn:K6.
  { injection H as _ <-. apply (Hkw _ K6); [now apply Hplain|].
    left. exists 45%N, (lit "Infinity"). repeat split; discriminate. }
  apply match_number_text in H as (x & t & E & Hn & Hx).
  exists (x :: t). split; [exact E|].
  apply num_char_plain in Hn. split.
  - apply good_head; try (clear - Hx; char_lia).
    intros k. now apply plain_quiet.
  - rewrite E in Q. now apply literals_quiet_plain in Q.
Qed.

Lemma elems_step (f : nat) : value_ok f -> elems_ok f -> elems_ok (S f).
Proof.
  intros Hv He rt dp s l r H Q. cbn [parse_elems] in H.
  destruct (parse_value f rt dp s) as [v r0| |] eqn:Ev; try discriminate.
  destruct (Hv _ _ _ _ _ Ev Q) as (c & -> & [Hh Hq] & Q0).
  destruct (after_ws r0 Q0) as (w & E & Hw & Qw).
  destruct (eat 93%N (skip_ws r0)) as [r1|] eqn:E93.
  - injection H as _ <-. apply eat_Some in E93. rewrite E93 in E, Qw.
    exists (c ++ w ++ [93%N]). split; [rewrite E at 1; app_eq|].
    split; [|exact Qw]. split.
    + exists c, w, 93%N, []. repeat split; auto.
    + intros k. apply quiet_in_app; [apply Hq|].
      apply quiet_in_app; [now apply quiet_in_ws|].
      apply quiet_in_plain. now repeat constructor.
  - destruct (eat 44%N (skip_ws r0)) as [r1|] eqn:E44; [|discriminate].
    apply eat_Some in E44. rewrite E44 in E, Qw.
    change (literals_quiet Outside r1 = true) in Qw.
    destruct (after_ws r1 Qw) as (w' & E' & Hw' & Qw').
    destruct (parse_elems f rt dp (skip_ws r1)) as [l' r2| |] eqn:El;
      try discriminate.
    injection H as _ <-.
    destruct (He _ _ _ _ _ El Qw')
      as (e & Ee & [(c' & w1 & d & rest & -> & Hh' & Hw1 & Hd) Hq'] & Qr).
    exists (c ++ w ++ 44%N :: w' ++ c' ++ w1 ++ d :: rest).
    split; [rewrite E at 1; rewrite E' at 1; rewrite Ee; app_eq|].
    split; [|exact Qr]. split.
    + exists c, w, 44%N, (w' ++ c' ++ w1 ++ d :: rest). repeat split; auto.
    + intros k. apply quiet_in_app; [apply Hq|].
      apply quiet_in_app; [now apply quiet_in_ws|].
      apply quiet_in_cons.
      * rewrite <- !app_assoc. cbn [app].
        apply trig_delim_value; auto. tauto.
      * apply quiet_in_app; [now apply quiet_in_ws | apply Hq'].
Qed.

Lemma members_step (f : nat) :
  value_ok f -> members_ok f -> members_ok (S f).
Proof.
  intros Hv Hm rt d s m r H Q. cbn [parse_members] in H.
  destruct (eat 34%N s) as [s1|] eqn:E34; [|discriminate].
  apply eat_Some in E34. subst s.
  change (literals_quiet Inside s1 = true) in Q.
  destruct (scanstring f [] s1) as [key r0| |] eqn:Es; try discriminate.
  destruct (scanstring_text f _ _ _ _ Es Q) as (body & -> & Hb & Q0).
  destruct (after_ws r0 Q0) as (w1 & E1 & Hw1 & Qw1).
  destruct (eat 58%N (skip_ws r0)) as [r1|] eqn:E58; [|discriminate].
  apply eat_Some in E58. rewrite E58 in E1, Qw1.
  change (literals_quiet Outside r1 = true) in Qw1.
  destruct (after_ws r1 Qw1) as (w2 & E2 & Hw2 & Qw2).
  destruct (parse_value f rt d (skip_ws r1)) as [v r2| |] eqn:Ev;
    try discriminate.
  destruct (Hv _ _ _ _ _ Ev Qw2) as (c & Ec & [Hh Hq] & Q2).
  destruct (after_ws r2 Q2) as (w3 & E3 & Hw3 & Qw3).
  assert (Hkey : forall tail k,
             quiet_in (w3 ++ tail) k ->
             quiet_in (34%N :: body ++ 34%N :: w1 ++ 58%N :: w2 ++ c
                         ++ w3 ++ tail) k).
  { intros tail k Ht.
    apply quiet_in_cons; [now apply trig_head|].
    change (body ++ 34%N :: w1 ++ 58%N :: w2 ++ c ++ w3 ++ tail)
      with (body ++ (34%N :: w1) ++ (58%N :: w2) ++ c ++ w3 ++ tail).
    apply quiet_in_app; [cbn [app]; now apply (quiet_body body r0)|].
    apply quiet_in_app;
      [apply quiet_in_plain; constructor; [reflexivity|];
       now apply all_ws_plain|].
    apply quiet_in_app;
      [apply quiet_in_plain; constructor; [reflexivity|];
       now apply all_ws_plain|].
    apply quiet_in_app; [apply Hq | exact Ht]. }
  destruct (eat 125%N (skip_ws r2)) as [r3|] eqn:E125.
  - injection H as _ <-. apply eat_Some in E125. rewrite E125 in E3, Qw3.
    exists (34%N :: body ++ 34%N :: w1 ++ 58%N :: w2 ++ c ++ w3 ++ [125%N]).
    split; [rewrite E1 at 1; rewrite E2 at 1; rewrite Ec; rewrite E3 at 1;
            app_eq|].
    split; [|exact Qw3]. split; [eauto|].
    intros k. apply Hkey.
    apply quiet_in_app; [now apply quiet_in_ws|].
    apply quiet_in_plain. now repeat constructor.
  - destruct (eat 44%N (skip_ws r2)) as [r3|] eqn:E44; [|discriminate].
    apply eat_Some in E44. rewrite E44 in E3, Qw3.
    change (literals_quiet Outside r3 = true) in Qw3.
    destruct (after_ws r3 Qw3) as (w4 & E4 & Hw4 & Qw4).
    destruct (parse_members f rt d (skip_ws r3)) as [m' r4| |] eqn:Em;
      try discriminate.
    injection H as _ <-.
    destruct (Hm _ _ _ _ _ Em Qw4) as (e & Ee & [[t ->] Hq'] & Qr).
    exists (34%N :: body ++ 34%N :: w1 ++ 58%N :: w2 ++ c ++ w3
              ++ 44%N :: w4 ++ 34%N :: t).
    split; [rewrite E1 at 1; rewrite E2 at 1; rewrite Ec; rewrite E3 at 1;
            rewrite E4 at 1; rewrite Ee; app_eq|].
    split; [|exact Qr]. split; [eauto|].
    intros k. apply Hkey.
    apply quiet_in_app; [now apply quiet_in_ws|].
    apply quiet_in_cons.
    + rewrite <- app_assoc. apply trig_blocked; try reflexivity;
        [assumption | intros _; split; discriminate].
    + apply quiet_in_app; [now apply quiet_in_ws | apply Hq'].
Qed.

(** The text a scanner consumed, when no place of repair starts inside a
    string literal, has no place for the repair to act on. *)
Lemma parse_text (f : nat) : value_ok f /\ elems_ok f /\ members_ok f.
Proof.
  induction f as [|f (Hv & He & Hm)].
  - repeat split; intros rt d s x r H; discriminate H.
  - repeat split;
      [now apply value_step | now apply elems_step | now apply members_step].
Qed.

(** A JSON document in whose string literals no place of repair starts
    is left as it is by the repair step. *)
Lemma clean_valid_json (rt : runtime) (s : str) (v : jvalue) :
  json_loads rt s = Ok v -> literals_quiet Outside s = true ->
  _clean_json_string s = s.
Proof.
  unfold json_loads, decode. intros H Q.
  destruct (startswith [65279%N] s); [discriminate|].
  destruct (parse_value (2 * length s + 2) rt (recursion_limit rt) (skip_ws s))
    as [v' r| |] eqn:Ev; try discriminate.
  destruct (after_ws s Q) as (w & E & Hw & Qw).
  destruct (proj1 (parse_text _) _ _ _ _ _ Ev Qw) as (c & Ec & [_ Hq] & Qr).
  destruct (skip_ws_split r) as (w' & E' & Hw').
  destruct (skip_ws r); [|discriminate].
  apply clean_quiet. rewrite E, Ec, E', app_nil_r.
  apply quiet_in_app; [now apply quiet_in_ws|].
  apply quiet_in_app; [apply Hq | now apply quiet_in_ws].
Qed.

End ParseSound.

(** ** The recursion budget of the parser is enough *)

Section Budget.

#[local] Arguments startswith : simpl never.
#[local] Arguments skipn : simpl never.

Lemma skip_ws_length (s : str) : (length (skip_ws s) <= length s)%nat.
Proof.
  destruct (skip_ws_split s) as (w & E & _). rewrite E at 2.
  rewrite length_app. lia.
Qed.

Lemma eat_length (c : char) (s r : str) :
  eat c s = Some r -> length s = S (length r).
Proof. intros H. apply eat_Some in H. now subst. Qed.

Lemma hex4_length (s r : str) (u : N) :
  hex4 s = Some (u, r) -> length s = (4 + length r)%nat.
Proof.
  unfold hex4. destruct s as [|a [|b [|c [|d s]]]]; try discriminate.
  destruct (hex_val a), (hex_val b), (hex_val c), (hex_val d);
    try discriminate.
  now intros [= _ <-].
Qed.

Lemma scanstring_budget (f : nat) :
  forall acc s, (length s < f)%nat -> within_budget s (scanstring f acc s).
Proof.
  induction f as [|f IH]; intros acc s Hf; [lia|].
  destruct s as [|c s']; [exact I|]. cbn [scanstring length] in *.
  assert (Step : forall a t, (length t <= length s')%nat ->
                   within_budget (c :: s') (scanstring f a t)).
  { intros a t Ht. specialize (IH a t ltac:(lia)).
    destruct (scanstring f a t); cbn [within_budget length] in *; lia || auto. }
  destruct (c =? 34)%N; [cbn; lia|].
  destruct (c =? 92)%N; [|destruct (c <=? 31)%N; [exact I | now apply Step]].
  destruct s' as [|e s'']; [exact I|]. cbn [length] in *.
  destruct (e =? 117)%N.
  - destruct (hex4 s'') as [[u s3]|] eqn:Eh; [|exact I].
    apply hex4_length in Eh.
    destruct (is_high_surrogate u); [|apply Step; lia].
    destruct (eat_escape_u s3) as [s4|] eqn:Ee; [|apply Step; lia].
    apply eat_escape_u_Some in Ee. subst s3. cbn [length] in Eh.
    destruct (hex4 s4) as [[u2 s5]|] eqn:Eh2; [|exact I].
    apply hex4_length in Eh2.
    destruct (is_low_surrogate u2); apply Step; cbn [length]; lia.
  - destruct (unescape e); [apply Step; lia | exact I].
Qed.

Lemma match_number_budget (rt : runtime) (s : str) :
  within_budget s (match_number rt s).
Proof.
  destruct (match_number rt s) as [v r| |] eqn:E; [|exact I|].
  - apply match_number_text in E as (x & t & E & _). cbn.
    rewrite E. rewrite length_app. cbn. lia.
  - exfalso. revert E. unfold match_number.
    destruct (match eat 45%N s with
              | Some r => (true, r) | None => (false, s) end) as [neg s1].
    destruct (scan_int s1) as [[ip s2]|]; [|discriminate].
    destruct (scan_frac s2) as [fp s3]. destruct (scan_exp s3) as [ep s4].
    destruct fp, ep; try discriminate.
    destruct (too_many_digits rt (length ip)); discriminate.
Qed.

Lemma keyword_budget {A : Type} (kw s : str) (a : A) :
  kw <> [] -> startswith kw s = true ->
  within_budget s (POk a (skipn (length kw) s)).
Proof.
  intros Hne H. pose proof (startswith_length _ _ H) as Hl.
  cbn. rewrite length_skipn. destruct kw; [congruence|]. cbn in *. lia.
Qed.

Lemma value_budget_step (f : nat) :
  elems_budget f -> members_budget f -> value_budget (S f).
Proof.
  intros He Hm rt d s Hf. destruct s as [|c s']; [exact I|].
  cbn [parse_value]. cbn [length] in Hf.
  pose proof (skip_ws_length s') as Hws.
  destruct (c =? 34)%N.
  { pose proof (scanstring_budget f [] s' ltac:(lia)) as H.
    destruct (scanstring f [] s'); cbn [within_budget length] in *; lia || auto. }
  destruct (c =? 123)%N.
  { destruct d as [|d]; [exact I|].
    destruct (eat 125%N (skip_ws s')) as [r|] eqn:E.
    - apply eat_length in E. cbn. lia.
    - specialize (Hm rt d (skip_ws s') ltac:(lia)).
      destruct (parse_members f rt d (skip_ws s'));
        cbn [within_budget length] in *; lia || auto. }
  destruct (c =? 91)%N.
  { destruct d as [|d]; [exact I|].
    destruct (eat 93%N (skip_ws s')) as [r|] eqn:E.
    - apply eat_length in E. cbn. lia.
    - specialize (He rt d (skip_ws s') ltac:(lia)).
      destruct (parse_elems f rt d (skip_ws s'));
        cbn [within_budget length] in *; lia || auto. }
  destruct (startswith (lit "null") (c :: s')) eqn:K1;
    [now apply (keyword_budget (lit "null"))|].
  destruct (startswith (lit "true") (c :: s')) eqn:K2;
    [now apply (keyword_budget (lit "true"))|].
  destruct (startswith (lit "false") (c :: s')) eqn:K3;
    [now apply (keyword_budget (lit "false"))|].
  destruct (startswith (lit "NaN") (c :: s')) eqn:K4;
    [now apply (keyword_budget (lit "NaN"))|].
  destruct (startswith (lit "Infinity") (c :: s')) eqn:K5;
    [now apply (keyword_budget (lit "Infinity"))|].
  destruct (startswith (lit "-Infinity") (c :: s')) eqn:K6;
    [now apply (keyword_budget (lit "-Infinity"))|].
  apply match_number_budget.
Qed.

Lemma elems_budget_step (f : nat) :
  value_budget f -> elems_budget f -> elems_budget (S f).
Proof.
  intros Hv He rt d s Hf. cbn [parse_elems].
  specialize (Hv rt d s ltac:(lia)).
  destruct (parse_value f rt d s) as [v r0| |]; cbn [within_budget] in *; auto.
  pose proof (skip_ws_length r0) as Hws.
  destruct (eat 93%N (skip_ws r0)) as [r1|] eqn:E93.
  - apply eat_length in E93. cbn [within_budget]. lia.
  - destruct (eat 44%N (skip_ws r0)) as [r1|] eqn:E44; [|exact I].
    apply eat_length in E44. pose proof (skip_ws_length r1) as Hws1.
    specialize (He rt d (skip_ws r1) ltac:(lia)).
    destruct (parse_elems f rt d (skip_ws r1)); cbn [within_budget] in *;
      lia || auto.
Qed.

Lemma members_budget_step (f : nat) :
  value_budget f -> members_budget f -> members_budget (S f).
Proof.
  intros Hv Hm rt d s Hf. cbn [parse_members].
  destruct (eat 34%N s) as [s1|] eqn:E34; [|exact I].
  apply eat_length in E34.
  pose proof (scanstring_budget f [] s1 ltac:(lia)) as Hs.
  destruct (scanstring f [] s1) as [key r0| |]; cbn [within_budget] in *; auto.
  pose proof (skip_ws_length r0) as Hws0.
  destruct (eat 58%N (skip_ws r0)) as [r1|] eqn:E58; [|exact I].
  apply eat_length in E58. pose proof (skip_ws_length r1) as Hws1.
  specialize (Hv rt d (skip_ws r1) ltac:(lia)).
  destruct (parse_value f rt d (skip_ws r1)) as [v r2| |];
    cbn [within_budget] in *; auto.
  pose proof (skip_ws_length r2) as Hws2.
  destruct (eat 125%N (skip_ws r2)) as [r3|] eqn:E125.
  - apply eat_length in E125. cbn [within_budget]. lia.
  - destruct (eat 44%N (skip_ws r2)) as [r3|] eqn:E44; [|exact I].
    apply eat_length in E44. pose proof (skip_ws_length r3) as Hws3.
    specialize (Hm rt d (skip_ws r3) ltac:(lia)).
    destruct (parse_members f rt d (skip_ws r3)); cbn [within_budget] in *;
      lia || auto.
Qed.

Lemma parse_budget (f : nat) :
  value_budget f /\ elems_budget f /\ members_budget f.
Proof.
  induction f as [|f (Hv & He & Hm)].
  - repeat split; intros rt d s H; lia.
  - repeat split;
      [now apply value_budget_step | now apply elems_budget_step
       | now apply members_budget_step].
Qed.

(** The fuel of the decoder never runs out. *)
Lemma decode_within_budget (rt : runtime) (s : str) :
  within_budget (skip_ws s) (decode rt s).
Proof.
  pose proof (skip_ws_length s) as Hws.
  exact (proj1 (parse_budget (2 * length s + 2)) rt (recursion_limit rt)
           (skip_ws s) ltac:(lia)).
Qed.

Lemma scanstring_raises (f : nat) :
  forall acc s e, scanstring f acc s = PErr e -> e = JSONDecodeError.
Proof.
  induction f as [|f IH]; intros acc s e H; [discriminate|].
  destruct s as [|c s']; [now injection H|]. cbn [scanstring] in H.
  destruct (c =? 34)%N; [discriminate|].
  destruct (c =? 92)%N.
  - destruct s' as [|x s'']; [now injection H|].
    destruct (x =? 117)%N.
    + destruct (hex4 s'') as [[u s3]|]; [|now injection H].
      destruct (is_high_surrogate u); [|now apply IH in H].
      destruct (eat_escape_u s3) as [s4|]; [|now apply IH in H].
      destruct (hex4 s4) as [[u2 s5]|]; [|now injection H].
      destruct (is_low_surrogate u2); now apply IH in H.
    + destruct (unescape x); [now apply IH in H | now injection H].
  - destruct (c <=? 31)%N; [now injection H | now apply IH in H].
Qed.

Lemma match_number_raises (rt : runtime) (s : str) (e : exn) :
  match_number rt s = PErr e -> e = JSONDecodeError \/ e = ValueError.
Proof.
  unfold match_number.
  destruct (match eat 45%N s with
            | Some r => (true, r) | None => (false, s) end) as [neg s1].
  destruct (scan_int s1) as [[ip s2]|]; [|intros [= <-]; now left].
  destruct (scan_frac s2) as [fp s3]. destruct (scan_exp s3) as [ep s4].
  destruct fp, ep; try discriminate.
  destruct (too_many_digits rt (length ip)); [|discriminate].
  intros [= <-]. now right.
Qed.

Lemma parse_raises (f : nat) :
  (forall rt d s e, parse_value f rt d s = PErr e -> decode_error e)
  /\ (forall rt d s e, parse_elems f rt d s = PErr e -> decode_error e)
  /\ (forall rt d s e, parse_members f rt d s = PErr e -> decode_error e).
Proof.
  induction f as [|f (Hv & He & Hm)];
    [repeat split; intros rt d s e H; discriminate H|].
  assert (Hj : decode_error JSONDecodeError) by now left.
  repeat split; intros rt d s e H.
  - destruct s as [|c s']; [injection H as <-; exact Hj|].
    cbn [parse_value] in H.
    destruct (c =? 34)%N.
    { destruct (scanstring f [] s') as [x r|e'|] eqn:Es; try discriminate.
      injection H as <-. apply scanstring_raises in Es. now subst. }
    destruct (c =? 123)%N.
    { destruct d as [|d]; [injection H as <-; right; now left|].
      destruct (eat 125%N (skip_ws s')); [discriminate|].
      destruct (parse_members f rt d (skip_ws s')) as [m r|e'|] eqn:Em;
        try discriminate.
      injection H as <-. now apply Hm in Em. }
    destruct (c =? 91)%N.
    { destruct d as [|d]; [injection H as <-; right; now left|].
      destruct (eat 93%N (skip_ws s')); [discriminate|].
      destruct (parse_elems f rt d (skip_ws s')) as [l r|e'|] eqn:El;
        try discriminate.
      injection H as <-. now apply He in El. }
    repeat match type of H with
           | (if ?b then _ else _) = _ => destruct b; [discriminate|]
           end.
    apply match_number_raises in H as [-> | ->];
      [exact Hj | right; now right].
  - cbn [parse_elems] in H.
    destruct (parse_value f rt d s) as [v r0|e'|] eqn:Ev; try discriminate;
      [|injection H as <-; now apply Hv in Ev].
    destruct (eat 93%N (skip_ws r0)); [discriminate|].
    destruct (eat 44%N (skip_ws r0)) as [r1|]; [|injection H as <-; exact Hj].
    destruct (parse_elems f rt d (skip_ws r1)) as [l r2|e'|] eqn:El;
      try discriminate.
    injection H as <-. now apply He in El.
  - cbn [parse_members] in H.
    destruct (eat 34%N s) as [s1|]; [|injection H as <-; exact Hj].
    destruct (scanstring f [] s1) as [k r0|e'|] eqn:Es; try discriminate;
      [|injection H as <-; apply scanstring_raises in Es; now subst].
    destruct (eat 58%N (skip_ws r0)) as [r1|]; [|injection H as <-; exact Hj].
    destruct (parse_value f rt d (skip_ws r1)) as [v r2|e'|] eqn:Ev;
      try discriminate; [|injection H as <-; now apply Hv in Ev].
    destruct (eat 125%N (skip_ws r2)); [discriminate|].
    destruct (eat 44%N (skip_ws r2)) as [r3|]; [|injection H as <-; exact Hj].
    destruct (parse_members f rt d (skip_ws r3)) as [m r4|e'|] eqn:Em;
      try discriminate.
    injection H as <-. now apply Hm in Em.
Qed.

(** [json_loads] returns a value or raises one of [JSONDecodeError],
    [RecursionError] and [ValueError]; the fuel of the model plays no
    part. *)
Lemma json_loads_total (rt : runtime) (s : str) :
  (exists v, json_loads rt s = Ok v)
  \/ (exists e, json_loads rt s = Raise e /\ decode_error e).
Proof.
  unfold json_loads. destruct (startswith [65279%N] s);
    [right; eexists; split; [reflexivity | now left]|].
  pose proof (decode_within_budget rt s) as H.
  destruct (decode rt s) as [v r|e|] eqn:E; [| |contradiction].
  - destruct (skip_ws r); [left; eauto|].
    right; eexists; split; [reflexivity | now left].
  - right. exists e. split; [reflexivity|].
    exact (proj1 (parse_raises _) _ _ _ _ E).
Qed.

End Budget.

(** ** Splitting and the fallback line scan *)

Section SplitFacts.

Variable sep : str.
Hypothesis sep_not_empty : sep <> [].

Lemma split_aux_skip (m : option nat) (k : nat) (s : str) :
  (k <= length s)%nat ->
  split_aux sep m k s = split_aux sep m 0 (skipn k s).
Proof.
  revert s. induction k as [|k IH]; intros s Hk; [reflexivity|].
  destruct s as [|c s]; [simpl in Hk; lia|].
  simpl. apply IH. simpl in Hk. lia.
Qed.

(** The pieces of a split: the text before the first separator, then the
    pieces of the text after it. *)
Lemma split_unfold (s : str) :
  split sep s =
  before sep s :: (if contains sep s then split sep (after sep s) else []).
Proof.
  unfold split. induction s as [|c s IH].
  - destruct sep as [|a p] eqn:E; [contradiction | reflexivity].
  - cbn [split_aux before after contains].
    destruct (startswith sep (c :: s)) eqn:Hs.
    + cbn [orb]. f_equal.
      pose proof (startswith_length _ _ Hs) as Hl. simpl in Hl.
      assert (Hn : length sep = S (length sep - 1))
        by (destruct sep; [contradiction | simpl; lia]).
      rewrite split_aux_skip by lia.
      replace (skipn (length sep) (c :: s)) with (skipn (length sep - 1) s)
        by (rewrite Hn at 2; reflexivity).
      reflexivity.
    + cbn [orb]. rewrite IH. reflexivity.
Qed.

Lemma split_first (s : str) : index (split sep s) 0 = Ok (before sep s).
Proof. now rewrite split_unfold. Qed.

Lemma split_second (s : str) :
  contains sep s = true ->
  index (split sep s) 1 = Ok (before sep (after sep s)).
Proof.
  intros H. rewrite split_unfold, H. unfold index. cbn [nth_error].
  now rewrite split_unfold.
Qed.

End SplitFacts.

Lemma replace_quote (s : str) : replace [dq] [] s = unquote s.
Proof.
  unfold replace, dq. induction s as [|c s IH]; [reflexivity|].
  cbn [replace_aux startswith unquote filter]. rewrite andb_true_r.
  rewrite (N.eqb_sym 34 c).
  destruct (c =? 34)%N; cbn [negb app length Nat.sub]; now rewrite IH.
Qed.

Section FallbackFacts.

Variable rt : runtime.

Lemma index_cases {A : Type} (l : list A) (i : nat) :
  (exists a, index l i = Ok a) \/ index l i = Raise IndexError.
Proof. unfold index. destruct (nth_error l i); eauto. Qed.

Lemma py_int_cases (s : str) :
  (exists n, py_int rt s = Ok n) \/ py_int rt s = Raise ValueError.
Proof.
  unfold py_int.
  destruct (match eat 45%N (c_strip (to_ascii_decimal rt s)),
                  eat 43%N (c_strip (to_ascii_decimal rt s)) with
            | Some r, _ => (true, r)
            | None, Some r => (false, r)
            | None, None => (false, c_strip (to_ascii_decimal rt s))
            end) as [neg ds].
  destruct (int_digits false 0 0 ds) as [[n digits]|]; [|now right].
  destruct (too_many_digits rt digits); eauto.
Qed.

Lemma marker_not_empty (key : str) : marker key <> [].
Proof. discriminate. Qed.

Lemma comma_not_empty : lit "," <> [].
Proof. discriminate. Qed.

(** The first loop on a line that holds the title marker: the previous
    record is kept if complete, and a new record starts with the title. *)
Lemma scan_line_title (titles : list dict) (cur : dict) (line : str) :
  contains (marker k_title) (strip line) = true ->
  scan_line rt (titles, cur) line =
  Ok (if dict_truthy cur && complete cur then titles ++ [cur] else titles,
      [(k_title,
        JStr (strip (unquote (before (lit ",")
                (before (marker k_title)
                   (after (marker k_title) (strip line)))))))]).
Proof.
  intros H. unfold scan_line. rewrite H.
  rewrite (split_second (marker k_title) (marker_not_empty _) _ H).
  cbn [bind]. rewrite (split_first (lit ",") comma_not_empty).
  cbn [bind]. now rewrite replace_quote.
Qed.

(** What one iteration does to the list of emitted records. *)
Lemma scan_line_emits (titles : list dict) (cur : dict) (line : str) :
  exists cur',
    scan_line rt (titles, cur) line = Ok (titles, cur') \/
    (scan_line rt (titles, cur) line = Ok (titles ++ [cur], cur') /\
     complete cur = true).
Proof.
  destruct (contains (marker k_title) (strip line)) eqn:Ht.
  { rewrite (scan_line_title titles cur line Ht).
    destruct (dict_truthy cur && complete cur) eqn:E; eexists; [right|left].
    - split; [reflexivity|]. now apply andb_true_iff in E.
    - reflexivity. }
  unfold scan_line. rewrite Ht.
  destruct (contains (marker k_seo_score) (strip line) && dict_truthy cur).
  { destruct (index_cases (split (marker k_seo_score) (strip line)) 1)
      as [[a ->] | ->]; cbn [bind]; [|eauto].
    rewrite (split_first (lit ",") comma_not_empty). cbn [bind].
    destruct (py_int_cases (strip (before (lit ",") a))) as [[n ->] | ->];
      eauto. }
  destruct (contains (marker k_reasoning) (strip line) && dict_truthy cur).
  { destruct (index_cases (split (marker k_reasoning) (strip line)) 1)
      as [[a ->] | ->]; cbn [bind]; eauto. }
  eauto.
Qed.

Lemma scan_lines_complete (lines : list str) :
  forall titles cur, all_complete titles ->
    exists titles' cur',
      scan_lines rt (titles, cur) lines = Ok (titles', cur') /\
      all_complete titles'.
Proof.
  induction lines as [|line lines IH]; intros titles cur Hc.
  - exists titles, cur. now split.
  - cbn [scan_lines].
    destruct (scan_line_emits titles cur line) as (cur' & [-> | [-> Hcur]]);
      cbn [bind]; apply IH; [exact Hc|].
    apply Forall_app. split; [exact Hc | now constructor].
Qed.

Lemma simple_lines_complete (lines : list str) :
  forall titles, all_complete titles ->
    all_complete (fold_left simple_line lines titles).
Proof.
  induction lines as [|line lines IH]; intros titles Hc; [exact Hc|].
  cbn [fold_left]. apply IH. unfold simple_line.
  destruct (startswith (lit "Title:") (strip line)
            || startswith (marker k_title) (strip line)); [|exact Hc].
  match goal with |- context [if ?b then _ else _] => destruct b end;
    [|exact Hc].
  apply Forall_app. split; [exact Hc | now constructor].
Qed.

Lemma Forall_firstn {A : Type} (P : A -> Prop) (n : nat) (l : list A) :
  Forall P l -> Forall P (firstn n l).
Proof.
  intros H. rewrite <- (firstn_skipn n l) in H. now apply Forall_app in H.
Qed.

(** The fallback synthesis of titles never raises; it yields at most five
    records, each with the three fields. *)
Lemma parse_fallback_titles_ok (content : str) :
  exists ds, _parse_fallback_titles rt content = Ok ds /\
             (length ds <= 5)%nat /\ all_complete ds.
Proof.
  unfold _parse_fallback_titles.
  destruct (scan_lines_complete (split [nl] content) [] [] (Forall_nil _))
    as (titles & cur & E & Hc).
  match goal with
  | |- context [bind ?m _] =>
      assert (E' : m = Ok (titles, cur)) by exact E; rewrite E'
  end.
  cbn [bind]. eexists. split; [reflexivity|]. split.
  - rewrite length_firstn. lia.
  - assert (Hc' : all_complete
                    (if dict_truthy cur && complete cur
                     then titles ++ [cur] else titles)).
    { destruct (dict_truthy cur && complete cur) eqn:Ec; [|exact Hc].
      apply andb_true_iff in Ec as [_ Ec].
      apply Forall_app. split; [exact Hc | now constructor]. }
    apply Forall_firstn.
    destruct (if dict_truthy cur && complete cur
              then titles ++ [cur] else titles); [|exact Hc'].
    now apply simple_lines_complete.
Qed.

End FallbackFacts.

(** ** At the limits of the interpreter *)

Section Limits.

(** Opening brackets beyond the depth the interpreter allows raise
    [RecursionError], whatever follows them. *)
Lemma deep_nesting_value (rt : runtime) (s : str) :
  forall d f m,
    (d < m)%nat -> (2 * d < f)%nat ->
    parse_value f rt d (repeat 91%N m ++ s) = PErr RecursionError.
Proof.
  induction d as [|d IH]; intros f m Hm Hf;
    (destruct m as [|m]; [lia|]); (destruct f as [|f]; [lia|]);
    cbn [repeat app parse_value];
    change (91 =? 34)%N with false; change (91 =? 123)%N with false;
    change (91 =? 91)%N with true; cbv iota; [reflexivity|].
  destruct m as [|m]; [lia|]. destruct f as [|f]; [lia|].
  cbn [repeat app skip_ws]. change (is_ws 91%N) with false. cbv iota.
  cbn [eat]. change (91 =? 93)%N with false. cbv iota.
  cbn [parse_elems].
  change (91%N :: repeat 91%N m ++ s) with (repeat 91%N (S m) ++ s).
  rewrite IH by lia. reflexivity.
Qed.

Lemma deep_nesting_raises (rt : runtime) (m : nat) (s : str) :
  (recursion_limit rt < m)%nat ->
  json_loads rt (repeat 91%N m ++ s) = Raise RecursionError.
Proof.
  intros Hm. unfold json_loads, decode.
  destruct m as [|m]; [lia|]. cbn [repeat app startswith skip_ws].
  change (65279 =? 91)%N with false. change (is_ws 91%N) with false.
  cbn [andb]. cbv iota.
  change (91%N :: repeat 91%N m ++ s) with (repeat 91%N (S m) ++ s).
  rewrite deep_nesting_value; [reflexivity | exact Hm|].
  rewrite length_app, repeat_length. lia.
Qed.

(** A thousand and one hundred opening brackets are too many for the
    default recursion limit, whatever follows them. *)
Example deep_array_raises (s : str) :
  json_loads cpython (repeat 91%N 1100 ++ s) = Raise RecursionError.
Proof. apply deep_nesting_raises. cbn [recursion_limit cpython]. lia. Qed.

(** A response whose scan meets the recursion limit before its syntax
    error: [generate_content] answers it with the fixed default record, not
    with the record of a parse failure. *)
Example deep_object_gives_default :
  generate_content tight
    (answers (concat (repeat (lit "{" ++ quoted "a" ++ lit ":") 3)
              ++ lit "x}"))
    (lit "T") (lit "AI") (lit "devs") (lit "Blog Post") (lit "warm") None
  = Ok (JObj (_get_default_content (lit "T") (lit "AI") (lit "Blog Post"))).
Proof. vm_compute. reflexivity. Qed.

(** An integer literal with one digit more than the limit: the array that
    holds it is answered with the default titles, and the object that
    holds it with the default record; at the limit the literal is read. *)
Example long_integer_gives_default :
  generate_titles tight (answers (lit "[" ++ repeat 49%N 641 ++ lit "]"))
    (lit "AI") (lit "devs") (lit "Blog Post") (lit "warm")
  = Ok (as_list (_get_default_titles (lit "AI")))
  /\ generate_content tight
       (answers (lit "Here: {" ++ quoted "n" ++ lit ": " ++ repeat 49%N 641
                 ++ lit "} ok"))
       (lit "T") (lit "AI") (lit "devs") (lit "Blog Post") (lit "warm") None
     = Ok (JObj (_get_default_content (lit "T") (lit "AI") (lit "Blog Post")))
  /\ json_loads tight (repeat 49%N 640)
     = Ok (JInt (digits_val (repeat 49%N 640))).
Proof. split; [|split]; vm_compute; reflexivity. Qed.

(** [int] reads the decimal digits of every script: the line scan takes a
    fullwidth nine (U+FF19) as the score 9; a score with one digit more
    than the limit is a [ValueError] and becomes 7. *)
Example line_scan_unicode_score :
  _parse_fallback_titles cpython
    (quoted "title" ++ lit ": " ++ quoted "T" ++ lit "," ++ [nl]
     ++ quoted "seo_score" ++ lit ": " ++ [65305%N] ++ lit "," ++ [nl]
     ++ quoted "reasoning" ++ lit ": " ++ quoted "r" ++ lit "}")
  = Ok [[(k_title, JStr (lit "T")); (k_seo_score, JInt 9);
         (k_reasoning, JStr (lit "r"))]]
  /\ _parse_fallback_titles tight
       (quoted "title" ++ lit ": " ++ quoted "T" ++ lit "," ++ [nl]
        ++ quoted "seo_score" ++ lit ": " ++ repeat 49%N 641 ++ lit ","
        ++ [nl] ++ quoted "reasoning" ++ lit ": " ++ quoted "r" ++ lit "}")
     = Ok [[(k_title, JStr (lit "T")); (k_seo_score, JInt 7);
            (k_reasoning, JStr (lit "r"))]].
Proof. split; vm_compute; reflexivity. Qed.

End Limits.

(** ** Every place of repair changes the text *)

Section RepairExact.

Lemma sub_keys_aux_skip (a rest : str) :
  Re.sub_keys_aux (length a) (a ++ rest) = Re.sub_keys_aux 0 rest.
Proof.
  induction a as [|c a IH]; [reflexivity|]. exact IH.
Qed.

Lemma ident_not_space (c : char) :
  Re.is_ident_char c = true -> isspace c = false.
Proof. intros H. char_lia. Qed.

(** What [re.sub] does at a match of the key pattern. *)
Lemma sub_keys_key (d c : char) (ws1 id ws2 rest : str) :
  Re.is_open_or_comma d = true ->
  Forall (fun x => isspace x = true) ws1 ->
  Re.is_ident_start c = true ->
  Forall (fun x => Re.is_ident_char x = true) id ->
  Forall (fun x => isspace x = true) ws2 ->
  Re.sub_keys (d :: ws1 ++ c :: id ++ ws2 ++ 58%N :: rest)
  = d :: ws1 ++ dq :: c :: id ++ [dq; 58%N] ++ Re.sub_keys rest.
Proof.
  intros Hd Hws1 Hc Hid Hws2.
  unfold Re.sub_keys. cbn [Re.sub_keys_aux]. unfold Re.match_key.
  rewrite Hd.
  rewrite span_app_stop;
    [|exact Hws1 | apply ident_not_space; unfold Re.is_ident_char;
                   now rewrite Hc].
  rewrite Hc.
  rewrite span_app_stop; [|exact Hid|].
  - rewrite span_app_stop; [|exact Hws2 | reflexivity].
    cbn [eat]. rewrite N.eqb_refl.
    replace (ws1 ++ c :: id ++ ws2 ++ 58%N :: rest)
      with ((ws1 ++ c :: id ++ ws2 ++ [58%N]) ++ rest)
      by (rewrite <- !app_assoc; cbn [app]; rewrite <- !app_assoc;
          reflexivity).
    replace (S (length ws1 + S (length id) + length ws2))
      with (length (ws1 ++ c :: id ++ ws2 ++ [58%N]))
      by (rewrite !length_app; cbn [length]; rewrite !length_app;
          cbn [length]; lia).
    rewrite sub_keys_aux_skip.
    repeat (progress (cbn [app]; rewrite <- ?app_assoc)). reflexivity.
  - destruct Hws2 as [|y ws2 Hy _]; cbn [app]; [reflexivity|].
    clear - Hy. char_lia.
Qed.

(** The text of a match of the key pattern. *)
Lemma match_key_text (s r : str) (n : nat) :
  Re.match_key s = Some (r, n) ->
  exists (d : char) (ws1 : str) (c : char) (id ws2 rest : str),
    s = d :: ws1 ++ c :: id ++ ws2 ++ 58%N :: rest
    /\ Re.is_open_or_comma d = true
    /\ Forall (fun x => isspace x = true) ws1
    /\ Re.is_ident_start c = true
    /\ Forall (fun x => Re.is_ident_char x = true) id
    /\ Forall (fun x => isspace x = true) ws2.
Proof.
  unfold Re.match_key. destruct s as [|d s1]; [discriminate|].
  destruct (Re.is_open_or_comma d) eqn:Hd; [|discriminate].
  destruct (span isspace s1) as [ws1 s2] eqn:E1.
  apply span_split in E1 as [-> Hws1].
  destruct s2 as [|c s3]; [discriminate|].
  destruct (Re.is_ident_start c) eqn:Hc; [|discriminate].
  destruct (span Re.is_ident_char s3) as [id s4] eqn:E2.
  apply span_split in E2 as [-> Hid].
  destruct (span isspace s4) as [ws2 s5] eqn:E3.
  apply span_split in E3 as [-> Hws2].
  destruct (eat 58%N s5) as [rest|] eqn:E4; [|discriminate].
  apply eat_Some in E4. subst s5. intros _.
  exists d, ws1, c, id, ws2, rest. repeat split; assumption.
Qed.

Lemma surplus_app (a b : str) :
  surplus (a ++ b) = (surplus a + surplus b)%Z.
Proof.
  induction a as [|c a IH]; cbn [app surplus]; [reflexivity|].
  rewrite IH. lia.
Qed.

Lemma surplus_light (a : str) :
  Forall (fun x => weight x = 0%Z) a -> surplus a = 0%Z.
Proof.
  induction 1 as [|c a Hc _ IH]; cbn [surplus]; [reflexivity|]. lia.
Qed.

Lemma space_light (a : str) :
  Forall (fun x => isspace x = true) a -> surplus a = 0%Z.
Proof.
  intros H. apply surplus_light. revert H. apply Forall_impl.
  intros x Hx. unfold weight.
  replace (x =? 34)%N with false by (symmetry; clear - Hx; char_lia).
  replace (x =? 44)%N with false by (symmetry; clear - Hx; char_lia).
  reflexivity.
Qed.

(** Removing the comma of every comma-and-[b] raises the measure, by at
    least one where there is such a place. *)
Lemma replace_comma_surplus (b : char) (n : nat) :
  forall s, (length s <= n)%nat ->
    (surplus s <= surplus (replace [44%N; b] [b] s))%Z
    /\ ((exists pre t, s = pre ++ t /\ startswith [44%N; b] t = true) ->
        (surplus s < surplus (replace [44%N; b] [b] s))%Z).
Proof.
  unfold replace. induction n as [|n IH]; intros s Hn.
  - destruct s; [|cbn in Hn; lia]. split; [cbn; lia|].
    intros (pre & t & E & Ht). symmetry in E.
    apply app_eq_nil in E as [_ ->]. discriminate Ht.
  - destruct s as [|c s']; [apply IH; cbn; lia|].
    cbn [replace_aux]. destruct (startswith [44%N; b] (c :: s')) eqn:M.
    + apply startswith_split in M as E. cbn [length skipn app] in E.
      destruct s' as [|b' s'']; [discriminate E|].
      injection E as -> ->. cbn [length Nat.sub replace_aux app].
      destruct (IH s'') as [H _]; [cbn [length] in Hn; lia|].
      change (weight 44%N) with (-1)%Z. cbn [surplus].
      change (weight 44%N) with (-1)%Z. split; [lia | intros _; lia].
    + destruct (IH s') as [H Hstrict]; [cbn [length] in Hn; lia|].
      cbn [surplus]. split; [lia|].
      intros (pre & t & E & Ht). destruct pre as [|x pre].
      * cbn [app] in E. subst t. congruence.
      * injection E as _ E.
        assert (surplus s' < surplus (replace_aux [44%N; b] [b] 0 s'))%Z
          by (apply Hstrict; now exists pre, t).
        lia.
Qed.

(** Quoting the keys raises the measure, by at least two where the
    pattern matches. *)
Lemma sub_keys_surplus (n : nat) :
  forall s, (length s <= n)%nat ->
    (surplus s <= surplus (Re.sub_keys s))%Z
    /\ ((exists pre t r k, s = pre ++ t /\ Re.match_key t = Some (r, k)) ->
        (surplus s < surplus (Re.sub_keys s))%Z).
Proof.
  induction n as [|n IH]; intros s Hn.
  - destruct s; [|cbn in Hn; lia]. split; [cbn; lia|].
    intros (pre & t & r & k & E & Ht). symmetry in E.
    apply app_eq_nil in E as [_ ->]. discriminate Ht.
  - destruct s as [|c0 s']; [apply IH; cbn; lia|].
    destruct (Re.match_key (c0 :: s')) as [[r k]|] eqn:M.
    + destruct (match_key_text _ _ _ M)
        as (d & ws1 & c & id & ws2 & rest & E & Hd & Hws1 & Hc & Hid & Hws2).
      assert (Hk : Re.sub_keys (c0 :: s')
                   = d :: ws1 ++ dq :: c :: id ++ [dq; 58%N]
                     ++ Re.sub_keys rest)
        by (rewrite E; now apply sub_keys_key).
      rewrite Hk, E.
      assert (Hl : (length rest <= n)%nat).
      { apply (f_equal (@length _)) in E. cbn [length] in E.
        rewrite !length_app in E. cbn [length] in E.
        rewrite !length_app in E. cbn [length] in E, Hn. lia. }
      destruct (IH rest Hl) as [H _].
      cbn [surplus]. rewrite !surplus_app. cbn [surplus].
      rewrite !surplus_app. cbn [surplus].
      rewrite (space_light ws2 Hws2).
      change (weight dq) with 1%Z. change (weight 58%N) with 0%Z.
      split; [lia | intros _; lia].
    + unfold Re.sub_keys. cbn [Re.sub_keys_aux]. rewrite M.
      fold (Re.sub_keys s').
      destruct (IH s') as [H Hstrict]; [cbn [length] in Hn; lia|].
      cbn [surplus]. split; [lia|].
      intros (pre & t & r & k & E & Ht). destruct pre as [|x pre].
      * cbn [app] in E. subst t. congruence.
      * injection E as _ E.
        assert (surplus s' < surplus (Re.sub_keys s'))%Z
          by (apply Hstrict; now exists pre, t, r, k).
        lia.
Qed.

(** A text the repair step returns as it is has no place of repair. *)
Lemma clean_fixed_quiet (s : str) :
  _clean_json_string s = s -> ~ has_trig s.
Proof.
  intros E. unfold _clean_json_string in E.
  remember (replace (lit ",]") (lit "]") s) as s1 eqn:D1.
  remember (replace (lit ",}") (lit "}") s1) as s2 eqn:D2.
  destruct (replace_comma_surplus 93%N (length s) s (Nat.le_refl _))
    as [A1 B1].
  destruct (replace_comma_surplus 125%N (length s1) s1 (Nat.le_refl _))
    as [A2 B2].
  destruct (sub_keys_surplus (length s2) s2 (Nat.le_refl _)) as [A3 B3].
  change (replace [44%N; 93%N] [93%N] s)
    with (replace (lit ",]") (lit "]") s) in A1, B1.
  change (replace [44%N; 125%N] [125%N] s1)
    with (replace (lit ",}") (lit "}") s1) in A2, B2.
  rewrite <- D1 in A1, B1. rewrite <- D2 in A2, B2. rewrite E in A3, B3.
  assert (N1 : forall pre t, s = pre ++ t -> startswith (lit ",]") t = false).
  { intros pre t Et. apply not_true_is_false. intros F.
    assert (surplus s < surplus s1)%Z by (apply B1; now exists pre, t). lia. }
  assert (E1 : s1 = s) by (rewrite D1; apply replace_aux_quiet; exact N1).
  rewrite E1 in *.
  assert (N2 : forall pre t, s = pre ++ t -> startswith (lit ",}") t = false).
  { intros pre t Et. apply not_true_is_false. intros F.
    assert (surplus s < surplus s2)%Z by (apply B2; now exists pre, t). lia. }
  assert (E2 : s2 = s) by (rewrite D2; apply replace_aux_quiet; exact N2).
  rewrite E2 in *.
  intros (pre & t & Et & Ht). unfold trig in Ht.
  rewrite (N1 pre t Et), (N2 pre t Et) in Ht. cbn [orb] in Ht.
  destruct (Re.match_key t) as [[r k]|] eqn:M; [|discriminate Ht].
  assert (surplus s < surplus s)%Z by (apply B3; now exists pre, t, r, k).
  lia.
Qed.

(** A text in which some string literal holds a place of repair has a
    place of repair. *)
Lemma literals_loud (s : str) :
  forall st, literals_quiet st s = false -> has_trig s.
Proof.
  induction s as [|c s IH]; intros st H; [discriminate H|].
  assert (Hrest : forall st', literals_quiet st' s = false ->
                              has_trig (c :: s)).
  { intros st' H'. destruct (IH st' H') as (pre & t & -> & Ht).
    now exists (c :: pre), t. }
  cbn [literals_quiet] in H. destruct st.
  - now apply Hrest in H.
  - destruct (c =? 34)%N; [now apply Hrest in H|].
    destruct (c =? 92)%N; [now apply Hrest in H|].
    apply andb_false_iff in H as [H|H]; [|now apply Hrest in H].
    apply negb_false_iff in H. now exists [], (c :: s).
  - now apply Hrest in H.
Qed.

End RepairExact.

(** * The claims *)

Section ContentClaims.

(** C1, as stated, fails: for the response [no json here at all] the
    record returned is not the fixed default one. *)
Lemma undecodable_content_is_not_default :
  ~ exists d,
      generate_content cpython (answers (lit "no json here at all"))
        (lit "T") (lit "AI") (lit "devs") (lit "Blog Post") (lit "warm") None
      = Ok (JObj d)
      /\ dict_get k_hashtags d = Some three_hashtags
      /\ dict_get k_engagement_score d = Some (JInt 6).
Proof.
  intros (d & E & _ & H). vm_compute in E. injection E as <-.
  vm_compute in H. discriminate H.
Qed.

(** C1 (amended): when [json.loads] raises [JSONDecodeError] on the
    extracted and repaired text, [generate_content] returns the
    parse-failure record: the raw text as content, the words of the raw
    text that start with [#] (at most ten) as hashtags, and engagement
    score 5.  The fixed default record, with its three hashtags and score
    6, is what a raising client leads to, and what any other exception of
    [json.loads] leads to ([RecursionError] for containers nested too
    deep, [ValueError] for an integer literal with too many digits). *)
Theorem generate_content_undecodable
  (rt : runtime) (llm : llm_client)
  (title topic target_audience content_format tone : str)
  (key_points : option (list str)) (raw : str)
  (Hllm : llm (build_prompt title topic target_audience content_format tone
                 key_points) = Ok raw)
  (Hjson : json_loads rt
             (_clean_json_string (extract_payload 123%N 125%N raw))
           = Raise JSONDecodeError) :
  (exists d,
      generate_content rt llm title topic target_audience content_format tone
        key_points = Ok (JObj d)
      /\ dict_get k_content d = Some (JStr raw)
      /\ dict_get k_hashtags d = Some (JArr (map JStr (_extract_hashtags raw)))
      /\ dict_get k_engagement_score d = Some (JInt 5))
  /\ (forall e, exists d,
        generate_content rt (fails e) title topic target_audience
          content_format tone key_points = Ok (JObj d)
        /\ dict_get k_hashtags d = Some three_hashtags
        /\ dict_get k_engagement_score d = Some (JInt 6))
  /\ (forall llm' raw' e,
        llm' (build_prompt title topic target_audience content_format tone
                key_points) = Ok raw' ->
        json_loads rt (_clean_json_string (extract_payload 123%N 125%N raw'))
        = Raise e ->
        e <> JSONDecodeError ->
        exists d,
          generate_content rt llm' title topic target_audience
            content_format tone key_points = Ok (JObj d)
          /\ dict_get k_hashtags d = Some three_hashtags
          /\ dict_get k_engagement_score d = Some (JInt 6)).
Proof.
  split; [|split].
  - exists (parse_failure_content raw content_format).
    unfold generate_content. rewrite Hllm. cbn [bind]. rewrite Hjson.
    repeat split.
  - intros e. exists (_get_default_content title topic content_format).
    repeat split.
  - intros llm' raw' e Hl Hj He.
    exists (_get_default_content title topic content_format).
    unfold generate_content. rewrite Hl. cbn [bind]. rewrite Hj.
    destruct e; try congruence; repeat split.
Qed.

Lemma generate_content_undecodable_witness :
  extract_payload 123%N 125%N (lit "no json here at all")
  = lit "no json here at all"
  /\ json_loads cpython (_clean_json_string (lit "no json here at all"))
     = Raise JSONDecodeError
  /\ exists d,
       generate_content cpython (answers (lit "no json here at all"))
         (lit "T") (lit "AI") (lit "devs") (lit "Blog Post") (lit "warm") None
       = Ok (JObj d)
       /\ dict_get k_content d = Some (JStr (lit "no json here at all"))
       /\ dict_get k_hashtags d = Some (JArr [])
       /\ dict_get k_engagement_score d = Some (JInt 5).
Proof.
  split; [vm_compute; reflexivity|]. split; [vm_compute; reflexivity|].
  exact (proj1 (generate_content_undecodable cpython
                  (answers (lit "no json here at all"))
                  (lit "T") (lit "AI") (lit "devs") (lit "Blog Post")
                  (lit "warm") None (lit "no json here at all")
                  eq_refl eq_refl)).
Defined.

(** C3: the failing input.  A response that decodes to a list is returned
    by [generate_content] as it is, although the sibling [generate_titles]
    answers a value of the wrong shape with its defaults.  The decoder has
    to enter one container for it. *)
Theorem generate_content_returns_non_mapping (rt : runtime)
  (Hdepth : (1 <= recursion_limit rt)%nat) :
  generate_content rt (answers (lit "[1, 2]"))
    (lit "T") (lit "AI") (lit "devs") (lit "Blog Post") (lit "warm") None
  = Ok (JArr [JInt 1; JInt 2])
  /\ is_dict (JArr [JInt 1; JInt 2]) = false
  /\ generate_titles rt (answers (lit "{}"))
       (lit "AI") (lit "devs") (lit "Blog Post") (lit "warm")
     = Ok (as_list (_get_default_titles (lit "AI"))).
Proof.
  destruct rt as [[|n] m z]; [cbn in Hdepth; lia|].
  repeat split; vm_compute; reflexivity.
Qed.

Lemma generate_content_returns_non_mapping_witness :
  generate_content cpython (answers (lit "[1, 2]"))
    (lit "T") (lit "AI") (lit "devs") (lit "Blog Post") (lit "warm") None
  = Ok (JArr [JInt 1; JInt 2])
  /\ is_dict (JArr [JInt 1; JInt 2]) = false
  /\ generate_titles cpython (answers (lit "{}"))
       (lit "AI") (lit "devs") (lit "Blog Post") (lit "warm")
     = Ok (as_list (_get_default_titles (lit "AI"))).
Proof.
  apply (generate_content_returns_non_mapping cpython).
  cbn [recursion_limit cpython]. lia.
Defined.

End ContentClaims.

Section ExtractionClaims.

(** C4: the failing input.  The trimmed text [[abc] does not start with
    the fence, is not delimited, and has an opening bracket but no closing
    one; the extraction step of [generate_titles] returns the empty string,
    not the text (for [find] gives 0, [rfind] gives -1, the end index is 0
    and the test of the end index against -1 succeeds).  The step of
    [generate_content] does the same with braces, and so does every text
    with an opening delimiter and no closing one
    ([extract_payload_unclosed]). *)
Theorem extraction_of_unclosed_payload_is_empty :
  strip (lit "[abc") = lit "[abc"
  /\ startswith fence (lit "[abc") = false
  /\ endswith (lit "]") (lit "[abc") = false
  /\ contains (lit "]") (lit "[abc") = false
  /\ extract_payload 91%N 93%N (lit "[abc") = []
  /\ extract_payload 123%N 125%N (lit "{abc") = [].
Proof. repeat split; vm_compute; reflexivity. Qed.

(** C7, as stated, fails: after the fence is stripped the span is not
    selected, so a second application still changes the text. *)
Lemma extraction_not_idempotent :
  extract_payload 91%N 93%N (lit "```json x [1] y") = lit "x [1] y"
  /\ extract_payload 91%N 93%N (lit "x [1] y") = lit "[1]"
  /\ extract_payload 91%N 93%N
       (extract_payload 91%N 93%N (lit "```json x [1] y"))
     <> extract_payload 91%N 93%N (lit "```json x [1] y").
Proof.
  split; [vm_compute; reflexivity|]. split; [vm_compute; reflexivity|].
  vm_compute. discriminate.
Qed.

End ExtractionClaims.

Section RepairClaims.

(** C5, as stated, fails: the repaired text is not a JSON object. *)
Lemma repaired_scenario2_does_not_parse :
  ~ (_clean_json_string scenario2 = scenario2_repaired
     /\ exists d,
          json_loads cpython (_clean_json_string scenario2) = Ok (JObj d)).
Proof. intros [_ [d H]]. vm_compute in H. discriminate H. Qed.

(** C5 (amended): the repair removes the trailing comma and puts the keys
    [title] and [seo_score] between double quotes, leaving the
    single-quoted value as it is; with that value the result is not JSON
    and [json.loads], once it has entered the object, raises
    [JSONDecodeError]. *)
Theorem clean_scenario2 (rt : runtime)
  (Hdepth : (1 <= recursion_limit rt)%nat) :
  _clean_json_string scenario2 = scenario2_repaired
  /\ json_loads rt scenario2_repaired = Raise JSONDecodeError.
Proof.
  destruct rt as [[|n] m z]; [cbn in Hdepth; lia|].
  split; vm_compute; reflexivity.
Qed.

Lemma clean_scenario2_witness :
  _clean_json_string scenario2 = scenario2_repaired
  /\ json_loads cpython scenario2_repaired = Raise JSONDecodeError.
Proof.
  apply (clean_scenario2 cpython). cbn [recursion_limit cpython]. lia.
Defined.

(** C6, as stated, fails: a valid JSON text with a comma and a closing
    bracket inside a string literal is changed. *)
Lemma repair_changes_valid_json :
  json_loads cpython comma_bracket_json = Ok (JArr [JStr (lit "a,]")])
  /\ _clean_json_string comma_bracket_json
     = lit "[" ++ quoted "a]" ++ lit "]"
  /\ _clean_json_string comma_bracket_json <> comma_bracket_json.
Proof.
  split; [vm_compute; reflexivity|]. split; [vm_compute; reflexivity|].
  vm_compute. discriminate.
Qed.

(** C6 (amended): a text that [json.loads] accepts is returned unchanged
    by [_clean_json_string] exactly when no place of repair starts inside
    one of its string literals: no comma right before a closing bracket or
    brace, and no opening brace or comma followed by an identifier and a
    colon.  Commas and braces inside string literals are otherwise
    harmless. *)
Theorem repair_noop_on_valid_json (rt : runtime) (s : str) (v : jvalue)
  (Hvalid : json_loads rt s = Ok v) :
  _clean_json_string s = s <-> literals_quiet Outside s = true.
Proof.
  split.
  - intros E. destruct (literals_quiet Outside s) eqn:Q; [reflexivity|].
    exfalso. apply (clean_fixed_quiet s E).
    now apply (literals_loud s Outside).
  - exact (clean_valid_json rt s v Hvalid).
Qed.

Lemma repair_noop_on_valid_json_witness :
  json_loads cpython sample_json
  = Ok (JObj [(lit "title", JStr (lit "Hello, world {1}"));
              (lit "tags",
               JArr [JInt 1; JBool true; JNull; JFloat (lit "-2.5e3");
                     JObj []])])
  /\ literals_quiet Outside sample_json = true
  /\ _clean_json_string sample_json = sample_json.
Proof.
  assert (H : json_loads cpython sample_json
              = Ok (JObj [(lit "title", JStr (lit "Hello, world {1}"));
                          (lit "tags",
                           JArr [JInt 1; JBool true; JNull;
                                 JFloat (lit "-2.5e3"); JObj []])]))
    by (vm_compute; reflexivity).
  split; [exact H|]. split; [vm_compute; reflexivity|].
  apply (proj2 (repair_noop_on_valid_json cpython sample_json _ H)).
  vm_compute. reflexivity.
Defined.

End RepairClaims.

Section TitleClaims.

(** C2, as stated, fails: a parsed score of 99 is returned as it is, and so
    are an engagement score of 0 and eleven hashtags. *)
Lemma parsed_scores_are_not_clamped :
  generate_titles cpython (answers (lit "[" ++ title_json "99" ++ lit "]"))
    (lit "AI") (lit "devs") (lit "Blog Post") (lit "warm")
  = Ok (JArr [title_of 99])
  /\ titles_in_range (JArr [title_of 99]) = false
  /\ exists v,
       generate_content cpython
         (answers (lit "{" ++ quoted "engagement_score" ++ lit ": 0, "
                   ++ quoted "hashtags" ++ lit ": ["
                   ++ join (lit ", ") (repeat (quoted "#ai") 11)
                   ++ lit "]}"))
         (lit "T") (lit "AI") (lit "devs") (lit "Blog Post") (lit "warm") None
       = Ok v
       /\ content_in_range v = false.
Proof.
  split; [vm_compute; reflexivity|]. split; [vm_compute; reflexivity|].
  eexists. split; vm_compute; reflexivity.
Qed.

Lemma extract_hashtags_length (content : str) :
  (length (_extract_hashtags content) <= 10)%nat.
Proof. unfold _extract_hashtags. rewrite length_firstn. lia. Qed.

(** The record of a parse failure is in range. *)
Lemma parse_failure_in_range (raw content_format : str) :
  content_in_range (JObj (parse_failure_content raw content_format)) = true.
Proof.
  unfold content_in_range.
  change (score_in_range k_engagement_score
            (parse_failure_content raw content_format))
    with true.
  change (dict_get k_hashtags (parse_failure_content raw content_format))
    with (Some (JArr (map JStr (_extract_hashtags raw)))).
  cbn [andb]. rewrite length_map. apply Nat.leb_le.
  apply extract_hashtags_length.
Qed.

(** The three ways [generate_titles] ends: the parsed list as it is, the
    candidates of the line scan, or the fixed defaults. *)
Lemma generate_titles_paths (rt : runtime)
  (llm : llm_client) (topic target_audience content_format tone : str) :
  let r := generate_titles rt llm topic target_audience content_format tone in
  (exists raw v,
      llm (title_prompt topic target_audience content_format tone) = Ok raw
      /\ json_loads rt (_clean_json_string (extract_payload 91%N 93%N raw))
         = Ok v
      /\ is_list v = true /\ r = Ok v)
  \/ (exists raw ds,
         llm (title_prompt topic target_audience content_format tone) = Ok raw
         /\ _parse_fallback_titles rt raw = Ok ds /\ ds <> []
         /\ r = Ok (as_list ds))
  \/ r = Ok (as_list (_get_default_titles topic)).
Proof.
  intros r. subst r. unfold generate_titles.
  destruct (llm (title_prompt topic target_audience content_format tone))
    as [raw|e] eqn:El; cbn [bind]; [|now right; right].
  destruct (json_loads rt (_clean_json_string (extract_payload 91%N 93%N raw)))
    as [v|e] eqn:Ej.
  - destruct (is_list v) eqn:Ev; [|now right; right].
    left. exists raw, v. auto.
  - destruct e; try (now right; right).
    destruct (parse_fallback_titles_ok rt raw) as (ds & Ep & _ & _).
    rewrite Ep. cbn [bind]. destruct ds as [|d ds]; [now right; right|].
    right; left. exists raw, (d :: ds). repeat split; auto. discriminate.
Qed.

(** The three ways [generate_content] ends: the parsed value as it is, the
    record of a parse failure, or the fixed default record. *)
Lemma generate_content_paths (rt : runtime)
  (llm : llm_client) (title topic target_audience content_format tone : str)
  (key_points : option (list str)) :
  let r := generate_content rt llm title topic target_audience content_format
             tone key_points in
  (exists raw v,
      llm (build_prompt title topic target_audience content_format tone
             key_points) = Ok raw
      /\ json_loads rt (_clean_json_string (extract_payload 123%N 125%N raw))
         = Ok v
      /\ r = Ok v)
  \/ (exists raw, r = Ok (JObj (parse_failure_content raw content_format)))
  \/ r = Ok (JObj (_get_default_content title topic content_format)).
Proof.
  intros r. subst r. unfold generate_content.
  destruct (llm (build_prompt title topic target_audience content_format tone
                   key_points))
    as [raw|e] eqn:El; cbn [bind]; [|now right; right].
  destruct (json_loads rt (_clean_json_string (extract_payload 123%N 125%N raw)))
    as [v|e] eqn:Ej.
  - left. exists raw, v. auto.
  - destruct e; try (now right; right). right; left. now exists raw.
Qed.

(** C2 (amended): the fixed default titles, the fixed default content
    record and the content record of a parse failure have their scores in
    [1,10] and at most ten hashtags.  Every call returns either the parsed
    value as it is (nothing is clamped), or the candidates of the line scan
    (titles only, with the scores the text gives), or one of those
    records. *)
Theorem scores_by_path :
  (forall topic, titles_in_range (as_list (_get_default_titles topic)) = true)
  /\ (forall title topic content_format,
         content_in_range
           (JObj (_get_default_content title topic content_format)) = true)
  /\ (forall raw content_format,
         content_in_range (JObj (parse_failure_content raw content_format))
         = true)
  /\ (forall rt llm topic target_audience content_format tone,
         let r := generate_titles rt llm topic target_audience content_format
                    tone in
         (exists raw v,
             llm (title_prompt topic target_audience content_format tone)
             = Ok raw
             /\ json_loads rt (_clean_json_string (extract_payload 91%N 93%N raw))
                = Ok v
             /\ is_list v = true /\ r = Ok v)
         \/ (exists raw ds,
                llm (title_prompt topic target_audience content_format tone)
                = Ok raw
                /\ _parse_fallback_titles rt raw = Ok ds /\ ds <> []
                /\ r = Ok (as_list ds))
         \/ r = Ok (as_list (_get_default_titles topic)))
  /\ (forall rt llm title topic target_audience content_format tone
             key_points,
         let r := generate_content rt llm title topic target_audience
                    content_format tone key_points in
         (exists raw v,
             llm (build_prompt title topic target_audience content_format
                    tone key_points) = Ok raw
             /\ json_loads rt
                  (_clean_json_string (extract_payload 123%N 125%N raw))
                = Ok v
             /\ r = Ok v)
         \/ (exists raw,
                r = Ok (JObj (parse_failure_content raw content_format)))
         \/ r = Ok (JObj (_get_default_content title topic content_format))).
Proof.
  split; [reflexivity|]. split; [reflexivity|].
  split; [exact parse_failure_in_range|].
  split; [exact generate_titles_paths | exact generate_content_paths].
Qed.

(** The line scan takes the score as the text gives it. *)
Example line_scan_score_unclamped :
  _parse_fallback_titles cpython
    (quoted "title" ++ lit ": " ++ quoted "Hello, world" ++ lit "," ++ [nl]
     ++ quoted "seo_score" ++ lit ": 12," ++ [nl]
     ++ quoted "reasoning" ++ lit ": " ++ quoted "why" ++ lit "}")
  = Ok [[(k_title, JStr (lit "Hello")); (k_seo_score, JInt 12);
         (k_reasoning, JStr (lit "why"))]].
Proof. vm_compute. reflexivity. Qed.

(** C8: the failing input.  A response that is an array of six title
    objects decodes, and [generate_titles] returns all six; only the line
    scan cuts its result to five.  The decoder has to enter two nested
    containers for it. *)
Theorem generate_titles_returns_six (rt : runtime)
  (Hdepth : (2 <= recursion_limit rt)%nat) :
  generate_titles rt (answers six_titles)
    (lit "AI") (lit "devs") (lit "Blog Post") (lit "warm")
  = Ok (JArr (repeat (title_of 5) 6))
  /\ length (repeat (title_of 5) 6) = 6%nat.
Proof.
  destruct rt as [[|[|n]] m z]; try (cbn in Hdepth; lia).
  split; vm_compute; reflexivity.
Qed.

Lemma generate_titles_returns_six_witness :
  generate_titles cpython (answers six_titles)
    (lit "AI") (lit "devs") (lit "Blog Post") (lit "warm")
  = Ok (JArr (repeat (title_of 5) 6))
  /\ length (repeat (title_of 5) 6) = 6%nat.
Proof.
  apply (generate_titles_returns_six cpython).
  cbn [recursion_limit cpython]. lia.
Defined.

(** C9: when the client raises, [generate_titles] returns the two fixed
    default candidates for the topic; and no call of [generate_titles] or
    [generate_content] raises. *)
Theorem generate_titles_llm_error (rt : runtime)
  (llm : llm_client) (topic target_audience content_format tone : str)
  (e : exn)
  (Hllm : llm (title_prompt topic target_audience content_format tone)
          = Raise e) :
  generate_titles rt llm topic target_audience content_format tone
  = Ok (JArr
          [JObj [(lit "title", JStr (lit "The Ultimate Guide to " ++ topic));
                 (lit "seo_score", JInt 8);
                 (lit "reasoning",
                  JStr (lit "Ultimate guides perform well in search results (default fallback)"))];
           JObj [(lit "title",
                  JStr (lit "5 Proven Strategies for " ++ topic
                        ++ lit " Success"));
                 (lit "seo_score", JInt 7);
                 (lit "reasoning",
                  JStr (lit "Number-based titles attract clicks (default fallback)"))]])
  /\ (forall rt' llm' topic' audience' format' tone',
         exists v,
           generate_titles rt' llm' topic' audience' format' tone' = Ok v)
  /\ (forall rt' llm' title' topic' audience' format' tone' key_points',
         exists v,
           generate_content rt' llm' title' topic' audience' format'
             tone' key_points' = Ok v).
Proof.
  split; [|split].
  - unfold generate_titles. rewrite Hllm. reflexivity.
  - intros rt' llm' topic' audience' format' tone'.
    destruct (generate_titles_paths rt' llm' topic' audience' format' tone')
      as [(raw & v & _ & _ & _ & H) | [(raw & ds & _ & _ & _ & H) | H]];
      eauto.
  - intros rt' llm' title' topic' audience' format' tone' key_points'.
    destruct (generate_content_paths rt' llm' title' topic' audience' format'
                tone' key_points')
      as [(raw & v & _ & _ & H) | [(raw & H) | H]]; eauto.
Qed.

Lemma generate_titles_llm_error_witness :
  fails (LLMError (lit "quota exceeded"))
    (title_prompt (lit "AI") (lit "devs") (lit "Blog Post") (lit "warm"))
  = Raise (LLMError (lit "quota exceeded"))
  /\ generate_titles cpython (fails (LLMError (lit "quota exceeded")))
       (lit "AI") (lit "devs") (lit "Blog Post") (lit "warm")
     = Ok (JArr
             [JObj [(lit "title", JStr (lit "The Ultimate Guide to AI"));
                    (lit "seo_score", JInt 8);
                    (lit "reasoning",
                     JStr (lit "Ultimate guides perform well in search results (default fallback)"))];
              JObj [(lit "title",
                     JStr (lit "5 Proven Strategies for AI Success"));
                    (lit "seo_score", JInt 7);
                    (lit "reasoning",
                     JStr (lit "Number-based titles attract clicks (default fallback)"))]]).
Proof.
  split; [reflexivity|].
  exact (proj1 (generate_titles_llm_error cpython
                  (fails (LLMError (lit "quota exceeded")))
                  (lit "AI") (lit "devs") (lit "Blog Post") (lit "warm")
                  (LLMError (lit "quota exceeded")) eq_refl)).
Defined.

(** C10, as stated, fails: on a line where the marker occurs again before
    the first comma, the title ends at the second marker. *)
Lemma title_stops_at_second_marker :
  contains (marker k_title) (strip two_markers) = true
  /\ scan_line cpython ([], []) two_markers
     = Ok ([], [(k_title, JStr (lit "A"))])
  /\ title_up_to_comma two_markers = lit "A title: B"
  /\ scan_line cpython ([], []) two_markers
     <> Ok ([], [(k_title, JStr (title_up_to_comma two_markers))]).
Proof.
  split; [vm_compute; reflexivity|]. split; [vm_compute; reflexivity|].
  split; [vm_compute; reflexivity|]. vm_compute. discriminate.
Qed.

(** C10 (amended): on a line that holds the title marker, the title is the
    text after the first marker up to the next marker, the first comma or
    the end of the line, whichever comes first, without its double quotes
    and stripped; the record accumulated before is emitted only if it has
    the three fields.  Every record the fallback returns has the three
    fields. *)
Theorem title_from_marker_line (rt : runtime)
  (titles : list dict) (cur : dict) (line : str)
  (Hmarker : contains (marker k_title) (strip line) = true) :
  scan_line rt (titles, cur) line
  = Ok (if dict_truthy cur
           && (dict_has k_title cur && dict_has k_seo_score cur
               && dict_has k_reasoning cur)
        then titles ++ [cur] else titles,
        [(k_title,
          JStr (strip (unquote (before (lit ",")
                  (before (marker k_title)
                     (after (marker k_title) (strip line)))))))])
  /\ (forall content, exists ds,
         _parse_fallback_titles rt content = Ok ds
         /\ forall d, In d ds ->
              dict_has k_title d = true /\ dict_has k_seo_score d = true
              /\ dict_has k_reasoning d = true).
Proof.
  split; [exact (scan_line_title rt titles cur line Hmarker)|].
  intros content.
  destruct (parse_fallback_titles_ok rt content) as (ds & E & _ & Hc).
  exists ds. split; [exact E|]. intros d Hd.
  pose proof (proj1 (Forall_forall _ _) Hc d Hd) as H. cbv beta in H.
  unfold complete in H.
  apply andb_true_iff in H as [H H3]. apply andb_true_iff in H as [H1 H2].
  auto.
Qed.

Lemma title_from_marker_line_witness :
  contains (marker k_title)
    (strip (lit "  " ++ quoted "title" ++ lit ": " ++ quoted "Hello, world"
            ++ lit ",")) = true
  /\ scan_line cpython ([], [(k_title, JStr (lit "old"))])
       (lit "  " ++ quoted "title" ++ lit ": " ++ quoted "Hello, world"
        ++ lit ",")
     = Ok ([], [(k_title, JStr (lit "Hello"))]).
Proof.
  split; [vm_compute; reflexivity|].
  exact (proj1 (title_from_marker_line cpython []
                  [(k_title, JStr (lit "old"))]
                  (lit "  " ++ quoted "title" ++ lit ": "
                   ++ quoted "Hello, world" ++ lit ",")
                  eq_refl)).
Defined.

End TitleClaims.

(** * Further properties of the recovery layer *)

(** ** Extraction keeps to the text *)

Section InfixFacts.

Lemma infix_refl (s : str) : infix s s.
Proof. exists [], []. now rewrite app_nil_r. Qed.

Lemma infix_trans (a b c : str) : infix a b -> infix b c -> infix a c.
Proof.
  intros (p1 & q1 & ->) (p2 & q2 & ->).
  exists (p2 ++ p1), (q1 ++ q2). now rewrite <- !app_assoc.
Qed.

Lemma lstrip_suffix (s : str) : exists w, s = w ++ lstrip s.
Proof.
  induction s as [|c s (w & E)]; [now exists []|]. simpl.
  destruct (isspace c); [|now exists []].
  exists (c :: w). simpl. now f_equal.
Qed.

Lemma rstrip_prefix (s : str) : exists w, s = rstrip s ++ w.
Proof.
  unfold rstrip. destruct (lstrip_suffix (rev s)) as (w & E).
  exists (rev w). rewrite <- rev_app_distr, <- E. now rewrite rev_involutive.
Qed.

Lemma strip_infix (s : str) : infix (strip s) s.
Proof.
  unfold strip. destruct (lstrip_suffix s) as (w & E).
  destruct (rstrip_prefix (lstrip s)) as (w' & E').
  exists w, w'. rewrite <- E'. exact E.
Qed.

Lemma slice_infix (i j : option Z) (s : str) : infix (slice i j s) s.
Proof.
  unfold slice. cbv zeta.
  match goal with
  | |- infix (firstn ?n (skipn ?a s)) s =>
      exists (firstn a s), (skipn n (skipn a s))
  end.
  now rewrite firstn_skipn, firstn_skipn.
Qed.

Lemma infix_without (c : char) (x s : str) :
  infix x s -> without c s -> without c x.
Proof.
  intros (p & q & ->) H Hx. apply H.
  apply in_or_app. right. apply in_or_app. now left.
Qed.

End InfixFacts.

Section ExtractionMore.

Variables op cl : char.

(** The extraction step returns a contiguous part of the response: it
    never adds or rearranges text. *)
Theorem extract_payload_infix (raw : str) :
  infix (extract_payload op cl raw) raw.
Proof.
  unfold extract_payload.
  pose proof (strip_infix raw) as Hs.
  destruct (startswith fence (strip raw)).
  - eapply infix_trans; [apply strip_infix|].
    destruct (endswith (lit "```") (slice (Some 7%Z) None (strip raw))).
    + eapply infix_trans; [apply slice_infix|].
      eapply infix_trans; [apply slice_infix | exact Hs].
    + eapply infix_trans; [apply slice_infix | exact Hs].
  - destruct (negb (startswith [op] (strip raw) && endswith [cl] (strip raw)));
      [|exact Hs].
    destruct (negb (find [op] (strip raw) =? -1)%Z
              && negb (rfind [cl] (strip raw) + 1 =? -1)%Z); [|exact Hs].
    eapply infix_trans; [apply slice_infix | exact Hs].
Qed.

Lemma startswith_app (p s : str) : startswith p (p ++ s) = true.
Proof.
  induction p as [|a p IH]; [reflexivity|]. simpl.
  now rewrite N.eqb_refl, IH.
Qed.

Lemma slice_from (n : nat) (s : str) :
  slice (Some (Z.of_nat n)) None s = skipn n s.
Proof.
  unfold slice, norm_index.
  destruct (Z.ltb_spec (Z.of_nat n) 0) as [?|_]; [lia|].
  destruct (Nat.le_gt_cases n (length s)) as [H|H].
  - replace (Z.to_nat (Z.min (Z.of_nat n) (Z.of_nat (length s)))) with n by lia.
    apply firstn_all2. rewrite length_skipn. lia.
  - replace (Z.to_nat (Z.min (Z.of_nat n) (Z.of_nat (length s))))
      with (length s) by lia.
    rewrite skipn_all, firstn_nil. symmetry. apply skipn_all2. lia.
Qed.

Lemma slice_drop_last (n : nat) (body tail : str) :
  length tail = S n ->
  slice None (Some (- Z.of_nat (S n))%Z) (body ++ tail) = body.
Proof.
  intros Hl. unfold slice, norm_index. rewrite length_app, Hl.
  destruct (Z.ltb_spec (- Z.of_nat (S n)) 0) as [_|?]; [|lia].
  change (Z.to_nat 0) with 0%nat. cbn [skipn].
  replace (Z.to_nat _) with (length body) by lia.
  rewrite firstn_app, Nat.sub_diag, firstn_all.
  cbn [firstn]. now rewrite app_nil_r.
Qed.

Lemma payload_of_fenced (raw body : str)
  (Hfenced : strip raw = fence ++ body ++ lit "```") :
  extract_payload op cl raw = strip body.
Proof.
  unfold extract_payload. rewrite Hfenced, startswith_app.
  change (Some 7%Z) with (Some (Z.of_nat (length fence))).
  rewrite slice_from, skipn_app, skipn_all, Nat.sub_diag. cbn [skipn app].
  unfold endswith. rewrite rev_app_distr, startswith_app.
  change (Some (-3)%Z) with (Some (- Z.of_nat 3)%Z).
  now rewrite (slice_drop_last 2 body (lit "```") eq_refl).
Qed.

Lemma find_from_first (c : char) (p r : str) (i : Z) :
  ~ In c p -> find_from [c] (p ++ c :: r) i = (i + Z.of_nat (length p))%Z.
Proof.
  revert i. induction p as [|a p IH]; intros i H.
  - cbn [app find_from startswith length]. rewrite N.eqb_refl. cbn. lia.
  - cbn [app find_from startswith]. rewrite andb_true_r.
    destruct (N.eqb_spec c a) as [->|_]; [exfalso; apply H; now left|].
    rewrite IH by (intros F; apply H; now right). cbn [length]. lia.
Qed.

Lemma rfind_from_absent (c : char) (s : str) (i : Z) :
  ~ In c s -> rfind_from [c] s i = (-1)%Z.
Proof.
  revert i. induction s as [|a s IH]; intros i H; [reflexivity|].
  cbn [rfind_from startswith]. rewrite andb_true_r.
  rewrite IH by (intros F; apply H; now right). cbn [Z.eqb].
  destruct (N.eqb_spec c a) as [->|_]; [exfalso; apply H; now left|].
  reflexivity.
Qed.

Lemma rfind_from_last (c : char) (l q : str) (i : Z) :
  (0 <= i)%Z -> ~ In c q ->
  rfind_from [c] (l ++ c :: q) i = (i + Z.of_nat (length l))%Z.
Proof.
  revert i. induction l as [|a l IH]; intros i Hi H.
  - cbn [app rfind_from startswith length]. rewrite rfind_from_absent by exact H.
    rewrite N.eqb_refl. cbn. lia.
  - cbn [app rfind_from]. rewrite IH by (lia || exact H).
    destruct (Z.eqb_spec (i + 1 + Z.of_nat (length l)) (-1)); [lia|].
    cbn [length]. lia.
Qed.

(** A payload from [op] to [cl] between a text without [op] and a text
    without [cl] is the span selected. *)
Lemma select_span_embedded (p m x q : str) :
  op :: m = x ++ [cl] -> ~ In op p -> ~ In cl q ->
  select_span op cl (p ++ (op :: m) ++ q) = op :: m.
Proof.
  intros E Hp Hq.
  assert (Hf : find [op] (p ++ (op :: m) ++ q) = Z.of_nat (length p)).
  { unfold find. change (p ++ (op :: m) ++ q) with (p ++ op :: (m ++ q)).
    rewrite find_from_first by exact Hp. lia. }
  assert (Hr : rfind [cl] (p ++ (op :: m) ++ q)
               = Z.of_nat (length (p ++ x))).
  { unfold rfind.
    replace (p ++ (op :: m) ++ q) with ((p ++ x) ++ cl :: q)
      by (rewrite E, <- !app_assoc; reflexivity).
    rewrite rfind_from_last by (lia || exact Hq). lia. }
  unfold select_span. cbv zeta. rewrite Hf, Hr.
  destruct (startswith [op] (p ++ (op :: m) ++ q)
            && endswith [cl] (p ++ (op :: m) ++ q)) eqn:B; cbn [negb].
  - apply andb_true_iff in B as [B1 B2].
    assert (p = []) as ->.
    { destruct p as [|a p]; [reflexivity|]. exfalso. apply Hp.
      apply startswith_one in B1 as [t Ht]. injection Ht as ->. now left. }
    assert (q = []) as ->.
    { destruct (rev q) as [|b t] eqn:Er.
      - apply (f_equal (@rev char)) in Er. now rewrite rev_involutive in Er.
      - exfalso. apply Hq. unfold endswith in B2.
        rewrite !rev_app_distr, Er in B2. cbn [app rev] in B2.
        apply startswith_one in B2 as [t' Ht']. injection Ht' as -> _.
        apply in_rev. rewrite Er. now left. }
    cbn [app]. now rewrite app_nil_r.
  - replace (Z.of_nat (length (p ++ x)) + 1)%Z
      with (Z.of_nat (S (length (p ++ x)))) by lia.
    destruct (Z.eqb_spec (Z.of_nat (length p)) (-1)); [lia|].
    destruct (Z.eqb_spec (Z.of_nat (S (length (p ++ x)))) (-1)); [lia|].
    cbn [negb andb].
    assert (Hm : length (op :: m) = S (length x))
      by (rewrite E, length_app; cbn; lia).
    rewrite slice_nonneg by (rewrite !length_app; cbn [length] in *; lia).
    rewrite skipn_app, skipn_all, Nat.sub_diag. cbn [skipn app].
    rewrite length_app.
    replace (S (length p + length x) - length p)%nat with (length (op :: m))
      by lia.
    change (op :: m ++ q) with ((op :: m) ++ q).
    rewrite firstn_app, Nat.sub_diag, firstn_all. cbn [firstn].
    now rewrite app_nil_r.
Qed.

Hypothesis op_not_space : isspace op = false.
Hypothesis cl_not_space : isspace cl = false.

Lemma strip_around (p m x q : str) :
  op :: m = x ++ [cl] ->
  strip (p ++ (op :: m) ++ q) = lstrip p ++ (op :: m) ++ rstrip q.
Proof.
  intros E. unfold strip.
  change (p ++ (op :: m) ++ q) with (p ++ op :: (m ++ q)).
  rewrite lstrip_app_nonspace by exact op_not_space.
  unfold rstrip.
  change (lstrip p ++ op :: m ++ q) with (lstrip p ++ (op :: m) ++ q).
  rewrite E, !rev_app_distr. cbn [rev app]. rewrite <- !app_assoc.
  cbn [app]. rewrite lstrip_app_nonspace by exact cl_not_space.
  rewrite !rev_app_distr. cbn [rev app].
  rewrite !rev_app_distr, !rev_involutive, <- !app_assoc. reflexivity.
Qed.

Lemma payload_of_embedded (raw p m x q : str)
  (Hfence : startswith fence (strip raw) = false)
  (Hraw : raw = p ++ (op :: m) ++ q)
  (Hend : op :: m = x ++ [cl])
  (Hbefore : ~ In op p)
  (Hafter : ~ In cl q) :
  extract_payload op cl raw = op :: m.
Proof.
  rewrite extract_payload_unfenced by exact Hfence.
  rewrite Hraw, (strip_around p m x q Hend).
  apply (select_span_embedded (lstrip p) m x (rstrip q) Hend).
  - destruct (lstrip_suffix p) as (w & E). intros F. apply Hbefore.
    rewrite E. apply in_or_app. now right.
  - destruct (rstrip_prefix q) as (w & E). intros F. apply Hafter.
    rewrite E. apply in_or_app. now left.
Qed.

(** A response that is a fenced block: the fence markers are removed and
    what is between them is stripped. *)
Theorem extract_payload_fenced (raw body : str)
  (Hfenced : strip raw = fence ++ body ++ lit "```") :
  extract_payload op cl raw = strip body.
Proof. exact (payload_of_fenced raw body Hfenced). Qed.

(** A payload that runs from the opening to the closing delimiter, inside
    a response with no opening delimiter before it and no closing
    delimiter after it, is what the extraction step returns. *)
Theorem extract_payload_embedded (raw p m x q : str)
  (Hfence : startswith fence (strip raw) = false)
  (Hraw : raw = p ++ (op :: m) ++ q)
  (Hend : op :: m = x ++ [cl])
  (Hbefore : ~ In op p)
  (Hafter : ~ In cl q) :
  extract_payload op cl raw = op :: m.
Proof. exact (payload_of_embedded raw p m x q Hfence Hraw Hend Hbefore Hafter). Qed.

(** Without a fence, a text that lacks the opening delimiter is returned
    trimmed, as it is, whatever closing delimiters it has. *)
Theorem extract_payload_no_opening (raw : str)
  (Hfence : startswith fence (strip raw) = false)
  (Hopen : ~ In op (strip raw)) :
  extract_payload op cl raw = strip raw.
Proof.
  rewrite extract_payload_unfenced by exact Hfence.
  unfold select_span, find.
  destruct (find_from_one op (strip raw) 0)
    as [[-> _] | (pre & post & E & _)].
  - cbn [Z.eqb negb andb].
    now destruct (negb (startswith [op] (strip raw)
                        && endswith [cl] (strip raw))).
  - exfalso. apply Hopen. rewrite E. apply in_or_app. right. now left.
Qed.

End ExtractionMore.

(** ** When the extraction step reproduces its output *)

Section Idempotence.

Variables op cl : char.
Hypothesis op_not_space : isspace op = false.
Hypothesis cl_not_space : isspace cl = false.
Hypothesis op_not_backtick : op <> 96%N.

Lemma infix_length (x s : str) : infix x s -> (length x <= length s)%nat.
Proof. intros (p & q & ->). rewrite !length_app. lia. Qed.

Lemma select_span_no_opening (s : str) :
  ~ In op s -> select_span op cl s = s.
Proof.
  intros H. unfold select_span, find.
  destruct (find_from_one op s 0) as [[-> _] | (pre & post & E & _)].
  - cbn [Z.eqb negb andb].
    now destruct (negb (startswith [op] s && endswith [cl] s)).
  - exfalso. apply H. rewrite E. apply in_or_app. right. now left.
Qed.

(** A span selection that gives the text back found it delimited or
    without an opening delimiter. *)
Lemma select_span_fixed (s : str) :
  select_span op cl s = s ->
  startswith [op] s && endswith [cl] s = true \/ ~ In op s.
Proof.
  unfold select_span. intros H.
  destruct (startswith [op] s && endswith [cl] s) eqn:D; [now left|].
  cbn [negb] in H. unfold find, rfind in H.
  destruct (find_from_one op s 0) as [[_ Hn] | (pre & post & E1 & _ & Ef)];
    [now right|].
  exfalso. rewrite Ef, Z.add_0_l in H.
  destruct (Z.eqb_spec (Z.of_nat (length pre)) (-1)) as [?|_]; [lia|].
  assert (Hlen : length s = (length pre + S (length post))%nat)
    by (rewrite E1, length_app; reflexivity).
  destruct (rfind_from_one cl s 0 ltac:(lia))
    as [Er | (pre2 & post2 & E2 & Er)]; rewrite Er in H.
  - change (-1 + 1)%Z with (Z.of_nat 0) in H.
    change (Z.of_nat 0 =? -1)%Z with false in H. cbn [negb andb] in H.
    rewrite slice_nonneg in H by lia.
    apply (f_equal (@length _)) in H. rewrite length_firstn in H. lia.
  - assert (Hlen2 : length s = (length pre2 + S (length post2))%nat)
      by (rewrite E2, length_app; reflexivity).
    replace (0 + Z.of_nat (length pre2) + 1)%Z
      with (Z.of_nat (S (length pre2))) in H by lia.
    destruct (Z.eqb_spec (Z.of_nat (S (length pre2))) (-1)) as [?|_]; [lia|].
    cbn [negb andb] in H. rewrite slice_nonneg in H by lia.
    apply (f_equal (@length _)) in H as Hl.
    rewrite length_firstn, length_skipn in Hl.
    destruct pre as [|a pre]; [|cbn [length] in *; lia].
    destruct post2 as [|b post2]; [|cbn [length] in *; lia].
    assert (A : startswith [op] s = true)
      by (apply startswith_one; exists post; exact E1).
    assert (B : endswith [cl] s = true)
      by (rewrite E2; apply endswith_one_app).
    rewrite A, B in D. discriminate D.
Qed.

(** What the extraction step returns is stripped. *)
Lemma extract_payload_stripped (raw : str) :
  strip (extract_payload op cl raw) = extract_payload op cl raw.
Proof.
  destruct (startswith fence (strip raw)) eqn:F.
  - unfold extract_payload. rewrite F. apply strip_strip.
  - rewrite (extract_payload_unfenced op cl raw F).
    destruct (select_span_cases op cl (strip raw))
      as [E | [E | (m & x & E & Ex)]]; rewrite E.
    + apply strip_strip.
    + reflexivity.
    + exact (strip_delimited op cl m x op_not_space cl_not_space Ex).
Qed.

(** The fence branch shortens the text. *)
Lemma fenced_shrinks (r : str) :
  startswith fence (strip r) = true ->
  (length (extract_payload op cl r) < length (strip r))%nat.
Proof.
  intros F. unfold extract_payload. rewrite F.
  assert (Hc : (length (slice (Some 7%Z) None (strip r)) + 7
                = length (strip r))%nat).
  { change (Some 7%Z) with (Some (Z.of_nat 7)).
    rewrite slice_from, length_skipn.
    apply startswith_length in F. change (length fence) with 7%nat in F.
    lia. }
  assert (Hi : infix
                 (strip (if endswith (lit "```")
                              (slice (Some 7%Z) None (strip r))
                         then slice None (Some (-3)%Z)
                                (slice (Some 7%Z) None (strip r))
                         else slice (Some 7%Z) None (strip r)))
                 (slice (Some 7%Z) None (strip r))).
  { eapply infix_trans; [apply strip_infix|].
    destruct (endswith (lit "```") (slice (Some 7%Z) None (strip r)));
      [apply slice_infix | apply infix_refl]. }
  apply infix_length in Hi. lia.
Qed.

(** The stripped texts the extraction step leaves as they are. *)
Lemma settled_fixed (r : str) :
  strip r = r -> (extract_payload op cl r = r <-> settled op cl r).
Proof.
  intros Hs. split.
  - intros E. destruct (startswith fence r) eqn:F.
    + exfalso. pose proof (fenced_shrinks r) as H.
      rewrite Hs, E in H. specialize (H F). lia.
    + rewrite extract_payload_unfenced in E by (rewrite Hs; exact F).
      rewrite Hs in E.
      apply select_span_fixed in E as [D|N]; [now left | now right].
  - intros [D | [F N]].
    + apply andb_true_iff in D as [A B].
      apply startswith_one in A as [m ->].
      unfold endswith in B. apply startswith_one in B as [t Ht].
      apply (extract_payload_delimited op cl op_not_space cl_not_space
               op_not_backtick m (rev t)).
      rewrite <- (rev_involutive (op :: m)), Ht. reflexivity.
    + rewrite extract_payload_unfenced by (rewrite Hs; exact F).
      rewrite Hs. now apply select_span_no_opening.
Qed.

(** The extraction step reproduces its output exactly when that output is
    settled. *)
Lemma idempotent_iff_settled (raw : str) :
  extract_payload op cl (extract_payload op cl raw) = extract_payload op cl raw
  <-> settled op cl (extract_payload op cl raw).
Proof. apply settled_fixed, extract_payload_stripped. Qed.

(** Without a fence the output is settled. *)
Lemma unfenced_settled (raw : str) :
  startswith fence (strip raw) = false ->
  settled op cl (extract_payload op cl raw).
Proof.
  intros F. rewrite (extract_payload_unfenced op cl raw F).
  destruct (select_span_cases op cl (strip raw))
    as [E | [E | (m & x & E & Ex)]].
  - rewrite E. apply select_span_fixed in E as [D|N]; [now left | now right].
  - rewrite E. right. split; [reflexivity | intros []].
  - rewrite E. left. apply andb_true_iff. split.
    + cbn [startswith]. now rewrite N.eqb_refl.
    + rewrite Ex. apply endswith_one_app.
Qed.

End Idempotence.

(** C7 (amended): the extraction step reproduces its own output exactly
    when that output is settled: it starts with the opening and ends with
    the closing delimiter, or it holds no opening delimiter and does not
    start with the fence marker.  This is so for every raw text whose
    trimmed form does not start with the fence marker, and for a closed
    fence around a payload that is delimited once stripped.  The same
    holds of the step of [generate_titles], with brackets, and of that of
    [generate_content], with braces. *)
Theorem extraction_idempotent (raw : str) :
  (extract_payload 91%N 93%N (extract_payload 91%N 93%N raw)
   = extract_payload 91%N 93%N raw
   <-> settled 91%N 93%N (extract_payload 91%N 93%N raw))
  /\ (extract_payload 123%N 125%N (extract_payload 123%N 125%N raw)
      = extract_payload 123%N 125%N raw
      <-> settled 123%N 125%N (extract_payload 123%N 125%N raw))
  /\ (startswith fence (strip raw) = false ->
      extract_payload 91%N 93%N (extract_payload 91%N 93%N raw)
      = extract_payload 91%N 93%N raw
      /\ extract_payload 123%N 125%N (extract_payload 123%N 125%N raw)
         = extract_payload 123%N 125%N raw)
  /\ (forall body,
        strip raw = fence ++ body ++ lit "```" ->
        (startswith (lit "[") (strip body) && endswith (lit "]") (strip body)
         = true ->
         extract_payload 91%N 93%N (extract_payload 91%N 93%N raw)
         = extract_payload 91%N 93%N raw)
        /\ (startswith (lit "{") (strip body)
            && endswith (lit "}") (strip body) = true ->
            extract_payload 123%N 125%N (extract_payload 123%N 125%N raw)
            = extract_payload 123%N 125%N raw)).
Proof.
  assert (I1 := idempotent_iff_settled 91%N 93%N eq_refl eq_refl
                  ltac:(discriminate) raw).
  assert (I2 := idempotent_iff_settled 123%N 125%N eq_refl eq_refl
                  ltac:(discriminate) raw).
  split; [exact I1|]. split; [exact I2|]. split.
  - intros F. split; [apply I1 | apply I2]; now apply unfenced_settled.
  - intros body Hb. split; intros D; [apply I1 | apply I2];
      rewrite (payload_of_fenced _ _ raw body Hb); now left.
Qed.

(** ** The repair step on keys *)

Section RepairMore.

(** The key pattern at work: after an opening brace or a comma, a bare
    identifier before a colon is put between double quotes; the whitespace
    before the identifier is kept, the whitespace before the colon is
    dropped, and the scan goes on after the colon. *)
Theorem sub_keys_quotes_key (d c : char) (ws1 id ws2 rest : str)
  (Hd : Re.is_open_or_comma d = true)
  (Hws1 : Forall (fun x => isspace x = true) ws1)
  (Hc : Re.is_ident_start c = true)
  (Hid : Forall (fun x => Re.is_ident_char x = true) id)
  (Hws2 : Forall (fun x => isspace x = true) ws2) :
  Re.sub_keys (d :: ws1 ++ c :: id ++ ws2 ++ 58%N :: rest)
  = d :: ws1 ++ dq :: c :: id ++ [dq; 58%N] ++ Re.sub_keys rest.
Proof. exact (sub_keys_key d c ws1 id ws2 rest Hd Hws1 Hc Hid Hws2). Qed.

Lemma sub_keys_quotes_key_witness :
  Re.sub_keys
    (44%N :: lit " " ++ 115%N :: lit "eo_score" ++ lit " " ++ 58%N :: lit " 7}")
  = 44%N :: lit " " ++ dq :: 115%N :: lit "eo_score" ++ [dq; 58%N]
    ++ Re.sub_keys (lit " 7}").
Proof.
  apply (sub_keys_quotes_key 44%N 115%N (lit " ") (lit "eo_score") (lit " ")
           (lit " 7}"));
    try reflexivity; repeat constructor.
Defined.

(** A text with neither comma nor opening brace is returned as it is. *)
Theorem clean_without_delimiters (s : str)
  (Hcomma : without 44%N s) (Hbrace : without 123%N s) :
  _clean_json_string s = s.
Proof.
  apply clean_quiet, quiet_in_plain. apply Forall_forall. intros x Hx.
  apply not_true_is_false. intros F. unfold Re.is_open_or_comma in F.
  apply orb_true_iff in F as [F|F]; apply N.eqb_eq in F; subst x;
    [now apply Hbrace | now apply Hcomma].
Qed.

Lemma clean_without_delimiters_witness :
  without 44%N (lit "[1 2 'a': x]") /\ without 123%N (lit "[1 2 'a': x]")
  /\ _clean_json_string (lit "[1 2 'a': x]") = lit "[1 2 'a': x]".
Proof.
  assert (H1 : without 44%N (lit "[1 2 'a': x]"))
    by (intros F; cbn in F; repeat destruct F as [F|F]; discriminate || easy).
  assert (H2 : without 123%N (lit "[1 2 'a': x]"))
    by (intros F; cbn in F; repeat destruct F as [F|F]; discriminate || easy).
  split; [exact H1|]. split; [exact H2|].
  exact (clean_without_delimiters (lit "[1 2 'a': x]") H1 H2).
Defined.

End RepairMore.

Ltac absent :=
  let F := fresh "F" in
  intros F; cbn in F;
  repeat (destruct F as [F|F]; [discriminate F|]); exact F.

Section ExtractionWitnesses.

Lemma extract_payload_fenced_witness :
  strip (lit " ```json" ++ [nl] ++ lit "[1]" ++ [nl] ++ lit "``` ")
  = fence ++ ([nl] ++ lit "[1]" ++ [nl]) ++ lit "```"
  /\ extract_payload 91%N 93%N
       (lit " ```json" ++ [nl] ++ lit "[1]" ++ [nl] ++ lit "``` ")
     = lit "[1]".
Proof.
  split; [vm_compute; reflexivity|].
  exact (extract_payload_fenced 91%N 93%N
           (lit " ```json" ++ [nl] ++ lit "[1]" ++ [nl] ++ lit "``` ")
           ([nl] ++ lit "[1]" ++ [nl]) eq_refl).
Defined.

Lemma extract_payload_embedded_witness :
  extract_payload 91%N 93%N (lit "Here: " ++ lit "[1, 2]" ++ lit " ok")
  = lit "[1, 2]".
Proof.
  apply (extract_payload_embedded 91%N 93%N eq_refl eq_refl
           (lit "Here: " ++ lit "[1, 2]" ++ lit " ok")
           (lit "Here: ") (lit "1, 2]") (lit "[1, 2") (lit " ok"));
    try reflexivity; absent.
Defined.

Lemma extract_payload_no_opening_witness :
  extract_payload 123%N 125%N (lit " plain} text ") = lit "plain} text".
Proof.
  apply (extract_payload_no_opening 123%N 125%N (lit " plain} text ") eq_refl).
  absent.
Defined.

End ExtractionWitnesses.

(** ** A payload inside the response reaches the caller *)

Section EndToEnd.

(** A response that holds a JSON array between prose: when the array runs
    from its opening to its closing bracket, no opening bracket stands
    before it and no closing bracket after it, and no place of repair
    starts inside one of its string literals, [generate_titles] returns the
    array as [json.loads] reads it.  (An array nested too deep or with too
    long an integer for the interpreter does not satisfy [Hjson].) *)
Theorem generate_titles_embedded_array (rt : runtime)
  (llm : llm_client) (topic target_audience content_format tone : str)
  (raw p m x q : str) (l : list jvalue)
  (Hllm : llm (title_prompt topic target_audience content_format tone)
          = Ok raw)
  (Hfence : startswith fence (strip raw) = false)
  (Hraw : raw = p ++ (91%N :: m) ++ q)
  (Hend : 91%N :: m = x ++ [93%N])
  (Hbefore : ~ In 91%N p)
  (Hafter : ~ In 93%N q)
  (Hjson : json_loads rt (91%N :: m) = Ok (JArr l))
  (Hstrings : literals_quiet Outside (91%N :: m) = true) :
  generate_titles rt llm topic target_audience content_format tone
  = Ok (JArr l).
Proof.
  unfold generate_titles. rewrite Hllm. cbn [bind]. cbv zeta.
  assert (Hx : extract_payload 91%N 93%N raw = 91%N :: m)
    by exact (payload_of_embedded 91%N 93%N eq_refl eq_refl raw p m x q
                Hfence Hraw Hend Hbefore Hafter).
  rewrite Hx.
  rewrite (clean_valid_json rt _ _ Hjson Hstrings), Hjson. reflexivity.
Qed.

Lemma generate_titles_embedded_array_witness :
  generate_titles cpython
    (answers (lit "Sure! " ++ (lit "[" ++ title_json "9" ++ lit "]")
              ++ lit " Enjoy."))
    (lit "AI") (lit "devs") (lit "Blog Post") (lit "warm")
  = Ok (JArr [title_of 9]).
Proof.
  apply (generate_titles_embedded_array cpython
           (answers (lit "Sure! " ++ (lit "[" ++ title_json "9" ++ lit "]")
                     ++ lit " Enjoy."))
           (lit "AI") (lit "devs") (lit "Blog Post") (lit "warm")
           (lit "Sure! " ++ (lit "[" ++ title_json "9" ++ lit "]")
            ++ lit " Enjoy.")
           (lit "Sure! ") (title_json "9" ++ lit "]")
           (lit "[" ++ title_json "9") (lit " Enjoy."));
    try (vm_compute; reflexivity); absent.
Defined.

(** The same for [generate_content] and a JSON object between prose that
    [json.loads] accepts in the running interpreter. *)
Theorem generate_content_embedded_object (rt : runtime)
  (llm : llm_client) (title topic target_audience content_format tone : str)
  (key_points : option (list str)) (raw p m x q : str) (v : jvalue)
  (Hllm : llm (build_prompt title topic target_audience content_format tone
                 key_points) = Ok raw)
  (Hfence : startswith fence (strip raw) = false)
  (Hraw : raw = p ++ (123%N :: m) ++ q)
  (Hend : 123%N :: m = x ++ [125%N])
  (Hbefore : ~ In 123%N p)
  (Hafter : ~ In 125%N q)
  (Hjson : json_loads rt (123%N :: m) = Ok v)
  (Hstrings : literals_quiet Outside (123%N :: m) = true) :
  generate_content rt llm title topic target_audience content_format tone
    key_points = Ok v.
Proof.
  unfold generate_content. rewrite Hllm. cbn [bind]. cbv zeta.
  assert (Hx : extract_payload 123%N 125%N raw = 123%N :: m)
    by exact (payload_of_embedded 123%N 125%N eq_refl eq_refl raw p m x q
                Hfence Hraw Hend Hbefore Hafter).
  rewrite Hx.
  rewrite (clean_valid_json rt _ _ Hjson Hstrings), Hjson. reflexivity.
Qed.

Lemma generate_content_embedded_object_witness :
  generate_content cpython
    (answers (lit "Here it is: " ++ title_json "3" ++ lit " Bye."))
    (lit "T") (lit "AI") (lit "devs") (lit "Blog Post") (lit "warm") None
  = Ok (title_of 3).
Proof.
  apply (generate_content_embedded_object cpython
           (answers (lit "Here it is: " ++ title_json "3" ++ lit " Bye."))
           (lit "T") (lit "AI") (lit "devs") (lit "Blog Post") (lit "warm")
           None
           (lit "Here it is: " ++ title_json "3" ++ lit " Bye.")
           (lit "Here it is: ") (skipn 1 (title_json "3"))
           (firstn (length (title_json "3") - 1) (title_json "3"))
           (lit " Bye."));
    try (vm_compute; reflexivity); absent.
Defined.

(** A response that is a fenced block around a JSON array: when no place
    of repair starts inside one of the string literals of the array,
    [generate_titles] returns the array as [json.loads] reads it. *)
Theorem generate_titles_fenced_array (rt : runtime)
  (llm : llm_client) (topic target_audience content_format tone : str)
  (raw body : str) (l : list jvalue)
  (Hllm : llm (title_prompt topic target_audience content_format tone)
          = Ok raw)
  (Hfenced : strip raw = fence ++ body ++ lit "```")
  (Hjson : json_loads rt (strip body) = Ok (JArr l))
  (Hstrings : literals_quiet Outside (strip body) = true) :
  generate_titles rt llm topic target_audience content_format tone
  = Ok (JArr l).
Proof.
  unfold generate_titles. rewrite Hllm. cbn [bind]. cbv zeta.
  rewrite (payload_of_fenced 91%N 93%N raw body Hfenced).
  rewrite (clean_valid_json rt _ _ Hjson Hstrings), Hjson. reflexivity.
Qed.

Lemma generate_titles_fenced_array_witness :
  generate_titles cpython
    (answers (fence ++ ([nl] ++ lit "[" ++ title_json "9" ++ lit "]" ++ [nl])
              ++ lit "```"))
    (lit "AI") (lit "devs") (lit "Blog Post") (lit "warm")
  = Ok (JArr [title_of 9]).
Proof.
  apply (generate_titles_fenced_array cpython
           (answers (fence
                     ++ ([nl] ++ lit "[" ++ title_json "9" ++ lit "]" ++ [nl])
                     ++ lit "```"))
           (lit "AI") (lit "devs") (lit "Blog Post") (lit "warm")
           (fence ++ ([nl] ++ lit "[" ++ title_json "9" ++ lit "]" ++ [nl])
            ++ lit "```")
           ([nl] ++ lit "[" ++ title_json "9" ++ lit "]" ++ [nl]));
    vm_compute; reflexivity.
Defined.

End EndToEnd.

(** ** Dicts and occurrences *)

Section DictFacts.

Lemma str_eqb_eq (a b : str) : str_eqb a b = true <-> a = b.
Proof.
  revert b. induction a as [|x a IH]; intros [|y b]; simpl;
    try (split; [discriminate | discriminate]); [tauto|].
  rewrite andb_true_iff, N.eqb_eq, IH. split.
  - now intros [-> ->].
  - now intros [= -> ->].
Qed.

Lemma str_eqb_refl (a : str) : str_eqb a a = true.
Proof. now apply str_eqb_eq. Qed.

(** What was stored under a key is what a lookup gives. *)
Lemma dict_get_set_same (k : str) (v : jvalue) (d : dict) :
  dict_get k (dict_set k v d) = Some v.
Proof.
  induction d as [|[k' v'] d IH]; simpl.
  - now rewrite str_eqb_refl.
  - destruct (str_eqb k k') eqn:E; simpl.
    + now rewrite str_eqb_refl.
    + now rewrite E.
Qed.

(** Storing under one key leaves the other keys as they are. *)
Lemma dict_get_set_other (k k' : str) (v : jvalue) (d : dict) :
  str_eqb k k' = false -> dict_get k (dict_set k' v d) = dict_get k d.
Proof.
  intros Hk. induction d as [|[k2 v2] d IH]; simpl.
  - now rewrite Hk.
  - destruct (str_eqb k' k2) eqn:E; simpl.
    + apply str_eqb_eq in E. subst k2. now rewrite Hk.
    + destruct (str_eqb k k2); [reflexivity | exact IH].
Qed.

Lemma contains_infix (sub s : str) : contains sub s = true <-> infix sub s.
Proof.
  split.
  - induction s as [|c s IH]; cbn [contains]; intros H.
    + rewrite orb_false_r in H. apply startswith_split in H.
      exists [], (skipn (length sub) []). exact H.
    + apply orb_true_iff in H as [H|H].
      * apply startswith_split in H.
        exists [], (skipn (length sub) (c :: s)). exact H.
      * destruct (IH H) as (p & q & ->). now exists (c :: p), q.
  - intros (p & q & ->). induction p as [|a p IH].
    + cbn [app]. destruct (sub ++ q) eqn:E; cbn [contains];
        rewrite <- E, startswith_app; reflexivity.
    + cbn [app contains]. rewrite IH. apply orb_true_r.
Qed.

Lemma contains_mono (sub x s : str) :
  infix x s -> contains sub x = true -> contains sub s = true.
Proof.
  intros Hx H. apply contains_infix. apply contains_infix in H.
  now apply infix_trans with x.
Qed.

Lemma startswith_contains (p s : str) :
  startswith p s = true -> contains p s = true.
Proof. intros H. destruct s; cbn [contains]; now rewrite H. Qed.

Lemma infix_cons (c : char) (x s : str) : infix x s -> infix x (c :: s).
Proof. intros (p & q & ->). now exists (c :: p), q. Qed.

Lemma infix_nil (s : str) : infix [] s.
Proof. now exists [], s. Qed.

(** The pieces of a split are parts of the text. *)
Lemma split_aux_infix (sep : str) (s : str) :
  forall skip,
    (skip = 0%nat ->
     exists h t r, split_aux sep None skip s = h :: t /\ s = h ++ r)
    /\ forall x, In x (split_aux sep None skip s) -> infix x s.
Proof.
  induction s as [|c s IH]; intros skip.
  - split.
    + intros _. now exists [], [], [].
    + intros x [<- | []]. apply infix_nil.
  - cbn [split_aux option_map]. destruct skip as [|k].
    + destruct (startswith sep (c :: s)).
      * split.
        -- intros _. now eexists [], _, (c :: s).
        -- intros x [<- | H]; [apply infix_nil|].
           apply infix_cons. now apply (proj2 (IH (length sep - 1)%nat)).
      * destruct (proj1 (IH 0%nat) eq_refl) as (h & t & r & E & Es).
        rewrite E. cbn [cons_head]. split.
        -- intros _. exists (c :: h), t, r. split; [reflexivity|].
           cbn [app]. now f_equal.
        -- intros x [<- | H].
           ++ exists [], r. cbn [app]. now f_equal.
           ++ apply infix_cons. apply (proj2 (IH 0%nat)). rewrite E.
              now right.
    + split; [discriminate|].
      intros x H. apply infix_cons. now apply (proj2 (IH k)).
Qed.

Lemma split_infix (sep s x : str) : In x (split sep s) -> infix x s.
Proof. apply (proj2 (split_aux_infix sep s 0)). Qed.

(** The lines of [splitlines] are parts of the text. *)
Lemma splitlines_aux_infix (s : str) :
  forall after_cr cur x,
    (after_cr = true -> cur = []) ->
    In x (splitlines_aux after_cr cur s) -> infix x (rev cur ++ s).
Proof.
  induction s as [|c s IH]; intros after_cr cur x Hcr H.
  - cbn [splitlines_aux] in H. destruct cur as [|a cur]; [destruct H|].
    destruct H as [<- | []]. rewrite app_nil_r. apply infix_refl.
  - cbn [splitlines_aux] in H.
    destruct (after_cr && (c =? 10)%N) eqn:E.
    + apply andb_true_iff in E as [E _]. rewrite (Hcr E) in *.
      cbn [rev app]. apply infix_cons.
      apply (IH false [] x); [discriminate | exact H].
    + destruct (is_linebreak c).
      * destruct H as [<- | H].
        -- exists [], (c :: s). reflexivity.
        -- apply (IH _ [] x) in H; [|reflexivity]. cbn [rev app] in H.
           destruct H as (p & q & E'). exists (rev cur ++ c :: p), q.
           rewrite E', <- !app_assoc. reflexivity.
      * apply (IH false (c :: cur) x) in H; [|discriminate].
        cbn [rev] in H. now rewrite <- app_assoc in H.
Qed.

Lemma splitlines_infix (s x : str) : In x (splitlines s) -> infix x s.
Proof.
  intros H. apply (splitlines_aux_infix s false [] x) in H;
    [exact H | discriminate].
Qed.

End DictFacts.

(** ** What the title fallback returns *)

Section FallbackMore.

Variable rt : runtime.

Lemma without_strip (c : char) (s : str) : without c s -> without c (strip s).
Proof. apply infix_without, strip_infix. Qed.

Lemma without_filter (c : char) (f : char -> bool) (s : str) :
  without c s -> without c (filter f s).
Proof. intros H F. apply H. now apply filter_In in F. Qed.

Lemma replace_char_empty (c : char) (s : str) :
  replace [c] [] s = filter (fun x => negb (x =? c)%N) s.
Proof.
  unfold replace. induction s as [|a s IH]; [reflexivity|].
  cbn [replace_aux startswith filter]. rewrite andb_true_r, (N.eqb_sym c a).
  destruct (a =? c)%N; cbn [negb app length Nat.sub]; now rewrite IH.
Qed.

Lemma without_removed (c : char) (s : str) : without c (replace [c] [] s).
Proof.
  rewrite replace_char_empty. intros F. apply filter_In in F as [_ F].
  now rewrite N.eqb_refl in F.
Qed.

Lemma without_replace (c x : char) (s : str) :
  without c s -> without c (replace [x] [] s).
Proof. rewrite replace_char_empty. apply without_filter. Qed.

Lemma without_before (c : char) (s : str) : without c (before [c] s).
Proof.
  induction s as [|a s IH]; cbn [before startswith].
  - intros [].
  - rewrite andb_true_r. destruct (N.eqb_spec c a) as [->|Hn]; [intros []|].
    intros [F|F]; [congruence | now apply IH].
Qed.

Lemma typed_partial_nil : typed_partial [].
Proof. repeat split; intros v H; discriminate H. Qed.

Lemma typed_partial_record (d : dict) :
  typed_partial d -> complete d = true -> typed_record d.
Proof.
  intros (Ht & Hs & Hr) Hc. unfold complete, dict_has in Hc.
  destruct (dict_get k_title d) as [vt|] eqn:Et; [|discriminate].
  destruct (dict_get k_seo_score d) as [vs|] eqn:Es; [|discriminate].
  destruct (dict_get k_reasoning d) as [vr|] eqn:Er; [|discriminate].
  destruct (Ht vt eq_refl) as (t & -> & ? & ?).
  destruct (Hs vs eq_refl) as (n & ->).
  destruct (Hr vr eq_refl) as (r & -> & ?).
  exists t, n, r. auto 10.
Qed.

Lemma typed_set_title (t : str) :
  without 34%N t -> without 44%N t -> typed_partial [(k_title, JStr t)].
Proof.
  intros H1 H2. repeat split; intros v H; cbn in H;
    try discriminate H. injection H as <-. eauto.
Qed.

Lemma typed_set_score (n : Z) (d : dict) :
  typed_partial d -> typed_partial (dict_set k_seo_score (JInt n) d).
Proof.
  intros (Ht & Hs & Hr). repeat split; intros v H.
  - rewrite dict_get_set_other in H by reflexivity. now apply Ht.
  - rewrite dict_get_set_same in H. injection H as <-. eauto.
  - rewrite dict_get_set_other in H by reflexivity. now apply Hr.
Qed.

Lemma typed_set_reasoning (r : str) (d : dict) :
  without 34%N r ->
  typed_partial d -> typed_partial (dict_set k_reasoning (JStr r) d).
Proof.
  intros H34 (Ht & Hs & Hr). repeat split; intros v H.
  - rewrite dict_get_set_other in H by reflexivity. now apply Ht.
  - rewrite dict_get_set_other in H by reflexivity. now apply Hs.
  - rewrite dict_get_set_same in H. injection H as <-. eauto.
Qed.

Lemma scan_line_typed (titles : list dict) (cur : dict) (line : str) :
  all_typed titles -> typed_partial cur ->
  exists titles' cur',
    scan_line rt (titles, cur) line = Ok (titles', cur')
    /\ all_typed titles' /\ typed_partial cur'.
Proof.
  intros Ha Hp.
  destruct (contains (marker k_title) (strip line)) eqn:Ht.
  { rewrite (scan_line_title rt titles cur line Ht).
    eexists _, _. split; [reflexivity|]. split.
    - destruct (dict_truthy cur && complete cur) eqn:E; [|exact Ha].
      apply andb_true_iff in E as [_ E]. apply Forall_app. split; [exact Ha|].
      constructor; [now apply typed_partial_record | constructor].
    - apply typed_set_title.
      + apply without_strip. unfold unquote. intros F.
        apply filter_In in F as [_ F]. now rewrite N.eqb_refl in F.
      + apply without_strip, without_filter.
        apply (without_before 44%N). }
  unfold scan_line. rewrite Ht.
  destruct (contains (marker k_seo_score) (strip line) && dict_truthy cur).
  { destruct (index_cases (split (marker k_seo_score) (strip line)) 1)
      as [[a ->] | ->]; cbn [bind].
    - rewrite (split_first (lit ",") comma_not_empty). cbn [bind].
      destruct (py_int_cases rt (strip (before (lit ",") a))) as [[n ->] | ->];
        eexists _, _; (split; [reflexivity|]); split; auto;
        now apply typed_set_score.
    - eexists _, _. split; [reflexivity|]. split; auto.
      now apply typed_set_score. }
  destruct (contains (marker k_reasoning) (strip line) && dict_truthy cur).
  { destruct (index_cases (split (marker k_reasoning) (strip line)) 1)
      as [[a ->] | ->]; cbn [bind].
    - eexists _, _. split; [reflexivity|]. split; auto.
      apply typed_set_reasoning; [|exact Hp].
      apply without_strip. apply (without_replace 34%N 125%N).
      apply (without_removed 34%N).
    - eexists _, _. split; [reflexivity|]. auto. }
  eexists _, _. split; [reflexivity|]. auto.
Qed.

Lemma scan_lines_typed (lines : list str) :
  forall titles cur, all_typed titles -> typed_partial cur ->
    exists titles' cur',
      scan_lines rt (titles, cur) lines = Ok (titles', cur')
      /\ all_typed titles' /\ typed_partial cur'.
Proof.
  induction lines as [|line lines IH]; intros titles cur Ha Hp.
  - exists titles, cur. auto.
  - cbn [scan_lines].
    destruct (scan_line_typed titles cur line Ha Hp)
      as (t1 & c1 & -> & Ha1 & Hp1).
    cbn [bind]. now apply IH.
Qed.

Lemma simple_lines_typed (lines : list str) :
  forall titles, all_typed titles ->
    all_typed (fold_left simple_line lines titles).
Proof.
  induction lines as [|line lines IH]; intros titles Ha; [exact Ha|].
  cbn [fold_left]. apply IH. unfold simple_line.
  destruct (startswith (lit "Title:") (strip line)
            || startswith (marker k_title) (strip line)); [|exact Ha].
  match goal with |- context [if ?b then _ else _] => destruct b end;
    [|exact Ha].
  apply Forall_app. split; [exact Ha|]. constructor; [|constructor].
  eexists _, 7%Z, _. split; [reflexivity|].
  split; [apply (without_replace 34%N 44%N), (without_removed 34%N)|].
  split; [apply (without_removed 44%N)|].
  split; [reflexivity|]. split; [reflexivity | absent].
Qed.

(** The title fallback never raises and returns at most five records; in
    each of them the title is a string without double quote or comma, the
    score an integer and the reasoning a string without double quote. *)
Theorem parse_fallback_titles_typed (content : str) :
  exists ds,
    _parse_fallback_titles rt content = Ok ds
    /\ (length ds <= 5)%nat
    /\ Forall typed_record ds.
Proof.
  unfold _parse_fallback_titles.
  destruct (scan_lines_typed (split [nl] content) [] [] (Forall_nil _)
              typed_partial_nil) as (titles & cur & E & Ha & Hp).
  match goal with
  | |- context [bind ?m _] =>
      assert (E' : m = Ok (titles, cur)) by exact E; rewrite E'
  end.
  cbn [bind]. eexists. split; [reflexivity|]. split.
  - rewrite length_firstn. lia.
  - apply Forall_firstn.
    assert (Ha' : all_typed (if dict_truthy cur && complete cur
                             then titles ++ [cur] else titles)).
    { destruct (dict_truthy cur && complete cur) eqn:Ec; [|exact Ha].
      apply andb_true_iff in Ec as [_ Ec].
      apply Forall_app. split; [exact Ha|].
      constructor; [now apply typed_partial_record | constructor]. }
    destruct (if dict_truthy cur && complete cur
              then titles ++ [cur] else titles); [|exact Ha'].
    now apply simple_lines_typed.
Qed.

Lemma scan_lines_no_marker (lines : list str) :
  (forall line, In line lines ->
                contains (marker k_title) (strip line) = false) ->
  forall titles, scan_lines rt (titles, []) lines = Ok (titles, []).
Proof.
  induction lines as [|line lines IH]; intros H titles; [reflexivity|].
  cbn [scan_lines]. unfold scan_line at 1.
  rewrite (H line (or_introl eq_refl)). cbn [dict_truthy].
  rewrite !andb_false_r. cbn [bind].
  apply IH. intros l Hl. apply H. now right.
Qed.

Lemma simple_lines_simple (lines : list str) :
  forall titles, Forall simple_record titles ->
    Forall simple_record (fold_left simple_line lines titles).
Proof.
  induction lines as [|line lines IH]; intros titles Ha; [exact Ha|].
  cbn [fold_left]. apply IH. unfold simple_line.
  destruct (startswith (lit "Title:") (strip line)
            || startswith (marker k_title) (strip line)); [|exact Ha].
  match goal with
  | |- context [if ?b then _ else _] => destruct b eqn:E
  end; [|exact Ha].
  apply Forall_app. split; [exact Ha|]. constructor; [|constructor].
  eexists. split; [reflexivity|].
  apply andb_true_iff in E as [E1 E2].
  apply Nat.ltb_lt in E1, E2. lia.
Qed.

(** A text without the quoted title marker: the first loop of the
    fallback finds nothing, and every record returned comes from the
    second loop, with score 7, the fixed reasoning, and a title of 11 to
    99 characters. *)
Theorem parse_fallback_without_marker (content : str)
  (Hmarker : contains (marker k_title) content = false) :
  exists ds,
    _parse_fallback_titles rt content = Ok ds /\ Forall simple_record ds.
Proof.
  unfold _parse_fallback_titles.
  assert (E : scan_lines rt ([], []) (split [nl] content) = Ok ([], [])).
  { apply scan_lines_no_marker. intros line Hl.
    apply not_true_is_false. intros F.
    rewrite (contains_mono (marker k_title) (strip line) content) in Hmarker;
      [discriminate | | exact F].
    eapply infix_trans; [apply strip_infix | now apply split_infix in Hl]. }
  match goal with
  | |- context [bind ?m _] =>
      assert (E' : m = Ok ([], [])) by exact E; rewrite E'
  end.
  cbn [bind dict_truthy andb]. eexists. split; [reflexivity|].
  apply Forall_firstn. now apply simple_lines_simple.
Qed.

Lemma simple_lines_nothing (lines : list str) :
  (forall line, In line lines ->
     startswith (lit "Title:") (strip line) = false
     /\ startswith (marker k_title) (strip line) = false) ->
  forall titles, fold_left simple_line lines titles = titles.
Proof.
  induction lines as [|line lines IH]; intros H titles; [reflexivity|].
  cbn [fold_left]. unfold simple_line at 2.
  destruct (H line (or_introl eq_refl)) as [-> ->]. cbn [orb].
  apply IH. intros l Hl. apply H. now right.
Qed.

(** A text with neither the quoted title marker nor [Title:] gives no
    fallback record at all. *)
Lemma parse_fallback_nothing (content : str) :
  contains (marker k_title) content = false ->
  contains (lit "Title:") content = false ->
  _parse_fallback_titles rt content = Ok [].
Proof.
  intros Hm Ht. unfold _parse_fallback_titles.
  assert (E : scan_lines rt ([], []) (split [nl] content) = Ok ([], [])).
  { apply scan_lines_no_marker. intros line Hl.
    apply not_true_is_false. intros F.
    rewrite (contains_mono (marker k_title) (strip line) content) in Hm;
      [discriminate | | exact F].
    eapply infix_trans; [apply strip_infix | now apply split_infix in Hl]. }
  match goal with
  | |- context [bind ?m _] =>
      assert (E' : m = Ok ([], [])) by exact E; rewrite E'
  end.
  cbn [bind dict_truthy andb]. rewrite simple_lines_nothing; [reflexivity|].
  intros line Hl.
  assert (Hin : infix (strip line) content)
    by (eapply infix_trans; [apply strip_infix | now apply splitlines_infix]).
  split; apply not_true_is_false; intros F; apply startswith_contains in F.
  - rewrite (contains_mono _ _ _ Hin F) in Ht. discriminate.
  - rewrite (contains_mono _ _ _ Hin F) in Hm. discriminate.
Qed.

(** A response on which [json.loads] raises, whatever the exception, and
    that holds neither the quoted title marker nor [Title:] is answered
    with the two fixed default titles. *)
Theorem generate_titles_unrecognizable
  (llm : llm_client) (topic target_audience content_format tone raw : str)
  (e : exn)
  (Hllm : llm (title_prompt topic target_audience content_format tone)
          = Ok raw)
  (Hjson : json_loads rt (_clean_json_string (extract_payload 91%N 93%N raw))
           = Raise e)
  (Hmarker : contains (marker k_title) raw = false)
  (Htitle : contains (lit "Title:") raw = false) :
  generate_titles rt llm topic target_audience content_format tone
  = Ok (as_list (_get_default_titles topic)).
Proof.
  unfold generate_titles. rewrite Hllm. cbn [bind]. cbv zeta.
  rewrite Hjson. destruct e; try reflexivity.
  rewrite (parse_fallback_nothing raw Hmarker Htitle). reflexivity.
Qed.

End FallbackMore.

Section FallbackWitnesses.

Lemma generate_titles_unrecognizable_witness :
  generate_titles cpython (answers (lit "I cannot help with that, sorry."))
    (lit "AI") (lit "devs") (lit "Blog Post") (lit "warm")
  = Ok (as_list (_get_default_titles (lit "AI"))).
Proof.
  apply (generate_titles_unrecognizable cpython
           (answers (lit "I cannot help with that, sorry."))
           (lit "AI") (lit "devs") (lit "Blog Post") (lit "warm")
           (lit "I cannot help with that, sorry.") JSONDecodeError);
    vm_compute; reflexivity.
Defined.

Lemma parse_fallback_without_marker_witness :
  contains (marker k_title)
    (lit "Title: Ten Ways To Ship It" ++ [nl] ++ lit "Title: short") = false
  /\ _parse_fallback_titles cpython
       (lit "Title: Ten Ways To Ship It" ++ [nl] ++ lit "Title: short")
     = Ok [[(k_title, JStr (lit "Ten Ways To Ship It"));
            (k_seo_score, JInt 7);
            (k_reasoning,
             JStr (lit "Fallback parsed title with good potential"))]]
  /\ exists ds,
       _parse_fallback_titles cpython
         (lit "Title: Ten Ways To Ship It" ++ [nl] ++ lit "Title: short")
       = Ok ds /\ Forall simple_record ds.
Proof.
  split; [vm_compute; reflexivity|]. split; [vm_compute; reflexivity|].
  apply (parse_fallback_without_marker cpython
           (lit "Title: Ten Ways To Ship It" ++ [nl] ++ lit "Title: short")).
  vm_compute. reflexivity.
Defined.

End FallbackWitnesses.

(** ** Hashtags *)

Section Hashtags.

Lemma split_ws_aux_words (s : str) :
  forall cur w,
    Forall (fun x => isspace x = false) cur ->
    In w (split_ws_aux cur s) ->
    Forall (fun x => isspace x = false) w /\ infix w (rev cur ++ s).
Proof.
  induction s as [|c s IH]; intros cur w Hc H; cbn [split_ws_aux] in H.
  - destruct cur as [|a cur]; [destruct H|]. destruct H as [<- | []].
    split; [now apply Forall_rev|]. rewrite app_nil_r. apply infix_refl.
  - destruct (isspace c) eqn:Ec.
    + assert (Hrest : In w (split_ws_aux [] s) ->
                      Forall (fun x => isspace x = false) w
                      /\ infix w (rev cur ++ c :: s)).
      { intros H'. destruct (IH [] w (Forall_nil _) H') as [Hw (p & q & E)].
        split; [exact Hw|]. exists (rev cur ++ c :: p), q.
        cbn [rev app] in E. rewrite E, <- !app_assoc. reflexivity. }
      destruct cur as [|a cur]; [now apply Hrest|].
      destruct H as [<- | H]; [|now apply Hrest].
      split; [now apply Forall_rev|]. now exists [], (c :: s).
    + destruct (IH (c :: cur) w) as [Hw Hi]; [now constructor | exact H|].
      split; [exact Hw|]. cbn [rev] in Hi. now rewrite <- app_assoc in Hi.
Qed.

(** The hashtags taken from a text: at most ten, each a part of the text
    that starts with [#] and holds no whitespace; none when the text has
    no [#]. *)
Theorem extract_hashtags_words (content : str) :
  (length (_extract_hashtags content) <= 10)%nat
  /\ (forall h, In h (_extract_hashtags content) ->
        (exists t, h = 35%N :: t)
        /\ Forall (fun x => isspace x = false) h
        /\ infix h content)
  /\ (without 35%N content -> _extract_hashtags content = []).
Proof.
  assert (Hall : forall h, In h (_extract_hashtags content) ->
            (exists t, h = 35%N :: t)
            /\ Forall (fun x => isspace x = false) h
            /\ infix h content).
  { intros h Hh. unfold _extract_hashtags in Hh.
    assert (Hf : In h (filter (startswith (lit "#")) (split_ws content))).
    { rewrite <- (firstn_skipn 10). apply in_or_app. now left. }
    apply filter_In in Hf as [Hw Hs].
    split; [now apply startswith_one in Hs|].
    now apply (split_ws_aux_words content [] h (Forall_nil _)). }
  split; [apply extract_hashtags_length|]. split; [exact Hall|].
  intros Hno. destruct (_extract_hashtags content) as [|h hs] eqn:E;
    [reflexivity|].
  exfalso. destruct (Hall h (or_introl eq_refl)) as ([t ->] & _ & Hi).
  apply (infix_without 35%N _ _ Hi Hno). now left.
Qed.

End Hashtags.

(** ** The analysis and optimization operations *)

Section Operations.

Variable rt : runtime.
Variable msg : messages.

Lemma split_ws_aux_nil (s : str) :
  forall cur,
    split_ws_aux cur s = [] <-> cur = [] /\ forallb isspace s = true.
Proof.
  induction s as [|c s IH]; intros cur; cbn [split_ws_aux forallb].
  - destruct cur; split; try tauto; try discriminate.
    intros [H _]. discriminate H.
  - destruct (isspace c); cbn [andb].
    + destruct cur as [|a cur]; [apply IH|].
      split; [discriminate | intros [H _]; discriminate H].
    + rewrite IH. split; [intros [H _]; discriminate H|].
      intros [_ H]. discriminate H.
Qed.

(** [analyze_title_performance] takes the first word of the title while
    it builds its prompt, outside of its [try]: a title that is not empty
    and is all whitespace raises [IndexError] to the caller.  Every other
    title gives a record, with the analysis or with an error and the raw
    response. *)
Theorem analyze_title_first_word (llm : llm_client) (title_to_analyze : str) :
  if match title_to_analyze with
     | [] => false
     | _ => forallb isspace title_to_analyze
     end
  then analyze_title_performance rt msg llm title_to_analyze = Raise IndexError
  else exists d,
      analyze_title_performance rt msg llm title_to_analyze = Ok (JObj d)
      /\ (dict_has k_analysis d = true
          \/ (dict_has k_error d = true /\ dict_has k_raw_response d = true)).
Proof.
  unfold analyze_title_performance.
  assert (Hrec : forall w,
             exists d,
               (first_word <- Ok w ;;
                Ok (match llm (analysis_prompt title_to_analyze first_word) with
                    | Raise e => JObj (error_record (exn_text msg e) [])
                    | Ok raw =>
                        match json_loads rt (_clean_json_string
                                            (extract_payload 123%N 125%N raw))
                        with
                        | Ok parsed_output => JObj [(k_analysis, parsed_output)]
                        | Raise JSONDecodeError =>
                            JObj (error_record
                                    (lit "JSONDecodeError: "
                                     ++ decode_text msg
                                          (_clean_json_string
                                             (extract_payload 123%N 125%N raw)))
                                    raw)
                        | Raise e => JObj (error_record (exn_text msg e) raw)
                        end
                    end)) = Ok (JObj d)
               /\ (dict_has k_analysis d = true
                   \/ (dict_has k_error d = true
                       /\ dict_has k_raw_response d = true))).
  { intros w. cbn [bind].
    destruct (llm (analysis_prompt title_to_analyze w)) as [raw|e].
    - destruct (json_loads rt (_clean_json_string
                              (extract_payload 123%N 125%N raw))) as [v|e].
      + eexists. split; [reflexivity|]. now left.
      + destruct e; (eexists; split; [reflexivity|]; right; now split).
    - eexists. split; [reflexivity|]. right. now split. }
  destruct title_to_analyze as [|c t]; [apply Hrec|].
  destruct (forallb isspace (c :: t)) eqn:Ef.
  - assert (E : split_ws (c :: t) = [])
      by (apply split_ws_aux_nil; now split).
    now rewrite E.
  - destruct (split_ws (c :: t)) as [|w ws] eqn:E.
    + apply split_ws_aux_nil in E as [_ E]. congruence.
    + apply Hrec.
Qed.

(** What [optimize_for_platform] can return: an error record, whose raw
    response is the response of the LLM as it came (empty when the call
    itself failed); or a dict with the key [original_length]; or a list
    that holds the string [original_length]; or a string that contains it.
    It never returns a number, a boolean or [None]. *)
Theorem optimize_outcome (llm : llm_client) (content platform : str) :
  let r := optimize_for_platform rt msg llm content platform in
  (exists e raw,
      r = JObj (error_record e raw)
      /\ (llm (optimization_prompt content platform) = Ok raw
          \/ (raw = [] /\ exists x,
                llm (optimization_prompt content platform) = Raise x)))
  \/ (exists d, r = JObj d /\ dict_has k_original_length d = true)
  \/ (exists l, r = JArr l /\ In (JStr k_original_length) l)
  \/ (exists x, r = JStr x /\ contains k_original_length x = true).
Proof.
  intros r. subst r. unfold optimize_for_platform.
  destruct (llm (optimization_prompt content platform)) as [raw|x] eqn:El.
  2: { left. eexists _, []. split; [reflexivity|]. right. eauto. }
  assert (Herr : forall e,
             exists e' raw',
               JObj (error_record e raw) = JObj (error_record e' raw')
               /\ (Ok raw = Ok raw'
                   \/ (raw' = [] /\ exists x, @Ok str raw = Raise x)))
    by (intros e; exists e, raw; split; [reflexivity | now left]).
  cbv zeta.
  destruct (json_loads rt (_clean_json_string (extract_payload 123%N 125%N raw)))
    as [v|e].
  2: { left. destruct e; apply Herr. }
  destruct v as [ | b | n | f | x | l | d]; cbn [py_in py_setitem];
    try (left; apply Herr).
  - destruct (contains k_original_length x) eqn:E; [|left; apply Herr].
    right; right; right. eauto.
  - destruct (existsb _ l) eqn:E; [|left; apply Herr].
    right; right; left. exists l. split; [reflexivity|].
    apply existsb_exists in E as (y & Hy & Ey).
    destruct y; try discriminate. apply str_eqb_eq in Ey. now subst.
  - right; left. destruct (dict_has k_original_length d) eqn:E.
    + eauto.
    + eexists. split; [reflexivity|]. unfold dict_has.
      now rewrite dict_get_set_same.
Qed.

(** When [json.loads] decodes the response to a dict (a response nested
    too deep or with too long an integer for the interpreter raises
    instead), [optimize_for_platform] returns it with [original_length]:
    the value the response gave if it gave one, the length of the content
    otherwise; every other key is as decoded. *)
Theorem optimize_original_length
  (llm : llm_client) (content platform raw : str) (d : dict)
  (Hllm : llm (optimization_prompt content platform) = Ok raw)
  (Hjson : json_loads rt (_clean_json_string (extract_payload 123%N 125%N raw))
           = Ok (JObj d)) :
  exists d',
    optimize_for_platform rt msg llm content platform = JObj d'
    /\ dict_get k_original_length d'
       = Some (match dict_get k_original_length d with
               | Some v => v
               | None => JInt (Z.of_nat (length content))
               end)
    /\ forall k, str_eqb k k_original_length = false ->
                 dict_get k d' = dict_get k d.
Proof.
  unfold optimize_for_platform. rewrite Hllm. cbv zeta. rewrite Hjson.
  cbn [py_in py_setitem]. unfold dict_has.
  destruct (dict_get k_original_length d) as [v|] eqn:E.
  - exists d. auto.
  - eexists. split; [reflexivity|]. split.
    + apply dict_get_set_same.
    + intros k Hk. now apply dict_get_set_other.
Qed.

(** A JSON object between prose in the response that [json.loads]
    accepts in the running interpreter, and in whose string literals no
    place of repair starts, reaches the caller of
    [analyze_content_performance] under the key [analysis]. *)
Theorem analyze_content_embedded_object
  (llm : llm_client) (content_to_analyze raw p m x q : str) (v : jvalue)
  (Hllm : llm (content_analysis_prompt content_to_analyze) = Ok raw)
  (Hfence : startswith fence (strip raw) = false)
  (Hraw : raw = p ++ (123%N :: m) ++ q)
  (Hend : 123%N :: m = x ++ [125%N])
  (Hbefore : ~ In 123%N p)
  (Hafter : ~ In 125%N q)
  (Hjson : json_loads rt (123%N :: m) = Ok v)
  (Hstrings : literals_quiet Outside (123%N :: m) = true) :
  analyze_content_performance rt msg llm content_to_analyze
  = JObj [(k_analysis, v)].
Proof.
  unfold analyze_content_performance. rewrite Hllm. cbv zeta.
  assert (Hx : extract_payload 123%N 125%N raw = 123%N :: m)
    by exact (payload_of_embedded 123%N 125%N eq_refl eq_refl raw p m x q
                Hfence Hraw Hend Hbefore Hafter).
  rewrite Hx, (clean_valid_json rt _ _ Hjson Hstrings), Hjson. reflexivity.
Qed.

End Operations.

Section OperationWitnesses.

Lemma optimize_original_length_witness :
  exists d',
    optimize_for_platform cpython no_messages (answers optimized_json)
      (lit "hello") (lit "Twitter") = JObj d'
    /\ dict_get k_original_length d' = Some (JInt 5)
    /\ forall k, str_eqb k k_original_length = false ->
                 dict_get k d'
                 = dict_get k [(lit "optimized_content", JStr (lit "hi"))].
Proof.
  exact (optimize_original_length cpython no_messages (answers optimized_json)
           (lit "hello") (lit "Twitter") optimized_json
           [(lit "optimized_content", JStr (lit "hi"))] eq_refl eq_refl).
Defined.

Lemma analyze_content_embedded_object_witness :
  analyze_content_performance cpython no_messages
    (answers (lit "Here it is: " ++ title_json "3" ++ lit " Bye."))
    (lit "some content")
  = JObj [(k_analysis, title_of 3)].
Proof.
  apply (analyze_content_embedded_object cpython no_messages
           (answers (lit "Here it is: " ++ title_json "3" ++ lit " Bye."))
           (lit "some content")
           (lit "Here it is: " ++ title_json "3" ++ lit " Bye.")
           (lit "Here it is: ") (skipn 1 (title_json "3"))
           (firstn (length (title_json "3") - 1) (title_json "3"))
           (lit " Bye."));
    try (vm_compute; reflexivity); absent.
Defined.

End OperationWitnesses.

(** ** The key points, from the form to the prompt *)

Section KeyPoints.

Lemma split_aux_without (c : char) (s : str) :
  forall skip x, In x (split_aux [c] None skip s) -> without c x.
Proof.
  induction s as [|a s IH]; intros skip x H.
  - destruct H as [<- | []]. intros [].
  - cbn [split_aux option_map startswith] in H. destruct skip as [|k].
    + rewrite andb_true_r in H.
      destruct (N.eqb_spec c a) as [->|Hn].
      * destruct H as [<- | H]; [intros [] | now apply IH in H].
      * destruct (split_aux [c] None 0 s) as [|h t] eqn:E; cbn [cons_head] in H.
        -- destruct H as [<- | []]. intros [F | []]. congruence.
        -- destruct H as [<- | H].
           ++ intros [F|F]; [congruence|].
              apply (IH 0%nat h); [rewrite E; now left | exact F].
           ++ apply (IH 0%nat x). rewrite E. now right.
    + now apply IH in H.
Qed.

Lemma before_without (c : char) (p r : str) :
  without c p -> before [c] (p ++ c :: r) = p.
Proof.
  induction p as [|a p IH]; intros H; cbn [app before startswith].
  - now rewrite N.eqb_refl.
  - rewrite andb_true_r.
    destruct (N.eqb_spec c a) as [->|_]; [exfalso; apply H; now left|].
    f_equal. apply IH. intros F. apply H. now right.
Qed.

Lemma after_without (c : char) (p r : str) :
  without c p -> after [c] (p ++ c :: r) = r.
Proof.
  induction p as [|a p IH]; intros H; cbn [app after startswith].
  - now rewrite N.eqb_refl.
  - rewrite andb_true_r.
    destruct (N.eqb_spec c a) as [->|_]; [exfalso; apply H; now left|].
    apply IH. intros F. apply H. now right.
Qed.

Lemma split_without (c : char) (p : str) :
  without c p -> split [c] p = [p].
Proof.
  intros H. rewrite split_unfold by discriminate.
  replace (contains [c] p) with false.
  - f_equal. induction p as [|a p IH]; cbn [before startswith];
      [reflexivity|]. rewrite andb_true_r.
    destruct (N.eqb_spec c a) as [->|_]; [exfalso; apply H; now left|].
    f_equal. apply IH. intros F. apply H. now right.
  - symmetry. apply not_true_is_false. intros F.
    apply contains_infix in F as (a & b & E). apply H. rewrite E.
    apply in_or_app. right. now left.
Qed.

(** Splitting the joined key points on commas gives them back, each but
    the first behind the space of the separator. *)
Lemma split_join_comma (p : str) (ps : list str) :
  Forall (without 44%N) (p :: ps) ->
  split (lit ",") (join (lit ", ") (p :: ps))
  = p :: map (fun x => 32%N :: x) ps.
Proof.
  revert p. induction ps as [|p2 ps IH]; intros p H.
  - cbn [join map]. apply (split_without 44%N). now inversion H.
  - inversion H as [|? ? Hp Hps]; subst.
    change (join (lit ", ") (p :: p2 :: ps))
      with (p ++ 44%N :: 32%N :: join (lit ", ") (p2 :: ps)).
    rewrite split_unfold by discriminate.
    rewrite (before_without 44%N) by exact Hp.
    replace (contains (lit ",") (p ++ 44%N :: 32%N :: join (lit ", ") (p2 :: ps)))
      with true
      by (symmetry; apply contains_infix; now eexists p, _).
    rewrite (after_without 44%N) by exact Hp.
    f_equal. unfold split. cbn [split_aux startswith option_map].
    change (32 =? 44)%N with false. cbn [andb].
    fold (split (lit ",") (join (lit ", ") (p2 :: ps))).
    rewrite (IH p2 Hps). reflexivity.
Qed.

Lemma strip_after_space (p : str) : strip (32%N :: p) = strip p.
Proof. reflexivity. Qed.

(** The key points survive the prompt: reading the key points of the
    prompt of [generate_content] back the way the form reads them gives
    the list that was passed, for a form text that is not empty and whose
    prompt text is not empty. *)
Theorem key_points_round_trip
  (title topic target_audience content_format tone text s : str)
  (Htext : text <> [])
  (Hprompt : prompt_var "key_points"
               (variables (build_prompt title topic target_audience
                             content_format tone
                             (Some (App.key_points_list text))))
             = Some (JStr s))
  (Hs : s <> []) :
  App.key_points_list s = App.key_points_list text.
Proof.
  assert (Hl : App.key_points_list text = map strip (split (lit ",") text))
    by (destruct text; [congruence | reflexivity]).
  rewrite Hl in *.
  destruct (map strip (split (lit ",") text)) as [|p ps] eqn:E.
  { apply map_eq_nil in E. rewrite split_unfold in E by discriminate.
    discriminate E. }
  assert (Hpieces : Forall (fun x => without 44%N x /\ strip x = x) (p :: ps)).
  { rewrite <- E. apply Forall_forall. intros y Hy.
    apply in_map_iff in Hy as (z & <- & Hz). split.
    - apply without_strip. now apply (split_aux_without 44%N text 0%nat).
    - apply strip_strip. }
  assert (Hj : prompt_var "key_points"
                 (variables (build_prompt title topic target_audience
                               content_format tone (Some (p :: ps))))
               = Some (JStr (join (lit ", ") (p :: ps)))) by reflexivity.
  assert (Hsj : s = join (lit ", ") (p :: ps))
    by (rewrite Hj in Hprompt; congruence).
  clear Hprompt Hj. unfold App.key_points_list. rewrite Hsj in Hs |- *.
  destruct (join (lit ", ") (p :: ps)) as [|c j] eqn:Ej; [congruence|].
  rewrite <- Ej.
  rewrite split_join_comma
    by (revert Hpieces; apply Forall_impl; now intros y [Hy _]).
  cbn [map]. inversion Hpieces as [|? ? [_ Hp] Hps]; subst.
  rewrite Hp. f_equal. rewrite map_map.
  rewrite <- (map_id ps) at 2. apply map_ext_in. intros y Hy.
  rewrite strip_after_space.
  now apply (proj1 (Forall_forall _ _) Hps y Hy).
Qed.

Lemma key_points_round_trip_witness :
  App.key_points_list (lit "fast , cheap,good")
  = [lit "fast"; lit "cheap"; lit "good"]
  /\ prompt_var "key_points"
       (variables (build_prompt (lit "T") (lit "AI") (lit "devs")
                     (lit "Blog Post") (lit "warm")
                     (Some (App.key_points_list (lit "fast , cheap,good")))))
     = Some (JStr (lit "fast, cheap, good"))
  /\ App.key_points_list (lit "fast, cheap, good")
     = App.key_points_list (lit "fast , cheap,good").
Proof.
  split; [vm_compute; reflexivity|]. split; [vm_compute; reflexivity|].
  apply (key_points_round_trip (lit "T") (lit "AI") (lit "devs")
           (lit "Blog Post") (lit "warm") (lit "fast , cheap,good")
           (lit "fast, cheap, good"));
    [discriminate | vm_compute; reflexivity | discriminate].
Defined.

End KeyPoints.
